(** * A shallow embedding of the ITCH 5.0 / MoldUDP64 feed handler

    The first part follows the layout of the C++ sources:

    - [Endian]        : include/common/endian.hpp
    - [Itch5]         : include/itch5/messages.hpp, include/itch5/parser.hpp
    - [Spsc]          : include/spsc/ring_buffer.hpp
    - [Moldudp64]     : include/moldudp64/header.hpp,
                        include/moldudp64/session.hpp
    - [PacketHandler] : the parser callbacks of include/dpdk/packet_handler.hpp

    together with the message and packet builders of the unit tests.  The
    second part states and proves the properties, one module per subject:
    [EndianFacts], [ParserFacts], [RoundTrip], [SpscFacts], [SessionFacts],
    [DecoderFacts], [GapFacts], [StateFacts] and [Scenarios].

    Fixed-width unsigned integers are [Z] with the wrap-around written out
    ([u16], [u64], [s64]); packet memory is a [list byte]; a [std::function]
    member is modelled by whether it holds a target, and its invocations by
    the trace of calls an operation returns.  The ring is modelled
    sequentially, one [try_push] or [try_pop] at a time. *)

From Stdlib Require Import ZArith List Lia Bool.
From Stdlib Require Import Strings.Byte.
From stdpp Require Import base list.

Local Open Scope Z_scope.

(** ** Fixed-width integers *)

Definition u16 (z : Z) : Z := z mod 2^16.
Definition u64 (z : Z) : Z := z mod 2^64.

(** ** include/common/endian.hpp *)

Module Endian.

(** A [uint8_t] read as an integer, and [static_cast<uint8_t>]. *)
Definition byte_to_Z (b : byte) : Z := Z.of_N (Byte.to_N b).

Definition byte_of_Z (z : Z) : byte :=
  match Byte.of_N (Z.to_N (z mod 256)) with
  | Some b => b
  | None => x00
  end.

(** The host is little-endian ("x86/x64 uses Little Endian, so we always
    need to swap"): [memcpy(&val, ptr, n)] loads [n] bytes least
    significant first, and storing a value lays it out the same way. *)
Fixpoint load_le (bs : list byte) : Z :=
  match bs with
  | [] => 0
  | b :: bs' => byte_to_Z b + 256 * load_le bs'
  end.

Fixpoint store_le (n : nat) (v : Z) : list byte :=
  match n with
  | O => []
  | S n' => byte_of_Z v :: store_le n' (v / 256)
  end.

(** [__builtin_bswap16/32/64]: the value whose bytes are those of the
    argument in reverse order. *)
Definition bswap (n : nat) (v : Z) : Z := load_le (rev (store_le n v)).

Definition swap16 (val : Z) : Z := bswap 2 val.
Definition swap32 (val : Z) : Z := bswap 4 val.
Definition swap64 (val : Z) : Z := bswap 8 val.

Definition ntoh16 (net : Z) : Z := swap16 net.
Definition ntoh32 (net : Z) : Z := swap32 net.
Definition ntoh64 (net : Z) : Z := swap64 net.
Definition hton16 (host : Z) : Z := swap16 host.
Definition hton32 (host : Z) : Z := swap32 host.
Definition hton64 (host : Z) : Z := swap64 host.

(** [read_beNN(ptr)]: [memcpy] into a host integer, then swap.  [ptr] is
    modelled by the list of bytes starting at the pointer. *)
Definition read_be16 (ptr : list byte) : Z := swap16 (load_le (take 2 ptr)).
Definition read_be32 (ptr : list byte) : Z := swap32 (load_le (take 4 ptr)).
Definition read_be64 (ptr : list byte) : Z := swap64 (load_le (take 8 ptr)).

(** [bytes[i]] of a buffer. *)
Definition byte_at (ptr : list byte) (i : nat) : Z :=
  byte_to_Z (nth i ptr x00).

Definition read_be48 (ptr : list byte) : Z :=
  Z.lor (Z.shiftl (byte_at ptr 0) 40)
 (Z.lor (Z.shiftl (byte_at ptr 1) 32)
 (Z.lor (Z.shiftl (byte_at ptr 2) 24)
 (Z.lor (Z.shiftl (byte_at ptr 3) 16)
 (Z.lor (Z.shiftl (byte_at ptr 4) 8)
        (byte_at ptr 5))))).

End Endian.

(** ** include/common/types.hpp *)

Inductive Side := Buy | Sell.

(** [enum class Side : char { Buy = 'B', Sell = 'S' }] *)
Definition Side_code (s : Side) : byte :=
  match s with Buy => "B"%byte | Sell => "S"%byte end.

Inductive MessageType :=
| MT_Unknown | MT_AddOrder | MT_AddOrderMPID | MT_OrderExecuted
| MT_OrderExecutedWithPrice | MT_OrderCancel | MT_OrderDelete
| MT_OrderReplace | MT_Trade | MT_CrossTrade | MT_BrokenTrade
| MT_SystemEvent | MT_StockDirectory | MT_StockTradingAction | MT_RegSHO
| MT_MarketParticipantPosition | MT_MWCB | MT_IPOQuotingPeriod | MT_LULD
| MT_OperationalHalt.

Record NormalizedMessage := {
  type : MessageType;
  timestamp : Z;            (* Timestamp = uint64_t *)
  order_ref : Z;            (* OrderRef = uint64_t *)
  stock : list byte;        (* StockSymbol = std::array<char, 8> *)
  side : Side;
  price : Z;                (* Price = int64_t *)
  quantity : Z;             (* Quantity = uint32_t *)
  executed_quantity : Z;
  new_order_ref : Z
}.

(** The default constructor of [NormalizedMessage]. *)
Definition NormalizedMessage_default : NormalizedMessage :=
  {| type := MT_Unknown; timestamp := 0; order_ref := 0;
     stock := repeat x00 8; side := Buy; price := 0; quantity := 0;
     executed_quantity := 0; new_order_ref := 0 |}.

(** [int64_t] arithmetic, as two's complement wrap-around. *)
Definition s64 (z : Z) : Z := (z + 2^63) mod 2^64 - 2^63.

(** ** include/itch5/messages.hpp *)

Module Itch5.
Import Endian.

(** A packed struct is the list of its field sizes, in declaration
    order ([#pragma pack(push, 1)]: no padding). *)
Definition layout := list nat.

Definition sizeof (l : layout) : Z := Z.of_nat (sum_list l).

(** The bytes of field number [i] of the struct at [msg]. *)
Definition field (l : layout) (i : nat) (msg : list byte) : list byte :=
  take (nth i l O) (drop (sum_list (take i l)) msg).

(** message_type, stock_locate, tracking_number, timestamp[6] open every
    message. *)
Definition MessageHeader : layout := [1; 2; 2; 6]%nat.
Definition SystemEvent : layout := MessageHeader ++ [1]%nat.
Definition StockDirectory : layout :=
  MessageHeader ++ [8; 1; 1; 4; 1; 1; 2; 1; 1; 1; 1; 1; 4; 1]%nat.
Definition StockTradingAction : layout := MessageHeader ++ [8; 1; 1; 4]%nat.
Definition RegSHORestriction : layout := MessageHeader ++ [8; 1]%nat.
Definition MarketParticipantPosition : layout :=
  MessageHeader ++ [4; 8; 1; 1; 1]%nat.
Definition MWCBDecline : layout := MessageHeader ++ [8; 8; 8]%nat.
Definition MWCBStatus : layout := MessageHeader ++ [1]%nat.
Definition IPOQuotingPeriod : layout := MessageHeader ++ [8; 4; 1; 4]%nat.
Definition LULDAuctionCollar : layout := MessageHeader ++ [8; 4; 4; 4; 4]%nat.
Definition OperationalHalt : layout := MessageHeader ++ [8; 1; 1]%nat.
(** order_reference_number, buy_sell_indicator, shares, stock[8], price *)
Definition AddOrder : layout := MessageHeader ++ [8; 1; 4; 8; 4]%nat.
Definition AddOrderMPID : layout := MessageHeader ++ [8; 1; 4; 8; 4; 4]%nat.
(** order_reference_number, executed_shares, match_number *)
Definition OrderExecuted : layout := MessageHeader ++ [8; 4; 8]%nat.
(** ..., printable, execution_price *)
Definition OrderExecutedWithPrice : layout :=
  MessageHeader ++ [8; 4; 8; 1; 4]%nat.
Definition OrderCancel : layout := MessageHeader ++ [8; 4]%nat.
Definition OrderDelete : layout := MessageHeader ++ [8]%nat.
(** original ref, new ref, shares, price *)
Definition OrderReplace : layout := MessageHeader ++ [8; 8; 4; 4]%nat.
(** order_reference_number, buy_sell_indicator, shares, stock[8], price,
    match_number *)
Definition Trade : layout := MessageHeader ++ [8; 1; 4; 8; 4; 8]%nat.
Definition CrossTrade : layout := MessageHeader ++ [8; 8; 4; 8; 1]%nat.
Definition BrokenTrade : layout := MessageHeader ++ [8]%nat.
Definition NOII : layout :=
  MessageHeader ++ [8; 8; 1; 8; 4; 4; 4; 1; 1]%nat.
Definition RPII : layout := MessageHeader ++ [8; 1]%nat.

(** Field accessors used by the parser ([msg->field], a host-order load
    for integer fields). *)
Definition msg_timestamp (msg : list byte) : list byte :=
  field MessageHeader 3 msg.

Definition AddOrder_order_reference_number msg := load_le (field AddOrder 4 msg).
Definition AddOrder_buy_sell_indicator msg := nth 0 (field AddOrder 5 msg) x00.
Definition AddOrder_shares msg := load_le (field AddOrder 6 msg).
Definition AddOrder_stock msg := field AddOrder 7 msg.
Definition AddOrder_price msg := load_le (field AddOrder 8 msg).

Definition OrderExecuted_order_reference_number msg :=
  load_le (field OrderExecuted 4 msg).
Definition OrderExecuted_executed_shares msg :=
  load_le (field OrderExecuted 5 msg).
Definition OrderExecutedWithPrice_execution_price msg :=
  load_le (field OrderExecutedWithPrice 8 msg).
Definition OrderCancel_order_reference_number msg :=
  load_le (field OrderCancel 4 msg).
Definition OrderCancel_cancelled_shares msg :=
  load_le (field OrderCancel 5 msg).
Definition OrderDelete_order_reference_number msg :=
  load_le (field OrderDelete 4 msg).
Definition OrderReplace_original_order_reference_number msg :=
  load_le (field OrderReplace 4 msg).
Definition OrderReplace_new_order_reference_number msg :=
  load_le (field OrderReplace 5 msg).
Definition OrderReplace_shares msg := load_le (field OrderReplace 6 msg).
Definition OrderReplace_price msg := load_le (field OrderReplace 7 msg).
Definition Trade_order_reference_number msg := load_le (field Trade 4 msg).
Definition Trade_buy_sell_indicator msg := nth 0 (field Trade 5 msg) x00.
Definition Trade_shares msg := load_le (field Trade 6 msg).
Definition Trade_stock msg := field Trade 7 msg.
Definition Trade_price msg := load_le (field Trade 8 msg).

(** [get_message_size]: the [switch] over the [msg_type] constants. *)
Definition get_message_size (msg_type : byte) : Z :=
  match msg_type with
  | "S"%byte => sizeof SystemEvent
  | "R"%byte => sizeof StockDirectory
  | "H"%byte => sizeof StockTradingAction
  | "Y"%byte => sizeof RegSHORestriction
  | "L"%byte => sizeof MarketParticipantPosition
  | "V"%byte => sizeof MWCBDecline
  | "W"%byte => sizeof MWCBStatus
  | "K"%byte => sizeof IPOQuotingPeriod
  | "J"%byte => sizeof LULDAuctionCollar
  | "h"%byte => sizeof OperationalHalt
  | "A"%byte => sizeof AddOrder
  | "F"%byte => sizeof AddOrderMPID
  | "E"%byte => sizeof OrderExecuted
  | "C"%byte => sizeof OrderExecutedWithPrice
  | "X"%byte => sizeof OrderCancel
  | "D"%byte => sizeof OrderDelete
  | "U"%byte => sizeof OrderReplace
  | "P"%byte => sizeof Trade
  | "Q"%byte => sizeof CrossTrade
  | "B"%byte => sizeof BrokenTrade
  | "I"%byte => sizeof NOII
  | "N"%byte => sizeof RPII
  | _ => 0
  end.

(** ** include/itch5/parser.hpp *)

Record Stats := {
  total_messages : Z;
  add_orders : Z;
  order_executed : Z;
  order_deleted : Z;
  order_cancelled : Z;
  order_replaced : Z;
  trades : Z;
  other_messages : Z;
  unknown_messages : Z
}.

(** [Stats{}]: every counter zero. *)
Definition Stats_zero : Stats :=
  {| total_messages := 0; add_orders := 0; order_executed := 0;
     order_deleted := 0; order_cancelled := 0; order_replaced := 0;
     trades := 0; other_messages := 0; unknown_messages := 0 |}.

(** The [++stats_.counter] statements ([uint64_t] counters). *)
Definition incr_total_messages (s : Stats) : Stats :=
  {| total_messages := u64 (total_messages s + 1); add_orders := add_orders s;
     order_executed := order_executed s; order_deleted := order_deleted s;
     order_cancelled := order_cancelled s; order_replaced := order_replaced s;
     trades := trades s; other_messages := other_messages s;
     unknown_messages := unknown_messages s |}.
Definition incr_add_orders (s : Stats) : Stats :=
  {| total_messages := total_messages s; add_orders := u64 (add_orders s + 1);
     order_executed := order_executed s; order_deleted := order_deleted s;
     order_cancelled := order_cancelled s; order_replaced := order_replaced s;
     trades := trades s; other_messages := other_messages s;
     unknown_messages := unknown_messages s |}.
Definition incr_order_executed (s : Stats) : Stats :=
  {| total_messages := total_messages s; add_orders := add_orders s;
     order_executed := u64 (order_executed s + 1);
     order_deleted := order_deleted s;
     order_cancelled := order_cancelled s; order_replaced := order_replaced s;
     trades := trades s; other_messages := other_messages s;
     unknown_messages := unknown_messages s |}.
Definition incr_order_deleted (s : Stats) : Stats :=
  {| total_messages := total_messages s; add_orders := add_orders s;
     order_executed := order_executed s;
     order_deleted := u64 (order_deleted s + 1);
     order_cancelled := order_cancelled s; order_replaced := order_replaced s;
     trades := trades s; other_messages := other_messages s;
     unknown_messages := unknown_messages s |}.
Definition incr_order_cancelled (s : Stats) : Stats :=
  {| total_messages := total_messages s; add_orders := add_orders s;
     order_executed := order_executed s; order_deleted := order_deleted s;
     order_cancelled := u64 (order_cancelled s + 1);
     order_replaced := order_replaced s;
     trades := trades s; other_messages := other_messages s;
     unknown_messages := unknown_messages s |}.
Definition incr_order_replaced (s : Stats) : Stats :=
  {| total_messages := total_messages s; add_orders := add_orders s;
     order_executed := order_executed s; order_deleted := order_deleted s;
     order_cancelled := order_cancelled s;
     order_replaced := u64 (order_replaced s + 1);
     trades := trades s; other_messages := other_messages s;
     unknown_messages := unknown_messages s |}.
Definition incr_trades (s : Stats) : Stats :=
  {| total_messages := total_messages s; add_orders := add_orders s;
     order_executed := order_executed s; order_deleted := order_deleted s;
     order_cancelled := order_cancelled s; order_replaced := order_replaced s;
     trades := u64 (trades s + 1); other_messages := other_messages s;
     unknown_messages := unknown_messages s |}.
Definition incr_other_messages (s : Stats) : Stats :=
  {| total_messages := total_messages s; add_orders := add_orders s;
     order_executed := order_executed s; order_deleted := order_deleted s;
     order_cancelled := order_cancelled s; order_replaced := order_replaced s;
     trades := trades s; other_messages := u64 (other_messages s + 1);
     unknown_messages := unknown_messages s |}.
Definition incr_unknown_messages (s : Stats) : Stats :=
  {| total_messages := total_messages s; add_orders := add_orders s;
     order_executed := order_executed s; order_deleted := order_deleted s;
     order_cancelled := order_cancelled s; order_replaced := order_replaced s;
     trades := trades s; other_messages := other_messages s;
     unknown_messages := u64 (unknown_messages s + 1) |}.

(** A [std::function] slot is modelled by whether it holds a target; what
    the target does is observed through the trace of invocations. *)
Record Parser := {
  add_order_cb_ : bool;
  add_order_mpid_cb_ : bool;
  order_executed_cb_ : bool;
  order_executed_with_price_cb_ : bool;
  order_cancel_cb_ : bool;
  order_delete_cb_ : bool;
  order_replace_cb_ : bool;
  trade_cb_ : bool;
  stats_ : Stats
}.

(** [Parser() = default]: empty callbacks, zero statistics. *)
Definition Parser_new : Parser :=
  {| add_order_cb_ := false; add_order_mpid_cb_ := false;
     order_executed_cb_ := false; order_executed_with_price_cb_ := false;
     order_cancel_cb_ := false; order_delete_cb_ := false;
     order_replace_cb_ := false; trade_cb_ := false; stats_ := Stats_zero |}.

Definition with_stats (p : Parser) (f : Stats -> Stats) : Parser :=
  {| add_order_cb_ := add_order_cb_ p;
     add_order_mpid_cb_ := add_order_mpid_cb_ p;
     order_executed_cb_ := order_executed_cb_ p;
     order_executed_with_price_cb_ := order_executed_with_price_cb_ p;
     order_cancel_cb_ := order_cancel_cb_ p;
     order_delete_cb_ := order_delete_cb_ p;
     order_replace_cb_ := order_replace_cb_ p;
     trade_cb_ := trade_cb_ p;
     stats_ := f (stats_ p) |}.

(** One constructor per callback type: the arguments of the call.  The
    message pointer is the struct view of the buffer. *)
Inductive Callback :=
| AddOrderCallback (msg : list byte) (ts price qty : Z)
| AddOrderMPIDCallback (msg : list byte) (ts price qty : Z)
| OrderExecutedCallback (msg : list byte) (ts : Z)
| OrderExecutedWithPriceCallback (msg : list byte) (ts price : Z)
| OrderCancelCallback (msg : list byte) (ts : Z)
| OrderDeleteCallback (msg : list byte) (ts : Z)
| OrderReplaceCallback (msg : list byte) (ts price qty : Z)
| TradeCallback (msg : list byte) (ts price qty : Z).

(** [static_cast<Price>(itch_price) * 100] *)
Definition convert_price (itch_price : Z) : Z := s64 (itch_price * 100).

Definition parse_add_order (p : Parser) (msg : list byte)
  : Parser * list Callback :=
  let p := with_stats p incr_add_orders in
  if add_order_cb_ p then
    let ts := read_be48 (msg_timestamp msg) in
    let price := convert_price (ntoh32 (AddOrder_price msg)) in
    let qty := ntoh32 (AddOrder_shares msg) in
    (p, [AddOrderCallback msg ts price qty])
  else (p, []).

Definition parse_add_order_mpid (p : Parser) (msg : list byte)
  : Parser * list Callback :=
  let p := with_stats p incr_add_orders in
  if add_order_mpid_cb_ p then
    let ts := read_be48 (msg_timestamp msg) in
    let price := convert_price (ntoh32 (AddOrder_price msg)) in
    let qty := ntoh32 (AddOrder_shares msg) in
    (p, [AddOrderMPIDCallback msg ts price qty])
  else (p, []).

Definition parse_order_executed (p : Parser) (msg : list byte)
  : Parser * list Callback :=
  let p := with_stats p incr_order_executed in
  if order_executed_cb_ p then
    let ts := read_be48 (msg_timestamp msg) in
    (p, [OrderExecutedCallback msg ts])
  else (p, []).

Definition parse_order_executed_with_price (p : Parser) (msg : list byte)
  : Parser * list Callback :=
  let p := with_stats p incr_order_executed in
  if order_executed_with_price_cb_ p then
    let ts := read_be48 (msg_timestamp msg) in
    let price :=
      convert_price (ntoh32 (OrderExecutedWithPrice_execution_price msg)) in
    (p, [OrderExecutedWithPriceCallback msg ts price])
  else (p, []).

Definition parse_order_cancel (p : Parser) (msg : list byte)
  : Parser * list Callback :=
  let p := with_stats p incr_order_cancelled in
  if order_cancel_cb_ p then
    let ts := read_be48 (msg_timestamp msg) in
    (p, [OrderCancelCallback msg ts])
  else (p, []).

Definition parse_order_delete (p : Parser) (msg : list byte)
  : Parser * list Callback :=
  let p := with_stats p incr_order_deleted in
  if order_delete_cb_ p then
    let ts := read_be48 (msg_timestamp msg) in
    (p, [OrderDeleteCallback msg ts])
  else (p, []).

Definition parse_order_replace (p : Parser) (msg : list byte)
  : Parser * list Callback :=
  let p := with_stats p incr_order_replaced in
  if order_replace_cb_ p then
    let ts := read_be48 (msg_timestamp msg) in
    let price := convert_price (ntoh32 (OrderReplace_price msg)) in
    let qty := ntoh32 (OrderReplace_shares msg) in
    (p, [OrderReplaceCallback msg ts price qty])
  else (p, []).

Definition parse_trade (p : Parser) (msg : list byte)
  : Parser * list Callback :=
  let p := with_stats p incr_trades in
  if trade_cb_ p then
    let ts := read_be48 (msg_timestamp msg) in
    let price := convert_price (ntoh32 (Trade_price msg)) in
    let qty := ntoh32 (Trade_shares msg) in
    (p, [TradeCallback msg ts price qty])
  else (p, []).

(** What [parse_message] yields: the [size_t] it returns, the parser
    afterwards, and the callbacks it invoked, in order. *)
Record ParseResult := {
  consumed : Z;
  parser_after : Parser;
  callbacks : list Callback
}.

(** The [switch (msg_type)] of [parse_message], after both early returns. *)
Definition dispatch (p : Parser) (msg_type : byte) (data : list byte)
  : Parser * list Callback :=
  match msg_type with
  | "A"%byte => parse_add_order p (take (Z.to_nat (sizeof AddOrder)) data)
  | "F"%byte =>
      parse_add_order_mpid p (take (Z.to_nat (sizeof AddOrderMPID)) data)
  | "E"%byte =>
      parse_order_executed p (take (Z.to_nat (sizeof OrderExecuted)) data)
  | "C"%byte =>
      parse_order_executed_with_price p
        (take (Z.to_nat (sizeof OrderExecutedWithPrice)) data)
  | "X"%byte => parse_order_cancel p (take (Z.to_nat (sizeof OrderCancel)) data)
  | "D"%byte => parse_order_delete p (take (Z.to_nat (sizeof OrderDelete)) data)
  | "U"%byte =>
      parse_order_replace p (take (Z.to_nat (sizeof OrderReplace)) data)
  | "P"%byte => parse_trade p (take (Z.to_nat (sizeof Trade)) data)
  | "S"%byte | "R"%byte | "H"%byte | "Y"%byte | "L"%byte | "V"%byte
  | "W"%byte | "K"%byte | "J"%byte | "h"%byte | "Q"%byte | "B"%byte
  | "I"%byte | "N"%byte =>
      (with_stats p incr_other_messages, [])
  | _ => (with_stats p incr_unknown_messages, [])
  end.

(** [parse_message(data, len)] with [len] the length of [data]. *)
Definition parse_message (p : Parser) (data : list byte) : ParseResult :=
  let len := Z.of_nat (length data) in
  if len <? 1 then {| consumed := 0; parser_after := p; callbacks := [] |}
  else
    let msg_type := nth 0 data x00 in
    let expected_size := get_message_size msg_type in
    if expected_size =? 0 then
      {| consumed := 0; parser_after := p; callbacks := [] |}
    else if len <? expected_size then
      {| consumed := 0; parser_after := p; callbacks := [] |}
    else
      let '(p1, cbs) := dispatch p msg_type data in
      {| consumed := expected_size;
         parser_after := with_stats p1 incr_total_messages;
         callbacks := cbs |}.

(** [normalize_add_order] *)
Definition normalize_add_order (msg : list byte) : NormalizedMessage :=
  {| type := MT_AddOrder;
     timestamp := read_be48 (msg_timestamp msg);
     order_ref := ntoh64 (AddOrder_order_reference_number msg);
     stock := AddOrder_stock msg;
     side := if Byte.eqb (AddOrder_buy_sell_indicator msg) "B"%byte
             then Buy else Sell;
     price := convert_price (ntoh32 (AddOrder_price msg));
     quantity := ntoh32 (AddOrder_shares msg);
     executed_quantity := 0;
     new_order_ref := 0 |}.

(** *** The message-kind table of the specification

    First-byte code and exact size in bytes, as section 4.2 of the
    specification lists them; [get_message_size] above is the code's own
    table. *)
Definition kind_table : list (byte * Z) :=
  [("S"%byte, 12); ("R"%byte, 39); ("H"%byte, 25); ("Y"%byte, 20);
   ("L"%byte, 26); ("V"%byte, 35); ("W"%byte, 12); ("K"%byte, 28);
   ("J"%byte, 35); ("h"%byte, 21); ("A"%byte, 36); ("F"%byte, 40);
   ("E"%byte, 31); ("C"%byte, 36); ("X"%byte, 23); ("D"%byte, 19);
   ("U"%byte, 35); ("P"%byte, 44); ("Q"%byte, 40); ("B"%byte, 19);
   ("I"%byte, 50); ("N"%byte, 20)].

Definition in_kind_table (c : byte) : Prop := exists S_K, In (c, S_K) kind_table.

(** *** tests/test_parser.cpp: building messages *)

(** [set_timestamp(ts, value)] *)
Definition set_timestamp (value : Z) : list byte :=
  [byte_of_Z (Z.land (Z.shiftr value 40) 0xFF);
   byte_of_Z (Z.land (Z.shiftr value 32) 0xFF);
   byte_of_Z (Z.land (Z.shiftr value 24) 0xFF);
   byte_of_Z (Z.land (Z.shiftr value 16) 0xFF);
   byte_of_Z (Z.land (Z.shiftr value 8) 0xFF);
   byte_of_Z (Z.land value 0xFF)].

(** An [AddOrder] struct filled in as the tests do, field by field through
    [hton], seen as its 36 bytes of memory.  [stock] is the 8-character
    symbol copied by [memcpy]. *)
Definition build_add_order (stock_locate tracking_number ts order_ref : Z)
    (buy_sell_indicator : byte) (shares : Z) (stock : list byte) (price : Z)
  : list byte :=
  ["A"%byte]
  ++ store_le 2 (hton16 stock_locate)
  ++ store_le 2 (hton16 tracking_number)
  ++ set_timestamp ts
  ++ store_le 8 (hton64 order_ref)
  ++ [buy_sell_indicator]
  ++ store_le 4 (hton32 shares)
  ++ take 8 (stock ++ repeat x00 8)
  ++ store_le 4 (hton32 price).

Definition MSFT : list byte :=
  ["M"; "S"; "F"; "T"; " "; " "; " "; " "]%byte.

End Itch5.

(** ** include/spsc/ring_buffer.hpp

    The sequential behaviour of the ring: one call of [try_push] or
    [try_pop] at a time, which is what the single producer and the single
    consumer each see of their own operations. *)

Module Spsc.
Section RingBuffer.
Context {T : Type}.
(** [template <typename T, size_t Capacity>], and the value [T{}]. *)
Variable Capacity : Z.
Variable T_default : T.

Record RingBuffer := {
  buffer_ : list T;       (* std::array<T, Capacity> *)
  head_ : Z;              (* std::atomic<size_t>, written by the producer *)
  tail_ : Z               (* std::atomic<size_t>, written by the consumer *)
}.

(** The constructor: indices zero, every slot [T{}]. *)
Definition RingBuffer_new : RingBuffer :=
  {| buffer_ := repeat T_default (Z.to_nat Capacity); head_ := 0; tail_ := 0 |}.

Definition increment (index : Z) : Z := Z.land (index + 1) (Capacity - 1).

(** [buffer_[i]]; every index the ring uses is below [Capacity]
    ([ring_inv] below), where the array access is defined. *)
Definition slot (rb : RingBuffer) (i : Z) : T :=
  nth (Z.to_nat i) (buffer_ rb) T_default.

Definition try_push (item : T) (rb : RingBuffer) : bool * RingBuffer :=
  let current_head := head_ rb in
  let next_head := increment current_head in
  if next_head =? tail_ rb then (false, rb)
  else
    (true, {| buffer_ := <[Z.to_nat current_head := item]> (buffer_ rb);
              head_ := next_head;
              tail_ := tail_ rb |}).

Definition try_pop (rb : RingBuffer) : option T * RingBuffer :=
  let current_tail := tail_ rb in
  if current_tail =? head_ rb then (None, rb)
  else
    let item := slot rb current_tail in
    (Some item, {| buffer_ := buffer_ rb;
                   head_ := head_ rb;
                   tail_ := increment current_tail |}).

Definition peek (rb : RingBuffer) : option T :=
  let current_tail := tail_ rb in
  if current_tail =? head_ rb then None else Some (slot rb current_tail).

Definition empty (rb : RingBuffer) : bool := head_ rb =? tail_ rb.

Definition full (rb : RingBuffer) : bool := increment (head_ rb) =? tail_ rb.

Definition size (rb : RingBuffer) : Z :=
  let head := head_ rb in
  let tail := tail_ rb in
  if head >=? tail then head - tail else Capacity - tail + head.

Definition available (rb : RingBuffer) : Z := Capacity - size rb - 1.

(** [BatchRingBuffer::try_push_batch]: push until the first failure,
    return how many went in. *)
Fixpoint try_push_batch (items : list T) (rb : RingBuffer) : Z * RingBuffer :=
  match items with
  | [] => (0, rb)
  | item :: rest =>
      let '(ok, rb1) := try_push item rb in
      if ok then
        let '(pushed, rb2) := try_push_batch rest rb1 in (1 + pushed, rb2)
      else (0, rb)
  end.

(** [BatchRingBuffer::try_pop_batch], for at most [max_count] items. *)
Fixpoint try_pop_batch (max_count : nat) (rb : RingBuffer) : list T * RingBuffer :=
  match max_count with
  | O => ([], rb)
  | S n =>
      match try_pop rb with
      | (Some item, rb1) =>
          let '(items, rb2) := try_pop_batch n rb1 in (item :: items, rb2)
      | (None, _) => ([], rb)
      end
  end.

(** One operation of the producer or of the consumer. *)
Inductive op := Push (item : T) | Pop.

Definition run_op (o : op) (rb : RingBuffer) : RingBuffer :=
  match o with
  | Push item => snd (try_push item rb)
  | Pop => snd (try_pop rb)
  end.

(** The states of a ring: the constructed one and whatever a sequence of
    operations makes of it. *)
Inductive reachable : RingBuffer -> Prop :=
| reachable_new : reachable RingBuffer_new
| reachable_op o rb : reachable rb -> reachable (run_op o rb).

(** The records that are live in the ring, oldest first: the [size()]
    slots from [tail_] on, stepping as the consumer does. *)
Fixpoint read_from (buffer : list T) (index : Z) (n : nat) : list T :=
  match n with
  | O => []
  | S n' =>
      nth (Z.to_nat index) buffer T_default
        :: read_from buffer (increment index) n'
  end.

Definition contents (rb : RingBuffer) : list T :=
  read_from (buffer_ rb) (tail_ rb) (Z.to_nat (size rb)).

(** The distance from index [from] up to index [to], going round the
    ring; [size()] is the distance from [tail_] to [head_]. *)
Definition span (from to : Z) : Z :=
  if to >=? from then to - from else Capacity - from + to.

(** Storage of [Capacity] slots, both indices inside it. *)
Definition ring_inv (rb : RingBuffer) : Prop :=
  length (buffer_ rb) = Z.to_nat Capacity /\
  0 <= head_ rb < Capacity /\ 0 <= tail_ rb < Capacity.

End RingBuffer.

(** The ring of scenario S5, [RingBuffer<uint64_t, 8>]. *)
Definition ring8 : @RingBuffer Z := RingBuffer_new 8 0.

End Spsc.

(** ** include/moldudp64/header.hpp *)

Module Moldudp64.
Import Endian.

Record Header := {
  session : list byte;        (* char session[10] *)
  sequence_number : Z;        (* uint64_t *)
  message_count : Z           (* uint16_t *)
}.

Definition sizeof_Header : Z := 20.
Definition sizeof_MessageBlock : Z := 2.

Definition HEARTBEAT_SEQUENCE : Z := 0.
Definition END_OF_SESSION : Z := 0xFFFFFFFFFFFFFFFF.

(** [HeaderParser::parse]: [None] is the [false] return. *)
Definition parse (data : list byte) : option Header :=
  let len := Z.of_nat (length data) in
  if len <? sizeof_Header then None
  else Some {| session := take 10 data;
               sequence_number := read_be64 (drop 10 data);
               message_count := read_be16 (drop 18 data) |}.

Definition is_heartbeat (header : Header) : bool :=
  (sequence_number header =? HEARTBEAT_SEQUENCE) && (message_count header =? 0).

Definition is_end_of_session (header : Header) : bool :=
  sequence_number header =? END_OF_SESSION.

Definition get_messages_offset : Z := sizeof_Header.

Definition read_message_length (data : list byte) : Z := read_be16 data.

(** [std::memcmp] over the first [n] bytes: zero when they agree, else the
    difference of the first pair that differs. *)
Fixpoint memcmp (a b : list byte) (n : nat) : Z :=
  match n, a, b with
  | S n', x :: a', y :: b' =>
      if byte_to_Z x =? byte_to_Z y then memcmp a' b' n'
      else byte_to_Z x - byte_to_Z y
  | _, _, _ => 0
  end.

(** ** include/moldudp64/session.hpp *)

Record Gap := {
  start : Z;            (* first missing sequence number *)
  end_ : Z;             (* last missing sequence number (inclusive) *)
  detected_at_ns : Z
}.

Inductive SessionState := Unknown | Active | Stale | EndOfSession | Error.

Definition SessionState_eqb (a b : SessionState) : bool :=
  match a, b with
  | Unknown, Unknown | Active, Active | Stale, Stale
  | EndOfSession, EndOfSession | Error, Error => true
  | _, _ => false
  end.

(** The two [std::function] members are modelled by whether a target is
    installed; their invocations are the [Event]s a call emits. *)
Record Session := {
  session_id_ : list byte;        (* std::array<char, 10> *)
  expected_sequence_ : Z;
  state_ : SessionState;
  pending_gaps_ : list Gap;       (* std::vector<Gap> *)
  packets_received_ : Z;
  messages_received_ : Z;
  gaps_detected_ : Z;
  heartbeats_received_ : Z;
  gap_callback_ : bool;
  message_callback_ : bool
}.

Inductive Event :=
| GapCallback (gap : Gap)
| MessageCallback (data : list byte) (length : Z) (seq : Z).

(** [explicit Session(std::array<char, 10> session_id = {})] *)
Definition Session_new (session_id : list byte) : Session :=
  {| session_id_ := session_id; expected_sequence_ := 1; state_ := Unknown;
     pending_gaps_ := []; packets_received_ := 0; messages_received_ := 0;
     gaps_detected_ := 0; heartbeats_received_ := 0;
     gap_callback_ := false; message_callback_ := false |}.

(** [Session session;]: the default argument is ten zero bytes. *)
Definition Session_default : Session := Session_new (repeat x00 10).

(** Assignments to single members. *)
Definition with_session_id (s : Session) (v : list byte) : Session :=
  {| session_id_ := v; expected_sequence_ := expected_sequence_ s;
     state_ := state_ s; pending_gaps_ := pending_gaps_ s;
     packets_received_ := packets_received_ s;
     messages_received_ := messages_received_ s;
     gaps_detected_ := gaps_detected_ s;
     heartbeats_received_ := heartbeats_received_ s;
     gap_callback_ := gap_callback_ s;
     message_callback_ := message_callback_ s |}.
Definition with_expected_sequence (s : Session) (v : Z) : Session :=
  {| session_id_ := session_id_ s; expected_sequence_ := v;
     state_ := state_ s; pending_gaps_ := pending_gaps_ s;
     packets_received_ := packets_received_ s;
     messages_received_ := messages_received_ s;
     gaps_detected_ := gaps_detected_ s;
     heartbeats_received_ := heartbeats_received_ s;
     gap_callback_ := gap_callback_ s;
     message_callback_ := message_callback_ s |}.
Definition with_state (s : Session) (v : SessionState) : Session :=
  {| session_id_ := session_id_ s; expected_sequence_ := expected_sequence_ s;
     state_ := v; pending_gaps_ := pending_gaps_ s;
     packets_received_ := packets_received_ s;
     messages_received_ := messages_received_ s;
     gaps_detected_ := gaps_detected_ s;
     heartbeats_received_ := heartbeats_received_ s;
     gap_callback_ := gap_callback_ s;
     message_callback_ := message_callback_ s |}.
Definition with_pending_gaps (s : Session) (v : list Gap) : Session :=
  {| session_id_ := session_id_ s; expected_sequence_ := expected_sequence_ s;
     state_ := state_ s; pending_gaps_ := v;
     packets_received_ := packets_received_ s;
     messages_received_ := messages_received_ s;
     gaps_detected_ := gaps_detected_ s;
     heartbeats_received_ := heartbeats_received_ s;
     gap_callback_ := gap_callback_ s;
     message_callback_ := message_callback_ s |}.
Definition with_packets_received (s : Session) (v : Z) : Session :=
  {| session_id_ := session_id_ s; expected_sequence_ := expected_sequence_ s;
     state_ := state_ s; pending_gaps_ := pending_gaps_ s;
     packets_received_ := v;
     messages_received_ := messages_received_ s;
     gaps_detected_ := gaps_detected_ s;
     heartbeats_received_ := heartbeats_received_ s;
     gap_callback_ := gap_callback_ s;
     message_callback_ := message_callback_ s |}.
Definition with_messages_received (s : Session) (v : Z) : Session :=
  {| session_id_ := session_id_ s; expected_sequence_ := expected_sequence_ s;
     state_ := state_ s; pending_gaps_ := pending_gaps_ s;
     packets_received_ := packets_received_ s;
     messages_received_ := v;
     gaps_detected_ := gaps_detected_ s;
     heartbeats_received_ := heartbeats_received_ s;
     gap_callback_ := gap_callback_ s;
     message_callback_ := message_callback_ s |}.
Definition with_gaps_detected (s : Session) (v : Z) : Session :=
  {| session_id_ := session_id_ s; expected_sequence_ := expected_sequence_ s;
     state_ := state_ s; pending_gaps_ := pending_gaps_ s;
     packets_received_ := packets_received_ s;
     messages_received_ := messages_received_ s;
     gaps_detected_ := v;
     heartbeats_received_ := heartbeats_received_ s;
     gap_callback_ := gap_callback_ s;
     message_callback_ := message_callback_ s |}.
Definition with_heartbeats_received (s : Session) (v : Z) : Session :=
  {| session_id_ := session_id_ s; expected_sequence_ := expected_sequence_ s;
     state_ := state_ s; pending_gaps_ := pending_gaps_ s;
     packets_received_ := packets_received_ s;
     messages_received_ := messages_received_ s;
     gaps_detected_ := gaps_detected_ s;
     heartbeats_received_ := v;
     gap_callback_ := gap_callback_ s;
     message_callback_ := message_callback_ s |}.

(** [set_gap_callback(cb)], [set_message_callback(cb)]: [installed] tells
    whether [cb] holds a target. *)
Definition set_gap_callback (s : Session) (installed : bool) : Session :=
  {| session_id_ := session_id_ s; expected_sequence_ := expected_sequence_ s;
     state_ := state_ s; pending_gaps_ := pending_gaps_ s;
     packets_received_ := packets_received_ s;
     messages_received_ := messages_received_ s;
     gaps_detected_ := gaps_detected_ s;
     heartbeats_received_ := heartbeats_received_ s;
     gap_callback_ := installed;
     message_callback_ := message_callback_ s |}.
Definition set_message_callback (s : Session) (installed : bool) : Session :=
  {| session_id_ := session_id_ s; expected_sequence_ := expected_sequence_ s;
     state_ := state_ s; pending_gaps_ := pending_gaps_ s;
     packets_received_ := packets_received_ s;
     messages_received_ := messages_received_ s;
     gaps_detected_ := gaps_detected_ s;
     heartbeats_received_ := heartbeats_received_ s;
     gap_callback_ := gap_callback_ s;
     message_callback_ := installed |}.

Definition get_state (s : Session) : SessionState := state_ s.
Definition get_expected_sequence (s : Session) : Z := expected_sequence_ s.
Definition get_pending_gaps (s : Session) : list Gap := pending_gaps_ s.

Definition vector_empty {A} (v : list A) : bool :=
  match v with [] => true | _ => false end.

Definition has_gaps (s : Session) : bool := negb (vector_empty (pending_gaps_ s)).

Definition is_healthy (s : Session) : bool :=
  SessionState_eqb (state_ s) Active && vector_empty (pending_gaps_ s).

Definition reset (s : Session) : Session :=
  {| session_id_ := session_id_ s; expected_sequence_ := 1;
     state_ := Unknown; pending_gaps_ := [];
     packets_received_ := 0; messages_received_ := 0;
     gaps_detected_ := 0; heartbeats_received_ := 0;
     gap_callback_ := gap_callback_ s;
     message_callback_ := message_callback_ s |}.

(** [check_gap_fill(start, end)]: the walk over [pending_gaps_] with
    [erase]; the result is the vector afterwards. *)
Fixpoint check_gap_fill (start_ end' : Z) (gaps : list Gap) : list Gap :=
  match gaps with
  | [] => []
  | it :: rest =>
      if (start_ <=? start it) && (end' >=? end_ it) then
        check_gap_fill start_ end' rest
      else if (start_ <=? start it) && (end' >=? start it) then
        let it' := {| start := u64 (end' + 1); end_ := end_ it;
                      detected_at_ns := detected_at_ns it |} in
        if start it' >? end_ it' then check_gap_fill start_ end' rest
        else it' :: check_gap_fill start_ end' rest
      else if (start_ <=? end_ it) && (end' >=? end_ it) then
        let it' := {| start := start it; end_ := u64 (start_ - 1);
                      detected_at_ns := detected_at_ns it |} in
        if start it' >? end_ it' then check_gap_fill start_ end' rest
        else it' :: check_gap_fill start_ end' rest
      else it :: check_gap_fill start_ end' rest
  end.

(** The [for] loop of [process_packet] over the message blocks, with [n]
    iterations left; yields the message callbacks made and
    [messages_received_] afterwards.  Offsets are [size_t] values bounded by
    the buffer length plus a block, far from wrapping. *)
Fixpoint dispatch_messages (data : list byte) (len : Z) (n : nat)
    (offset current_seq received : Z) : list Event * Z :=
  match n with
  | O => ([], received)
  | S n' =>
      if offset + sizeof_MessageBlock >? len then ([], received)
      else
        let msg_len := read_message_length (drop (Z.to_nat offset) data) in
        let offset := offset + sizeof_MessageBlock in
        if offset + msg_len >? len then ([], received)
        else
          let ev := MessageCallback
                      (take (Z.to_nat msg_len) (drop (Z.to_nat offset) data))
                      msg_len current_seq in
          let '(evs, received') :=
            dispatch_messages data len n' (offset + msg_len)
              (u64 (current_seq + 1)) (u64 (received + 1)) in
          (ev :: evs, received')
  end.

(** What a call of [process_packet] yields: its return value, the session
    afterwards and the callbacks invoked, in order. *)
Record Outcome := {
  result : bool;
  session_after : Session;
  events : list Event
}.

Definition process_packet (s0 : Session) (data : list byte) : Outcome :=
  let len := Z.of_nat (length data) in
  match parse data with
  | None => {| result := false; session_after := s0; events := [] |}
  | Some header =>
    let s1 := with_packets_received s0 (u64 (packets_received_ s0 + 1)) in
    (* Check session ID (first packet establishes it) *)
    let checked :=
      if SessionState_eqb (state_ s1) Unknown then
        Some (with_state (with_session_id s1 (session header)) Active)
      else if negb (memcmp (session_id_ s1) (session header) 10 =? 0) then None
      else Some s1 in
    match checked with
    | None =>
      {| result := false; session_after := with_state s1 Error; events := [] |}
    | Some s2 =>
      if is_heartbeat header then
        {| result := true;
           session_after :=
             with_heartbeats_received s2 (u64 (heartbeats_received_ s2 + 1));
           events := [] |}
      else if is_end_of_session header then
        {| result := true; session_after := with_state s2 EndOfSession;
           events := [] |}
      else
        (* Check for gaps *)
        let '(s3, gap_events) :=
          if sequence_number header >? expected_sequence_ s2 then
            let gap := {| start := expected_sequence_ s2;
                          end_ := u64 (sequence_number header - 1);
                          detected_at_ns := 0 |} in
            (with_state
               (with_gaps_detected
                  (with_pending_gaps s2 (pending_gaps_ s2 ++ [gap]))
                  (u64 (gaps_detected_ s2 + 1)))
               Stale,
             if gap_callback_ s2 then [GapCallback gap] else [])
          else if sequence_number header <? expected_sequence_ s2 then
            (with_pending_gaps s2
               (check_gap_fill (sequence_number header)
                  (u64 (sequence_number header + message_count header - 1))
                  (pending_gaps_ s2)),
             [])
          else (s2, []) in
        (* Process messages in the packet *)
        let '(message_events, received) :=
          if message_callback_ s3 then
            dispatch_messages data len (Z.to_nat (message_count header))
              get_messages_offset (sequence_number header)
              (messages_received_ s3)
          else ([], u64 (messages_received_ s3 + message_count header)) in
        let s4 := with_messages_received s3 received in
        (* Update expected sequence number *)
        let next_expected :=
          u64 (sequence_number header + message_count header) in
        let s5 := if next_expected >? expected_sequence_ s4
                  then with_expected_sequence s4 next_expected else s4 in
        (* Check if all gaps are filled *)
        let s6 := if SessionState_eqb (state_ s5) Stale
                     && vector_empty (pending_gaps_ s5)
                  then with_state s5 Active else s5 in
        {| result := true; session_after := s6;
           events := gap_events ++ message_events |}
    end
  end.

(** Feeding packets one after the other. *)
Definition run (s : Session) (packets : list (list byte)) : Session :=
  fold_left (fun s p => session_after (process_packet s p)) packets s.

(** The states a decoder can be in: a constructed one, and whatever calls
    of [process_packet] and of the callback setters make of it. *)
Inductive reachable : Session -> Prop :=
| reachable_new session_id : reachable (Session_new session_id)
| reachable_packet s data :
    reachable s -> reachable (session_after (process_packet s data))
| reachable_gap_cb s b : reachable s -> reachable (set_gap_callback s b)
| reachable_message_cb s b : reachable s -> reachable (set_message_callback s b).

(** *** tests/test_moldudp64.cpp: the packet builder *)

(** One message behind its 2-byte big-endian length, as
    [create_moldudp_packet] pushes it. *)
Definition message_block (msg : list byte) : list byte :=
  let len := u16 (Z.of_nat (length msg)) in
  byte_of_Z (Z.land (Z.shiftr len 8) 0xFF) :: byte_of_Z (Z.land len 0xFF) :: msg.

Definition create_moldudp_packet (session_id : list byte)
    (sequence_number message_count : Z) (messages : list (list byte))
  : list byte :=
  take 10 (session_id ++ repeat " "%byte 10)
  ++ store_le 8 (hton64 sequence_number)
  ++ store_le 2 (hton16 message_count)
  ++ concat (map message_block messages).

(** The packets of the tests: session "NASDAQ", one three-byte message. *)
Definition NASDAQ : list byte := ["N"; "A"; "S"; "D"; "A"; "Q"]%byte.
Definition fake_message : list byte := ["A"%byte; x00; x01].

Definition heartbeat_packet : list byte := create_moldudp_packet NASDAQ 0 0 [].
Definition end_of_session_packet : list byte :=
  create_moldudp_packet NASDAQ END_OF_SESSION 0 [].
Definition packet_1 : list byte :=
  create_moldudp_packet NASDAQ 1 1 [fake_message].
Definition packet_5 : list byte :=
  create_moldudp_packet NASDAQ 5 1 [fake_message].

(** *** Notions used to state the properties of the decoder *)

(** The gap the decoder records when a packet numbered [seq] arrives while
    it expects [expected]. *)
Definition gap_before (expected seq : Z) : Gap :=
  {| start := expected; end_ := seq - 1; detected_at_ns := 0 |}.

(** The relation between the session state and the gap list that every
    call preserves: no gap is pending in states Unknown and Active, and
    some gap is pending in state Stale. *)
Definition gaps_inv (s : Session) : Prop :=
  (state_ s = Unknown \/ state_ s = Active -> pending_gaps_ s = []) /\
  (state_ s = Stale -> pending_gaps_ s <> []).

(** The ten bytes [create_moldudp_packet] writes for a session name. *)
Definition session_field (session_id : list byte) : list byte :=
  take 10 (session_id ++ repeat " "%byte 10).

(** The message callbacks for a run of messages numbered from [seq], one per
    message and in the order of the run. *)
Fixpoint messages_in_order (messages : list (list byte)) (seq : Z)
  : list Event :=
  match messages with
  | [] => []
  | msg :: rest =>
      MessageCallback msg (Z.of_nat (length msg)) seq
        :: messages_in_order rest (seq + 1)
  end.

(** A block cut short by the end of the packet: its length prefix is
    incomplete, or its body is shorter than the prefix says. *)
Definition truncated_block (tail : list byte) : Prop :=
  (length tail < 2)%nat \/
  exists hi lo body,
    tail = hi :: lo :: body /\
    Z.of_nat (length body) < 256 * byte_to_Z hi + byte_to_Z lo.

End Moldudp64.

(** ** include/dpdk/packet_handler.hpp: the parser callbacks *)

Module PacketHandler.
Import Endian Itch5.

(** [setup_parser_callbacks] installs six of the eight callbacks. *)
Definition setup_parser_callbacks (p : Parser) : Parser :=
  {| add_order_cb_ := true;
     add_order_mpid_cb_ := add_order_mpid_cb_ p;
     order_executed_cb_ := true;
     order_executed_with_price_cb_ := order_executed_with_price_cb_ p;
     order_cancel_cb_ := true;
     order_delete_cb_ := true;
     order_replace_cb_ := true;
     trade_cb_ := true;
     stats_ := stats_ p |}.

Definition side_of (buy_sell_indicator : byte) : Side :=
  if Byte.eqb buy_sell_indicator "B"%byte then Buy else Sell.

(** The record each installed lambda builds from the arguments of its
    call and hands to [push_message]; the two callback types the handler
    leaves empty build none. *)
Definition normalized (cb : Callback) : option NormalizedMessage :=
  match cb with
  | AddOrderCallback msg ts price' qty =>
      Some {| type := MT_AddOrder; timestamp := ts;
              order_ref := ntoh64 (AddOrder_order_reference_number msg);
              stock := AddOrder_stock msg;
              side := side_of (AddOrder_buy_sell_indicator msg);
              price := price'; quantity := qty;
              executed_quantity := 0; new_order_ref := 0 |}
  | OrderExecutedCallback msg ts =>
      Some {| type := MT_OrderExecuted; timestamp := ts;
              order_ref := ntoh64 (OrderExecuted_order_reference_number msg);
              stock := repeat x00 8; side := Buy; price := 0; quantity := 0;
              executed_quantity := ntoh32 (OrderExecuted_executed_shares msg);
              new_order_ref := 0 |}
  | OrderDeleteCallback msg ts =>
      Some {| type := MT_OrderDelete; timestamp := ts;
              order_ref := ntoh64 (OrderDelete_order_reference_number msg);
              stock := repeat x00 8; side := Buy; price := 0; quantity := 0;
              executed_quantity := 0; new_order_ref := 0 |}
  | OrderCancelCallback msg ts =>
      Some {| type := MT_OrderCancel; timestamp := ts;
              order_ref := ntoh64 (OrderCancel_order_reference_number msg);
              stock := repeat x00 8; side := Buy; price := 0;
              quantity := ntoh32 (OrderCancel_cancelled_shares msg);
              executed_quantity := 0; new_order_ref := 0 |}
  | OrderReplaceCallback msg ts price' qty =>
      Some {| type := MT_OrderReplace; timestamp := ts;
              order_ref :=
                ntoh64 (OrderReplace_original_order_reference_number msg);
              stock := repeat x00 8; side := Buy; price := price';
              quantity := qty; executed_quantity := 0;
              new_order_ref :=
                ntoh64 (OrderReplace_new_order_reference_number msg) |}
  | TradeCallback msg ts price' qty =>
      Some {| type := MT_Trade; timestamp := ts;
              order_ref := ntoh64 (Trade_order_reference_number msg);
              stock := Trade_stock msg;
              side := side_of (Trade_buy_sell_indicator msg);
              price := price'; quantity := qty;
              executed_quantity := 0; new_order_ref := 0 |}
  | AddOrderMPIDCallback _ _ _ _ | OrderExecutedWithPriceCallback _ _ _ => None
  end.

(** The records a run of callbacks hands to [push_message], in order. *)
Fixpoint records_of (cbs : list Callback) : list NormalizedMessage :=
  match cbs with
  | [] => []
  | cb :: rest =>
      match normalized cb with
      | Some record => record :: records_of rest
      | None => records_of rest
      end
  end.

(** [parse_itch_message]: run the parser; its callbacks build the records. *)
Definition parse_itch_message (p : Parser) (data : list byte)
  : Parser * list NormalizedMessage :=
  let r := parse_message p data in
  (parser_after r, records_of (callbacks r)).

End PacketHandler.

(** ** Runs of ring operations *)

Module SpscRuns.
Import Spsc.
Section Runs.
Context {T : Type}.
Variable Capacity : Z.
Variable T_default : T.

(** What a producer and a consumer see of a run of operations on the
    ring: the items whose [try_push] returned [true], the items
    [try_pop] returned, both in call order, and the ring at the end. *)
Record Trace := {
  accepted : list T;
  popped : list T;
  ring_after : @RingBuffer T
}.

Fixpoint run_ops (ops : list (@op T)) (rb : @RingBuffer T) : Trace :=
  match ops with
  | [] => {| accepted := []; popped := []; ring_after := rb |}
  | Push item :: rest =>
      let '(ok, rb1) := try_push Capacity item rb in
      let t := run_ops rest rb1 in
      {| accepted := if ok then item :: accepted t else accepted t;
         popped := popped t;
         ring_after := ring_after t |}
  | Pop :: rest =>
      let '(r, rb1) := try_pop Capacity T_default rb in
      let t := run_ops rest rb1 in
      {| accepted := accepted t;
         popped := match r with Some item => item :: popped t | None => popped t end;
         ring_after := ring_after t |}
  end.

(** The drain loop of the consumer,
    [while (auto msg = message_buffer_.try_pop()) ...], with the number of
    turns bounded by [fuel]; yields the items taken and the ring. *)
Fixpoint drain (fuel : nat) (rb : @RingBuffer T) : list T * @RingBuffer T :=
  match fuel with
  | O => ([], rb)
  | S n =>
      match try_pop Capacity T_default rb with
      | (Some item, rb1) =>
          let '(items, rb2) := drain n rb1 in (item :: items, rb2)
      | (None, _) => ([], rb)
      end
  end.

End Runs.

(** A run on a ring of capacity 8: five pushes and two pops. *)
Definition ops_example : list (@op Z) :=
  [Push 1; Push 2; Pop; Push 3; Push 4; Pop; Push 5].

End SpscRuns.

(** ** include/itch5/parser.hpp: the remaining members *)

Module ParserOps.
Import Endian Itch5.

(** [set_..._callback(cb)]: [installed] tells whether [cb] holds a
    target. *)
Definition set_add_order_callback (p : Parser) (installed : bool) : Parser :=
  {| add_order_cb_ := installed;
     add_order_mpid_cb_ := add_order_mpid_cb_ p;
     order_executed_cb_ := order_executed_cb_ p;
     order_executed_with_price_cb_ := order_executed_with_price_cb_ p;
     order_cancel_cb_ := order_cancel_cb_ p;
     order_delete_cb_ := order_delete_cb_ p;
     order_replace_cb_ := order_replace_cb_ p;
     trade_cb_ := trade_cb_ p; stats_ := stats_ p |}.
Definition set_add_order_mpid_callback (p : Parser) (installed : bool) : Parser :=
  {| add_order_cb_ := add_order_cb_ p;
     add_order_mpid_cb_ := installed;
     order_executed_cb_ := order_executed_cb_ p;
     order_executed_with_price_cb_ := order_executed_with_price_cb_ p;
     order_cancel_cb_ := order_cancel_cb_ p;
     order_delete_cb_ := order_delete_cb_ p;
     order_replace_cb_ := order_replace_cb_ p;
     trade_cb_ := trade_cb_ p; stats_ := stats_ p |}.
Definition set_order_executed_callback (p : Parser) (installed : bool) : Parser :=
  {| add_order_cb_ := add_order_cb_ p;
     add_order_mpid_cb_ := add_order_mpid_cb_ p;
     order_executed_cb_ := installed;
     order_executed_with_price_cb_ := order_executed_with_price_cb_ p;
     order_cancel_cb_ := order_cancel_cb_ p;
     order_delete_cb_ := order_delete_cb_ p;
     order_replace_cb_ := order_replace_cb_ p;
     trade_cb_ := trade_cb_ p; stats_ := stats_ p |}.
Definition set_order_executed_with_price_callback (p : Parser)
    (installed : bool) : Parser :=
  {| add_order_cb_ := add_order_cb_ p;
     add_order_mpid_cb_ := add_order_mpid_cb_ p;
     order_executed_cb_ := order_executed_cb_ p;
     order_executed_with_price_cb_ := installed;
     order_cancel_cb_ := order_cancel_cb_ p;
     order_delete_cb_ := order_delete_cb_ p;
     order_replace_cb_ := order_replace_cb_ p;
     trade_cb_ := trade_cb_ p; stats_ := stats_ p |}.
Definition set_order_cancel_callback (p : Parser) (installed : bool) : Parser :=
  {| add_order_cb_ := add_order_cb_ p;
     add_order_mpid_cb_ := add_order_mpid_cb_ p;
     order_executed_cb_ := order_executed_cb_ p;
     order_executed_with_price_cb_ := order_executed_with_price_cb_ p;
     order_cancel_cb_ := installed;
     order_delete_cb_ := order_delete_cb_ p;
     order_replace_cb_ := order_replace_cb_ p;
     trade_cb_ := trade_cb_ p; stats_ := stats_ p |}.
Definition set_order_delete_callback (p : Parser) (installed : bool) : Parser :=
  {| add_order_cb_ := add_order_cb_ p;
     add_order_mpid_cb_ := add_order_mpid_cb_ p;
     order_executed_cb_ := order_executed_cb_ p;
     order_executed_with_price_cb_ := order_executed_with_price_cb_ p;
     order_cancel_cb_ := order_cancel_cb_ p;
     order_delete_cb_ := installed;
     order_replace_cb_ := order_replace_cb_ p;
     trade_cb_ := trade_cb_ p; stats_ := stats_ p |}.
Definition set_order_replace_callback (p : Parser) (installed : bool) : Parser :=
  {| add_order_cb_ := add_order_cb_ p;
     add_order_mpid_cb_ := add_order_mpid_cb_ p;
     order_executed_cb_ := order_executed_cb_ p;
     order_executed_with_price_cb_ := order_executed_with_price_cb_ p;
     order_cancel_cb_ := order_cancel_cb_ p;
     order_delete_cb_ := order_delete_cb_ p;
     order_replace_cb_ := installed;
     trade_cb_ := trade_cb_ p; stats_ := stats_ p |}.
Definition set_trade_callback (p : Parser) (installed : bool) : Parser :=
  {| add_order_cb_ := add_order_cb_ p;
     add_order_mpid_cb_ := add_order_mpid_cb_ p;
     order_executed_cb_ := order_executed_cb_ p;
     order_executed_with_price_cb_ := order_executed_with_price_cb_ p;
     order_cancel_cb_ := order_cancel_cb_ p;
     order_delete_cb_ := order_delete_cb_ p;
     order_replace_cb_ := order_replace_cb_ p;
     trade_cb_ := installed; stats_ := stats_ p |}.

(** [get_stats()] and [reset_stats()] *)
Definition get_stats (p : Parser) : Stats := stats_ p.
Definition reset_stats (p : Parser) : Parser := with_stats p (fun _ => Stats_zero).

(** The calls a user of the parser can make. *)
Inductive call :=
| ParseMessage (data : list byte)
| ResetStats
| SetAddOrderCallback (installed : bool)
| SetAddOrderMPIDCallback (installed : bool)
| SetOrderExecutedCallback (installed : bool)
| SetOrderExecutedWithPriceCallback (installed : bool)
| SetOrderCancelCallback (installed : bool)
| SetOrderDeleteCallback (installed : bool)
| SetOrderReplaceCallback (installed : bool)
| SetTradeCallback (installed : bool).

Definition run_call (c : call) (p : Parser) : Parser :=
  match c with
  | ParseMessage data => parser_after (parse_message p data)
  | ResetStats => reset_stats p
  | SetAddOrderCallback b => set_add_order_callback p b
  | SetAddOrderMPIDCallback b => set_add_order_mpid_callback p b
  | SetOrderExecutedCallback b => set_order_executed_callback p b
  | SetOrderExecutedWithPriceCallback b =>
      set_order_executed_with_price_callback p b
  | SetOrderCancelCallback b => set_order_cancel_callback p b
  | SetOrderDeleteCallback b => set_order_delete_callback p b
  | SetOrderReplaceCallback b => set_order_replace_callback p b
  | SetTradeCallback b => set_trade_callback p b
  end.

(** The parsers a program can hold: a constructed one after any calls. *)
Inductive reachable : Parser -> Prop :=
| reachable_new : reachable Parser_new
| reachable_call c p : reachable p -> reachable (run_call c p).

(** The sum of the per-kind counters. *)
Definition kind_counters (s : Stats) : Z :=
  add_orders s + order_executed s + order_deleted s + order_cancelled s
  + order_replaced s + trades s + other_messages s.

(** The seven counters the [switch] of [parse_message] can reach. *)
Definition kind_increments : list (Stats -> Stats) :=
  [incr_add_orders; incr_order_executed; incr_order_deleted;
   incr_order_cancelled; incr_order_replaced; incr_trades;
   incr_other_messages].

(** The statistics of a parser stay consistent. *)
Definition stats_inv (s : Stats) : Prop :=
  total_messages s = u64 (kind_counters s) /\ unknown_messages s = 0.

(** *** tests/test_parser.cpp: the other messages the tests build *)

(** An [OrderExecuted] struct filled in as [test_parse_order_executed]
    does, seen as its 31 bytes of memory. *)
Definition build_order_executed
    (stock_locate tracking_number ts order_ref executed_shares match_number : Z)
  : list byte :=
  ["E"%byte]
  ++ store_le 2 (hton16 stock_locate)
  ++ store_le 2 (hton16 tracking_number)
  ++ set_timestamp ts
  ++ store_le 8 (hton64 order_ref)
  ++ store_le 4 (hton32 executed_shares)
  ++ store_le 8 (hton64 match_number).

(** An [OrderDelete] struct filled in as [test_parse_order_delete] does,
    seen as its 19 bytes of memory. *)
Definition build_order_delete (stock_locate tracking_number ts order_ref : Z)
  : list byte :=
  ["D"%byte]
  ++ store_le 2 (hton16 stock_locate)
  ++ store_le 2 (hton16 tracking_number)
  ++ set_timestamp ts
  ++ store_le 8 (hton64 order_ref).

End ParserOps.

(** ** More of include/moldudp64/session.hpp *)

Module SessionOps.
Import Endian Moldudp64.

(** The callbacks a decoder makes while packets are fed one after the
    other, in order. *)
Fixpoint run_events (s : Session) (packets : list (list byte)) : list Event :=
  match packets with
  | [] => []
  | p :: rest =>
      events (process_packet s p)
        ++ run_events (session_after (process_packet s p)) rest
  end.

Definition is_message_event (e : Event) : bool :=
  match e with MessageCallback _ _ _ => true | GapCallback _ => false end.

Definition is_gap_event (e : Event) : bool :=
  match e with GapCallback _ => true | MessageCallback _ _ _ => false end.

(** A packet long enough for [HeaderParser::parse]. *)
Definition has_header (data : list byte) : bool :=
  sizeof_Header <=? Z.of_nat (length data).

(** A packet whose last sequence number fits the 64-bit counter: the sum
    [sequence_number + message_count] does not wrap. *)
Definition no_wrap (data : list byte) : Prop :=
  match parse data with
  | Some header =>
      is_end_of_session header = true \/
      sequence_number header + message_count header < 2 ^ 64
  | None => True
  end.

(** Gaps that are non-empty ranges, in ascending order without overlap,
    between [lo] and [hi] (the latter excluded). *)
Fixpoint gaps_sorted (lo : Z) (gaps : list Gap) (hi : Z) : Prop :=
  match gaps with
  | [] => lo <= hi
  | gap :: rest =>
      lo <= start gap /\ start gap <= end_ gap /\
      gaps_sorted (end_ gap + 1) rest hi
  end.

(** A gap that is a non-empty range of 64-bit sequence numbers. *)
Definition well_formed (gap : Gap) : Prop :=
  0 <= start gap <= end_ gap /\ end_ gap < 2 ^ 64.

(** The sequence number [seq] is missing according to [gaps]. *)
Definition pending (gaps : list Gap) (seq : Z) : Prop :=
  Exists (fun gap => start gap <= seq <= end_ gap) gaps.

(** [seq], missing in [gap], is still missing once the range from [start_]
    to [end'] has arrived: it lies outside the range, or the range lies
    strictly inside the gap. *)
Definition survives (start_ end' : Z) (gap : Gap) (seq : Z) : Prop :=
  start gap <= seq <= end_ gap /\
  (seq < start_ \/ end' < seq \/ (start gap < start_ /\ end' < end_ gap)).

(** The [for] loop of [process_retransmission], with [n] iterations left.
    The loop reads the two bytes of a length prefix whenever
    [offset < len]; [None] stands for such a read that is not wholly
    inside the [len] bytes of the buffer. *)
Fixpoint retransmit_messages (data : list byte) (len : Z) (n : nat)
    (offset current_seq : Z) : option (list Event) :=
  match n with
  | O => Some []
  | S n' =>
      if offset <? len then
        if offset + sizeof_MessageBlock >? len then None
        else
          let msg_len := read_message_length (drop (Z.to_nat offset) data) in
          let offset := offset + sizeof_MessageBlock in
          if offset + msg_len >? len then Some []
          else
            let ev := MessageCallback
                        (take (Z.to_nat msg_len) (drop (Z.to_nat offset) data))
                        msg_len current_seq in
            match retransmit_messages data len n' (offset + msg_len)
                    (u64 (current_seq + 1)) with
            | Some evs => Some (ev :: evs)
            | None => None
            end
      else Some []
  end.

(** [process_retransmission(start_seq, data, len, message_count)]: the
    session afterwards and the callbacks made. *)
Definition process_retransmission (s0 : Session) (start_seq : Z)
    (data : list byte) (message_count : Z) : option (Session * list Event) :=
  let len := Z.of_nat (length data) in
  let s1 := with_pending_gaps s0
              (check_gap_fill start_seq (u64 (start_seq + message_count - 1))
                 (pending_gaps_ s0)) in
  let dispatched :=
    if message_callback_ s1 then
      retransmit_messages data len (Z.to_nat message_count) 0 start_seq
    else Some [] in
  match dispatched with
  | None => None
  | Some evs =>
      let s2 := if vector_empty (pending_gaps_ s1)
                then with_state s1 Active else s1 in
      Some (s2, evs)
  end.

(** [Session::get_stats]. *)
Record SessionStats := {
  stats_packets_received : Z;
  stats_messages_received : Z;
  stats_gaps_detected : Z;
  stats_heartbeats_received : Z
}.

Definition get_stats (s : Session) : SessionStats :=
  {| stats_packets_received := packets_received_ s;
     stats_messages_received := messages_received_ s;
     stats_gaps_detected := gaps_detected_ s;
     stats_heartbeats_received := heartbeats_received_ s |}.

(** [SessionManager]: [sessions_] is a [std::deque<Session>]; the reference
    [get_session] returns is the position of the session in it. *)
Definition SessionManager := list Session.

Definition get_session (sessions_ : SessionManager) (session_id : list byte)
  : SessionManager * nat :=
  let sessions_ :=
    if vector_empty sessions_ then sessions_ ++ [Session_new session_id]
    else sessions_ in
  (sessions_, (length sessions_ - 1)%nat).

Definition get_stale_sessions (sessions_ : SessionManager) : list nat :=
  map fst
    (List.filter (fun entry => SessionState_eqb (get_state (snd entry)) Stale)
       (imap (fun i s => (i, s)) sessions_)).

(** The managers a program can build: an empty one, then calls of
    [get_session], and packets given to a session through the reference
    [get_session] returned. *)
Inductive manager_reachable : SessionManager -> Prop :=
| manager_new : manager_reachable []
| manager_get sessions_ session_id :
    manager_reachable sessions_ ->
    manager_reachable (fst (get_session sessions_ session_id))
| manager_packet sessions_ i s data :
    manager_reachable sessions_ -> sessions_ !! i = Some s ->
    manager_reachable (<[i := session_after (process_packet s data)]> sessions_).

(** A stream of message blocks, as [create_moldudp_packet] lays them out
    behind the header. *)
Definition blocks (messages : list (list byte)) : list byte :=
  concat (map message_block messages).

End SessionOps.

(** ** include/dpdk/config.hpp and the packet path of
    include/dpdk/packet_handler.hpp *)

Module Dpdk.
Import Endian Itch5 Moldudp64 Spsc.

Module header_sizes.
Definition ETHERNET : Z := 14.
Definition IPV4 : Z := 20.
Definition IPV4_MAX : Z := 60.
Definition UDP : Z := 8.
Definition MOLDUDP64 : Z := 20.
Definition TOTAL_MIN : Z := ETHERNET + IPV4 + UDP + MOLDUDP64.
End header_sizes.

Definition sizeof_EthernetHeader : Z := 14.
Definition sizeof_IPv4Header : Z := 20.
Definition sizeof_UDPHeader : Z := 8.

Definition IP_PROTO_UDP : Z := 17.
Definition ETHER_TYPE_IPV4 : Z := 0x0800.

Definition u8 (z : Z) : Z := z mod 2 ^ 8.

(** Members of the packed headers, read from the bytes at the pointer. *)
Definition EthernetHeader_ether_type (eth : list byte) : Z :=
  load_le (take 2 (drop 12 eth)).
Definition IPv4Header_version_ihl (ip : list byte) : Z := byte_at ip 0.
Definition IPv4Header_protocol (ip : list byte) : Z := byte_at ip 9.

Definition get_ip_header_length (ip : list byte) : Z :=
  u8 (Z.land (IPv4Header_version_ihl ip) 0x0F * 4).

(** [MessageBuffer = spsc::RingBuffer<NormalizedMessage, 65536>] *)
Definition MessageBuffer_Capacity : Z := 65536.
Definition MessageBuffer : Type := @RingBuffer NormalizedMessage.

(** [NormalizedMessage()] *)
Definition NormalizedMessage_default : NormalizedMessage :=
  {| type := MT_Unknown; timestamp := 0; order_ref := 0;
     stock := repeat x00 8; side := Buy; price := 0; quantity := 0;
     executed_quantity := 0; new_order_ref := 0 |}.

(** The handler.  [output_buffer_] is a reference to a ring owned by the
    caller; the model carries the ring along. *)
Record PacketHandler := {
  output_buffer_ : MessageBuffer;
  parser_ : Parser;
  session_ : Session;
  running_ : bool;
  packets_processed_ : Z;
  bytes_processed_ : Z;
  invalid_packets_ : Z;
  messages_pushed_ : Z;
  buffer_full_count_ : Z
}.

(** The constructor: the parser callbacks and the message callback of the
    session are installed, the gap callback is not. *)
Definition PacketHandler_new (output_buffer : MessageBuffer) : PacketHandler :=
  {| output_buffer_ := output_buffer;
     parser_ := PacketHandler.setup_parser_callbacks Parser_new;
     session_ := set_message_callback Session_default true;
     running_ := false;
     packets_processed_ := 0; bytes_processed_ := 0; invalid_packets_ := 0;
     messages_pushed_ := 0; buffer_full_count_ := 0 |}.

Definition with_output_buffer (h : PacketHandler) (v : MessageBuffer)
  : PacketHandler :=
  {| output_buffer_ := v; parser_ := parser_ h; session_ := session_ h;
     running_ := running_ h; packets_processed_ := packets_processed_ h;
     bytes_processed_ := bytes_processed_ h;
     invalid_packets_ := invalid_packets_ h;
     messages_pushed_ := messages_pushed_ h;
     buffer_full_count_ := buffer_full_count_ h |}.
Definition with_parser (h : PacketHandler) (v : Parser) : PacketHandler :=
  {| output_buffer_ := output_buffer_ h; parser_ := v; session_ := session_ h;
     running_ := running_ h; packets_processed_ := packets_processed_ h;
     bytes_processed_ := bytes_processed_ h;
     invalid_packets_ := invalid_packets_ h;
     messages_pushed_ := messages_pushed_ h;
     buffer_full_count_ := buffer_full_count_ h |}.
Definition with_session (h : PacketHandler) (v : Session) : PacketHandler :=
  {| output_buffer_ := output_buffer_ h; parser_ := parser_ h; session_ := v;
     running_ := running_ h; packets_processed_ := packets_processed_ h;
     bytes_processed_ := bytes_processed_ h;
     invalid_packets_ := invalid_packets_ h;
     messages_pushed_ := messages_pushed_ h;
     buffer_full_count_ := buffer_full_count_ h |}.
Definition with_running (h : PacketHandler) (v : bool) : PacketHandler :=
  {| output_buffer_ := output_buffer_ h; parser_ := parser_ h;
     session_ := session_ h;
     running_ := v; packets_processed_ := packets_processed_ h;
     bytes_processed_ := bytes_processed_ h;
     invalid_packets_ := invalid_packets_ h;
     messages_pushed_ := messages_pushed_ h;
     buffer_full_count_ := buffer_full_count_ h |}.
Definition with_packets_processed (h : PacketHandler) (v : Z) : PacketHandler :=
  {| output_buffer_ := output_buffer_ h; parser_ := parser_ h;
     session_ := session_ h;
     running_ := running_ h; packets_processed_ := v;
     bytes_processed_ := bytes_processed_ h;
     invalid_packets_ := invalid_packets_ h;
     messages_pushed_ := messages_pushed_ h;
     buffer_full_count_ := buffer_full_count_ h |}.
Definition with_bytes_processed (h : PacketHandler) (v : Z) : PacketHandler :=
  {| output_buffer_ := output_buffer_ h; parser_ := parser_ h;
     session_ := session_ h;
     running_ := running_ h; packets_processed_ := packets_processed_ h;
     bytes_processed_ := v;
     invalid_packets_ := invalid_packets_ h;
     messages_pushed_ := messages_pushed_ h;
     buffer_full_count_ := buffer_full_count_ h |}.
Definition with_invalid_packets (h : PacketHandler) (v : Z) : PacketHandler :=
  {| output_buffer_ := output_buffer_ h; parser_ := parser_ h;
     session_ := session_ h;
     running_ := running_ h; packets_processed_ := packets_processed_ h;
     bytes_processed_ := bytes_processed_ h;
     invalid_packets_ := v;
     messages_pushed_ := messages_pushed_ h;
     buffer_full_count_ := buffer_full_count_ h |}.
Definition with_messages_pushed (h : PacketHandler) (v : Z) : PacketHandler :=
  {| output_buffer_ := output_buffer_ h; parser_ := parser_ h;
     session_ := session_ h;
     running_ := running_ h; packets_processed_ := packets_processed_ h;
     bytes_processed_ := bytes_processed_ h;
     invalid_packets_ := invalid_packets_ h;
     messages_pushed_ := v;
     buffer_full_count_ := buffer_full_count_ h |}.
Definition with_buffer_full_count (h : PacketHandler) (v : Z) : PacketHandler :=
  {| output_buffer_ := output_buffer_ h; parser_ := parser_ h;
     session_ := session_ h;
     running_ := running_ h; packets_processed_ := packets_processed_ h;
     bytes_processed_ := bytes_processed_ h;
     invalid_packets_ := invalid_packets_ h;
     messages_pushed_ := messages_pushed_ h;
     buffer_full_count_ := v |}.

(** [start], [stop], [is_running] *)
Definition start (h : PacketHandler) : PacketHandler := with_running h true.
Definition stop (h : PacketHandler) : PacketHandler := with_running h false.
Definition is_running (h : PacketHandler) : bool := running_ h.

Definition has_gaps (h : PacketHandler) : bool := Moldudp64.has_gaps (session_ h).

(** [push_message] *)
Definition push_message (h : PacketHandler) (msg : NormalizedMessage)
  : PacketHandler :=
  let '(ok, rb) := try_push MessageBuffer_Capacity msg (output_buffer_ h) in
  if negb ok then with_buffer_full_count h (u64 (buffer_full_count_ h + 1))
  else with_messages_pushed (with_output_buffer h rb)
         (u64 (messages_pushed_ h + 1)).

(** [parse_itch_message(data, length)], [data] holding the [length] bytes:
    the parser runs, and each callback it makes builds its record and
    calls [push_message]. *)
Definition parse_itch_message (h : PacketHandler) (data : list byte)
  : PacketHandler :=
  let r := parse_message (parser_ h) data in
  fold_left push_message (PacketHandler.records_of (callbacks r))
    (with_parser h (parser_after r)).

(** The message callback the constructor installs in the session. *)
Definition on_event (h : PacketHandler) (e : Event) : PacketHandler :=
  match e with
  | MessageCallback data _ _ => parse_itch_message h data
  | GapCallback _ => h
  end.

(** [session_.process_packet(data, len)] from inside the handler: the
    session is updated and its callbacks run on the handler. *)
Definition session_process_packet (h : PacketHandler) (data : list byte)
  : bool * PacketHandler :=
  let o := process_packet (session_ h) data in
  (result o, fold_left on_event (events o) (with_session h (session_after o))).

(** [process_raw_packet(data, len)].  [payload_len = len - offset] is
    computed in [size_t]; [None] stands for the case [offset > len], where
    the difference wraps and the payload pointer is past the buffer. *)
Definition process_raw_packet (h : PacketHandler) (data : list byte)
  : option (bool * PacketHandler) :=
  let len := Z.of_nat (length data) in
  let invalid :=
    Some (false, with_invalid_packets h (u64 (invalid_packets_ h + 1))) in
  if len <? header_sizes.TOTAL_MIN then invalid
  else
    let offset := sizeof_EthernetHeader in
    if negb (ntoh16 (EthernetHeader_ether_type data) =? ETHER_TYPE_IPV4)
    then invalid
    else
      let ip := drop (Z.to_nat offset) data in
      let ip_hdr_len := get_ip_header_length ip in
      let offset := offset + ip_hdr_len in
      if negb (IPv4Header_protocol ip =? IP_PROTO_UDP) then invalid
      else
        let offset := offset + sizeof_UDPHeader in
        if offset >? len then None
        else
          let '(ok, h1) :=
            session_process_packet h (drop (Z.to_nat offset) data) in
          if negb ok then
            Some (false,
                  with_invalid_packets h1 (u64 (invalid_packets_ h1 + 1)))
          else
            Some (true,
                  with_bytes_processed
                    (with_packets_processed h1
                       (u64 (packets_processed_ h1 + 1)))
                    (u64 (bytes_processed_ h1 + len))).

(** The [while] loop of [process_itch_file_data], with at most [fuel]
    turns; [None] when the turns run out. *)
Fixpoint itch_file_loop (fuel : nat) (h : PacketHandler) (data : list byte)
    (offset messages_processed : Z) : option (Z * PacketHandler) :=
  let len := Z.of_nat (length data) in
  if offset + 2 <? len then
    match fuel with
    | O => None
    | S fuel' =>
        let msg_len := read_be16 (drop (Z.to_nat offset) data) in
        let offset := offset + 2 in
        if offset + msg_len >? len then Some (messages_processed, h)
        else
          let msg := take (Z.to_nat msg_len) (drop (Z.to_nat offset) data) in
          let parsed := consumed (parse_message (parser_ h) msg) in
          let h1 := parse_itch_message h msg in
          let messages_processed :=
            if parsed >? 0 then messages_processed + 1
            else messages_processed in
          itch_file_loop fuel' h1 data (offset + msg_len) messages_processed
    end
  else Some (messages_processed, h).

(** [process_itch_file_data(data, len)]: every turn of the loop advances
    by two bytes at least, so [len] turns are enough. *)
Definition process_itch_file_data (h : PacketHandler) (data : list byte)
  : option (Z * PacketHandler) :=
  itch_file_loop (length data) h data 0 0.

(** Whether [parse_message] takes a message (returns its size, not 0);
    this depends on the bytes only. *)
Definition parses (msg : list byte) : bool :=
  consumed (parse_message Parser_new msg) >? 0.

(** An Ethernet frame: the three headers, then the UDP payload. *)
Definition frame (eth ip udp payload : list byte) : list byte :=
  eth ++ ip ++ udp ++ payload.

(** The headers of an IPv4/UDP frame as the handler reads them: 14 bytes
    of Ethernet with ether type 0x0800, an IPv4 header of [4 * IHL] bytes
    with protocol 17, eight bytes of UDP. *)
Definition udp_headers (eth ip udp : list byte) : Prop :=
  length eth = 14%nat /\
  nth 12 eth x00 = x08 /\ nth 13 eth x00 = x00 /\
  (20 <= length ip)%nat /\
  Z.of_nat (length ip) = 4 * Z.land (byte_to_Z (nth 0 ip x00)) 0x0F /\
  byte_to_Z (nth 9 ip x00) = 17 /\
  length udp = 8%nat.

(** Example headers: broadcast Ethernet addresses, a 20-byte IPv4 header
    without options (version 4, IHL 5, TTL 64, protocol 17). *)
Definition eth_example : list byte := repeat xff 12 ++ [x08; x00].
Definition ip_example : list byte :=
  [x45; x00; x00; x00; x00; x00; x00; x00; x40; x11] ++ repeat x00 10.
Definition udp_example : list byte := repeat x00 8.

End Dpdk.

(** * Properties *)

(** ** Fixed-width arithmetic *)

Lemma u64_small z : 0 <= z < 2^64 -> u64 z = z.
Proof. intros H. unfold u64. now apply Z.mod_small. Qed.

Lemma u64_range z : 0 <= u64 z < 2^64.
Proof. unfold u64. apply Z.mod_pos_bound. lia. Qed.

Lemma s64_small z : - 2^63 <= z < 2^63 -> s64 z = z.
Proof. intros H. unfold s64. rewrite Z.mod_small; lia. Qed.

(** ** The byte codecs of endian.hpp *)

Module EndianFacts.
Import Endian.

Lemma byte_to_Z_range b : 0 <= byte_to_Z b < 256.
Proof.
  unfold byte_to_Z. pose proof (Byte.to_N_bounded b). lia.
Qed.

Lemma byte_to_of_Z z : byte_to_Z (byte_of_Z z) = z mod 256.
Proof.
  unfold byte_of_Z, byte_to_Z.
  assert (Hr : 0 <= z mod 256 < 256) by (apply Z.mod_pos_bound; lia).
  destruct (Byte.of_N (Z.to_N (z mod 256))) as [b|] eqn:E.
  - apply Byte.to_of_N in E. rewrite E. lia.
  - apply Byte.of_N_None_iff in E. lia.
Qed.

Lemma byte_to_Z_inj a b : byte_to_Z a = byte_to_Z b -> a = b.
Proof.
  unfold byte_to_Z. intros H. apply N2Z.inj in H.
  pose proof (Byte.of_to_N a) as Ha. rewrite H, Byte.of_to_N in Ha.
  congruence.
Qed.

Lemma length_store_le n v : length (store_le n v) = n.
Proof.
  revert v. induction n as [|n IH]; intros v; simpl; [|rewrite IH]; reflexivity.
Qed.

Lemma load_le_range bs : 0 <= load_le bs < 256 ^ Z.of_nat (length bs).
Proof.
  induction bs as [|b bs IH]; simpl load_le; simpl length.
  - simpl. lia.
  - pose proof (byte_to_Z_range b).
    rewrite Nat2Z.inj_succ, Z.pow_succ_r by lia. lia.
Qed.

Lemma store_load_le bs : store_le (length bs) (load_le bs) = bs.
Proof.
  induction bs as [|b bs IH]; simpl; [reflexivity|].
  pose proof (byte_to_Z_range b) as Hb.
  assert (Hm : (byte_to_Z b + 256 * load_le bs) mod 256 = byte_to_Z b).
  { rewrite (Z.mul_comm 256), Z.mod_add by lia. apply Z.mod_small. lia. }
  assert (Hd : (byte_to_Z b + 256 * load_le bs) / 256 = load_le bs).
  { rewrite (Z.mul_comm 256), Z.div_add by lia.
    rewrite Z.div_small by lia. lia. }
  rewrite Hd, IH. f_equal.
  unfold byte_of_Z. rewrite Hm. unfold byte_to_Z.
  rewrite N2Z.id, Byte.of_to_N. reflexivity.
Qed.

Lemma load_store_le n v : load_le (store_le n v) = v mod 256 ^ Z.of_nat n.
Proof.
  revert v. induction n as [|n IH]; intros v.
  - simpl. symmetry. apply Z.mod_1_r.
  - cbn [store_le load_le]. rewrite byte_to_of_Z, IH.
    rewrite Nat2Z.inj_succ, Z.pow_succ_r by lia.
    rewrite Z.rem_mul_r by lia. reflexivity.
Qed.

(** Storing a swapped value lays its bytes out most significant first. *)
Lemma store_bswap n v : store_le n (bswap n v) = rev (store_le n v).
Proof.
  unfold bswap.
  rewrite <- (length_store_le n v) at 1.
  rewrite <- length_rev. apply store_load_le.
Qed.

Lemma bswap_involutive n v : bswap n (bswap n v) = v mod 256 ^ Z.of_nat n.
Proof.
  unfold bswap at 1. rewrite store_bswap, rev_involutive.
  apply load_store_le.
Qed.

(** The round trip behind every [hton]/[ntoh] pair: a value stored through
    [hton] and read back through [ntoh]. *)
Lemma bswap_load_store n v :
  bswap n (load_le (store_le n (bswap n v))) = v mod 256 ^ Z.of_nat n.
Proof.
  rewrite load_store_le.
  assert (Hr : 0 <= bswap n v < 256 ^ Z.of_nat n).
  { unfold bswap. pose proof (load_le_range (rev (store_le n v))) as H.
    rewrite length_rev, length_store_le in H. exact H. }
  rewrite Z.mod_small by exact Hr. apply bswap_involutive.
Qed.

Lemma take_store_le_app n v (rest : list byte) :
  take n (store_le n v ++ rest) = store_le n v.
Proof.
  rewrite take_app_length'; [reflexivity | symmetry; apply length_store_le].
Qed.

Lemma read_be64_hton64 v rest :
  0 <= v < 2^64 -> read_be64 (store_le 8 (hton64 v) ++ rest) = v.
Proof.
  intros Hv. unfold read_be64, hton64, swap64.
  rewrite take_store_le_app, bswap_load_store.
  apply Z.mod_small. exact Hv.
Qed.

Lemma read_be16_hton16 v rest :
  0 <= v < 2^16 -> read_be16 (store_le 2 (hton16 v) ++ rest) = v.
Proof.
  intros Hv. unfold read_be16, hton16, swap16.
  rewrite take_store_le_app, bswap_load_store.
  apply Z.mod_small. exact Hv.
Qed.

Lemma ntoh32_hton32 v :
  0 <= v < 2^32 -> ntoh32 (load_le (store_le 4 (hton32 v))) = v.
Proof.
  intros Hv. unfold ntoh32, hton32, swap32.
  rewrite bswap_load_store. apply Z.mod_small. exact Hv.
Qed.

Lemma ntoh64_hton64 v :
  0 <= v < 2^64 -> ntoh64 (load_le (store_le 8 (hton64 v))) = v.
Proof.
  intros Hv. unfold ntoh64, hton64, swap64.
  rewrite bswap_load_store. apply Z.mod_small. exact Hv.
Qed.

(** Reading two bytes big-endian. *)
Lemma read_be16_bytes hi lo rest :
  read_be16 (hi :: lo :: rest) = 256 * byte_to_Z hi + byte_to_Z lo.
Proof.
  unfold read_be16, swap16, bswap.
  pose proof (store_load_le [hi; lo]) as H. cbn [length] in H.
  change (take 2 (hi :: lo :: rest)) with [hi; lo].
  rewrite H. cbn [rev app load_le]. lia.
Qed.

(** [|] of a shifted value and a value below the shift is their sum. *)
Lemma lor_shiftl_add a n b :
  0 <= n -> 0 <= b < 2 ^ n -> Z.lor (Z.shiftl a n) b = a * 2 ^ n + b.
Proof.
  intros Hn Hb.
  assert (Hland : Z.land (Z.shiftl a n) b = 0).
  { apply Z.bits_inj'. intros i Hi.
    rewrite Z.land_spec, Z.bits_0.
    destruct (Z.lt_ge_cases i n) as [Hlt|Hge].
    - rewrite Z.shiftl_spec_low by exact Hlt. reflexivity.
    - assert (Hbi : Z.testbit b i = false).
      { destruct (Z.eq_dec b 0) as [->|Hb0]; [apply Z.bits_0|].
        apply Z.bits_above_log2; [lia|].
        apply Z.log2_lt_pow2; [lia|].
        assert (2 ^ n <= 2 ^ i) by (apply Z.pow_le_mono_r; lia). lia. }
      rewrite Hbi. apply andb_false_r. }
  rewrite <- Z.lxor_lor, <- Z.add_nocarry_lxor by exact Hland.
  rewrite Z.shiftl_mul_pow2 by exact Hn. reflexivity.
Qed.

(** The six shifts and ors of [read_be48] read the bytes most significant
    first. *)
Lemma read_be48_bytes b0 b1 b2 b3 b4 b5 rest :
  read_be48 (b0 :: b1 :: b2 :: b3 :: b4 :: b5 :: rest)
  = load_le [b5; b4; b3; b2; b1; b0].
Proof.
  unfold read_be48, byte_at. cbn [nth load_le].
  pose proof (byte_to_Z_range b0). pose proof (byte_to_Z_range b1).
  pose proof (byte_to_Z_range b2). pose proof (byte_to_Z_range b3).
  pose proof (byte_to_Z_range b4). pose proof (byte_to_Z_range b5).
  rewrite (lor_shiftl_add (byte_to_Z b4) 8) by lia.
  rewrite (lor_shiftl_add (byte_to_Z b3) 16) by lia.
  rewrite (lor_shiftl_add (byte_to_Z b2) 24) by lia.
  rewrite (lor_shiftl_add (byte_to_Z b1) 32) by lia.
  rewrite (lor_shiftl_add (byte_to_Z b0) 40) by lia.
  lia.
Qed.

(** [static_cast<uint8_t>] of a value masked with [0xFF]. *)
Lemma byte_of_Z_mask x : byte_of_Z (Z.land x 0xFF) = byte_of_Z x.
Proof.
  unfold byte_of_Z. change 0xFF with (Z.ones 8).
  rewrite Z.land_ones by lia. change (2 ^ 8) with 256.
  rewrite Z.mod_mod by lia. reflexivity.
Qed.

(** The checks of the tests on the swaps (section 8, item 7 of the
    specification). *)
Example swap_examples :
  swap16 0x1234 = 0x3412 /\ swap32 0x12345678 = 0x78563412 /\
  swap64 0x123456789ABCDEF0 = 0xF0DEBC9A78563412 /\
  read_be48 [x01; x02; x03; x04; x05; x06] = 0x010203040506.
Proof. repeat split; vm_compute; reflexivity. Qed.

End EndianFacts.

(** ** The message parser *)

Module ParserFacts.
Import Endian EndianFacts Itch5.

(** The table of the specification and [get_message_size] agree. *)
Lemma kind_table_get_message_size K S_K :
  In (K, S_K) kind_table -> get_message_size K = S_K /\ 12 <= S_K.
Proof.
  unfold kind_table. intros H.
  repeat (destruct H as [H|H];
          [inversion H; subst; split; [reflexivity | lia] | ]).
  destruct H.
Qed.

Lemma get_message_size_not_in_table c :
  ~ in_kind_table c -> get_message_size c = 0.
Proof.
  intros H. destruct c; try reflexivity; exfalso; apply H;
    eexists; unfold kind_table;
    repeat (first [left; reflexivity | right]).
Qed.

Lemma get_message_size_x00 : get_message_size x00 = 0.
Proof. reflexivity. Qed.

(** Both early returns of [parse_message] leave the parser alone. *)
Lemma parse_message_rejects p data :
  get_message_size (nth 0 data x00) = 0 \/
  Z.of_nat (length data) < get_message_size (nth 0 data x00) ->
  parse_message p data = {| consumed := 0; parser_after := p; callbacks := [] |}.
Proof.
  intros H. unfold parse_message.
  destruct (Z.of_nat (length data) <? 1); [reflexivity|].
  destruct (get_message_size (nth 0 data x00) =? 0) eqn:E0; [reflexivity|].
  destruct H as [H|H].
  - rewrite H in E0. discriminate.
  - apply Z.ltb_lt in H. rewrite H. reflexivity.
Qed.

Lemma parse_message_accepts p data :
  get_message_size (nth 0 data x00) <> 0 ->
  get_message_size (nth 0 data x00) <= Z.of_nat (length data) ->
  consumed (parse_message p data) = get_message_size (nth 0 data x00).
Proof.
  intros Hn Hle. unfold parse_message.
  destruct (Z.of_nat (length data) <? 1) eqn:E1.
  { destruct data; [exfalso; apply Hn; reflexivity|].
    apply Z.ltb_lt in E1. simpl length in E1. lia. }
  apply Z.eqb_neq in Hn. rewrite Hn.
  apply Z.ltb_ge in Hle. rewrite Hle.
  destruct (dispatch p (nth 0 data x00) data). reflexivity.
Qed.

(** C2: for every kind [K] of the table with declared size [S_K], a buffer
    that begins with [K] is consumed for exactly [S_K] bytes when it holds
    at least [S_K] bytes, and when it holds fewer the parser returns 0,
    changes no statistics counter (the parser is left as it was) and
    invokes no callback. *)
Theorem C2_kind_table_sizes (K : byte) (S_K : Z) (p : Parser) (rest : list byte) :
  In (K, S_K) kind_table ->
  let data := K :: rest in
  (S_K <= Z.of_nat (length data) -> consumed (parse_message p data) = S_K) /\
  (1 <= Z.of_nat (length data) < S_K ->
   consumed (parse_message p data) = 0 /\
   stats_ (parser_after (parse_message p data)) = stats_ p /\
   parser_after (parse_message p data) = p /\
   callbacks (parse_message p data) = []).
Proof.
  intros Hin data.
  destruct (kind_table_get_message_size K S_K Hin) as [Hsz Hpos].
  split.
  - intros Hlen.
    rewrite parse_message_accepts; subst data; cbn [nth]; rewrite Hsz; lia.
  - intros Hlen.
    rewrite parse_message_rejects; [repeat split|].
    right. subst data. cbn [nth]. rewrite Hsz. lia.
Qed.

Lemma C2_kind_table_sizes_witness :
  consumed (parse_message Parser_new ("A"%byte :: repeat x00 35)) = 36 /\
  consumed (parse_message Parser_new ("A"%byte :: repeat x00 9)) = 0.
Proof.
  assert (Hin : In ("A"%byte, 36) kind_table).
  { unfold kind_table. repeat (first [left; reflexivity | right]). }
  split.
  - apply (C2_kind_table_sizes "A"%byte 36 Parser_new (repeat x00 35) Hin).
    vm_compute. discriminate.
  - apply (C2_kind_table_sizes "A"%byte 36 Parser_new (repeat x00 9) Hin).
    vm_compute. split; [discriminate | reflexivity].
Defined.

(** C7, as the code has it: a buffer of at least one byte whose first byte
    is not a code of the table makes [parse_message] return 0, and the
    [unknown_messages] counter keeps its value (the parser is left as it
    was): the early return on a zero expected size comes before the
    [default] branch that would count the message. *)
Theorem C7_unknown_kind_not_counted (p : Parser) (data : list byte) :
  1 <= Z.of_nat (length data) ->
  ~ in_kind_table (nth 0 data x00) ->
  consumed (parse_message p data) = 0 /\
  unknown_messages (stats_ (parser_after (parse_message p data)))
    = unknown_messages (stats_ p) /\
  parser_after (parse_message p data) = p.
Proof.
  intros _ Hk.
  rewrite parse_message_rejects; [repeat split|].
  left. apply get_message_size_not_in_table. exact Hk.
Qed.

Lemma not_in_kind_table_Z : ~ in_kind_table "Z"%byte.
Proof.
  intros [S_K H]. unfold kind_table in H.
  repeat (destruct H as [H|H]; [discriminate H|]). destruct H.
Qed.

Lemma C7_unknown_kind_not_counted_witness :
  let data := "Z"%byte :: repeat x00 31 in
  consumed (parse_message Parser_new data) = 0 /\
  unknown_messages (stats_ (parser_after (parse_message Parser_new data))) = 0.
Proof.
  destruct (C7_unknown_kind_not_counted Parser_new ("Z"%byte :: repeat x00 31))
    as (H1 & H2 & _).
  - vm_compute. discriminate.
  - exact not_in_kind_table_Z.
  - split; [exact H1 | exact H2].
Defined.

End ParserFacts.

(** ** The AddOrder round trip *)

Module RoundTrip.
Import Endian EndianFacts Itch5 ParserFacts.

Section AddOrder.
Variables stock_locate tracking_number ts r q p : Z.
Variable s : Side.

Let msg : list byte :=
  build_add_order stock_locate tracking_number ts r (Side_code s) q MSFT p.

Lemma build_add_order_length : length msg = 36%nat.
Proof.
  subst msg. unfold build_add_order, set_timestamp.
  rewrite !length_app, !length_store_le. reflexivity.
Qed.

Lemma build_add_order_type : nth 0 msg x00 = "A"%byte.
Proof. reflexivity. Qed.

Lemma build_add_order_view : take (Z.to_nat (sizeof AddOrder)) msg = msg.
Proof.
  apply take_ge. rewrite build_add_order_length.
  change (Z.to_nat (sizeof AddOrder)) with 36%nat. lia.
Qed.

(** The fields of the struct, read back from its memory. *)
Lemma build_add_order_order_reference_number :
  AddOrder_order_reference_number msg = load_le (store_le 8 (hton64 r)).
Proof. reflexivity. Qed.

Lemma build_add_order_buy_sell_indicator :
  AddOrder_buy_sell_indicator msg = Side_code s.
Proof. reflexivity. Qed.

Lemma build_add_order_shares :
  AddOrder_shares msg = load_le (store_le 4 (hton32 q)).
Proof. reflexivity. Qed.

Lemma build_add_order_stock : AddOrder_stock msg = MSFT.
Proof. reflexivity. Qed.

Lemma build_add_order_price :
  AddOrder_price msg = load_le (store_le 4 (hton32 p)).
Proof. reflexivity. Qed.

Lemma set_timestamp_store v : set_timestamp v = rev (store_le 6 v).
Proof.
  unfold set_timestamp. cbn [store_le rev app].
  rewrite !byte_of_Z_mask, !Z.shiftr_div_pow2 by lia.
  rewrite !Z.div_div by lia. reflexivity.
Qed.

Lemma read_be48_set_timestamp v rest :
  read_be48 (set_timestamp v ++ rest) = v mod 2 ^ 48.
Proof.
  pose proof (set_timestamp_store v) as Hs.
  unfold set_timestamp in *. cbn [app].
  rewrite read_be48_bytes.
  match goal with |- load_le ?l = _ =>
    change l with (rev [byte_of_Z (Z.land (Z.shiftr v 40) 255);
                        byte_of_Z (Z.land (Z.shiftr v 32) 255);
                        byte_of_Z (Z.land (Z.shiftr v 24) 255);
                        byte_of_Z (Z.land (Z.shiftr v 16) 255);
                        byte_of_Z (Z.land (Z.shiftr v 8) 255);
                        byte_of_Z (Z.land v 255)])
  end.
  rewrite Hs, rev_involutive, load_store_le. reflexivity.
Qed.

Lemma build_add_order_timestamp :
  read_be48 (msg_timestamp msg) = ts mod 2 ^ 48.
Proof.
  change (msg_timestamp msg) with (set_timestamp ts ++ []).
  apply read_be48_set_timestamp.
Qed.

End AddOrder.

Lemma convert_price_wire p : 0 <= p < 2 ^ 32 -> convert_price p = p * 100.
Proof. intros Hp. unfold convert_price. apply s64_small. lia. Qed.

Lemma side_of_code s : PacketHandler.side_of (Side_code s) = s.
Proof. destruct s; reflexivity. Qed.

(** C9: an AddOrder message built with order reference [r], side [s],
    wire price [p] (32-bit unsigned), quantity [q] and stock "MSFT    ",
    fed to [parse_message] of a parser whose add-order callback is
    installed, is consumed whole and reaches the callback once, with price
    [p * 100] and quantity [q]; the normalized record built from that call
    (by the handler's callback, and by [normalize_add_order]) has
    [order_ref = r], [side = s], [price = p * 100], [quantity = q] and
    the stock unchanged. *)
Theorem C9_add_order_round_trip
    (p0 : Parser) (stock_locate tracking_number ts r q p : Z) (s : Side) :
  add_order_cb_ p0 = true ->
  0 <= r < 2 ^ 64 -> 0 <= p < 2 ^ 32 -> 0 <= q < 2 ^ 32 ->
  let msg :=
    build_add_order stock_locate tracking_number ts r (Side_code s) q MSFT p in
  let record :=
    {| type := MT_AddOrder; timestamp := ts mod 2 ^ 48; order_ref := r;
       stock := MSFT; side := s; price := p * 100; quantity := q;
       executed_quantity := 0; new_order_ref := 0 |} in
  consumed (parse_message p0 msg) = 36 /\
  callbacks (parse_message p0 msg)
    = [AddOrderCallback msg (ts mod 2 ^ 48) (p * 100) q] /\
  PacketHandler.records_of (callbacks (parse_message p0 msg)) = [record] /\
  normalize_add_order msg = record.
Proof.
  intros Hcb Hr Hp Hq msg record.
  assert (Hprice : convert_price (ntoh32 (AddOrder_price msg)) = p * 100).
  { subst msg. rewrite build_add_order_price, ntoh32_hton32 by exact Hp.
    apply convert_price_wire. exact Hp. }
  assert (Hqty : ntoh32 (AddOrder_shares msg) = q).
  { subst msg. rewrite build_add_order_shares. apply ntoh32_hton32. exact Hq. }
  assert (Href : ntoh64 (AddOrder_order_reference_number msg) = r).
  { subst msg. rewrite build_add_order_order_reference_number.
    apply ntoh64_hton64. exact Hr. }
  assert (Hts : read_be48 (msg_timestamp msg) = ts mod 2 ^ 48).
  { apply build_add_order_timestamp. }
  assert (Hlen : length msg = 36%nat)
    by exact (build_add_order_length stock_locate tracking_number ts r q p s).
  assert (Hty : nth 0 msg x00 = "A"%byte) by reflexivity.
  assert (Hview : take (Z.to_nat (sizeof AddOrder)) msg = msg)
    by exact (build_add_order_view stock_locate tracking_number ts r q p s).
  assert (Hbs : AddOrder_buy_sell_indicator msg = Side_code s) by reflexivity.
  assert (Hstock : AddOrder_stock msg = MSFT) by reflexivity.
  assert (Hcbs : callbacks (parse_message p0 msg)
                 = [AddOrderCallback msg (ts mod 2 ^ 48) (p * 100) q]).
  { unfold parse_message. rewrite Hlen, Hty.
    change (get_message_size "A"%byte) with 36.
    change (Z.of_nat 36 <? 1) with false.
    change (36 =? 0) with false.
    change (Z.of_nat 36 <? 36) with false.
    cbn [dispatch]. rewrite Hview.
    unfold parse_add_order. cbn [with_stats add_order_cb_]. rewrite Hcb.
    cbn [callbacks]. rewrite Hts, Hprice, Hqty. reflexivity. }
  split; [|split; [exact Hcbs|split]].
  - rewrite parse_message_accepts; rewrite Hty;
      [reflexivity | discriminate |].
    rewrite Hlen. vm_compute. discriminate.
  - rewrite Hcbs. cbn [PacketHandler.records_of PacketHandler.normalized].
    rewrite Href, Hbs, side_of_code, Hstock. reflexivity.
  - unfold normalize_add_order. rewrite Hts, Href, Hprice, Hqty, Hbs, Hstock.
    subst record. destruct s; reflexivity.
Qed.

Lemma C9_add_order_round_trip_witness :
  let msg := build_add_order 1 0 34200000000000 12345 "S"%byte 500 MSFT 2500000 in
  consumed (parse_message (PacketHandler.setup_parser_callbacks Parser_new) msg)
    = 36 /\
  PacketHandler.records_of
    (callbacks
       (parse_message (PacketHandler.setup_parser_callbacks Parser_new) msg))
  = [{| type := MT_AddOrder; timestamp := 34200000000000; order_ref := 12345;
        stock := MSFT; side := Sell; price := 250000000; quantity := 500;
        executed_quantity := 0; new_order_ref := 0 |}].
Proof.
  destruct (C9_add_order_round_trip
              (PacketHandler.setup_parser_callbacks Parser_new)
              1 0 34200000000000 12345 500 2500000 Sell)
    as (H1 & _ & H3 & _).
  - reflexivity.
  - lia.
  - lia.
  - lia.
  - split; [exact H1 | exact H3].
Defined.

End RoundTrip.

(** ** The single-producer single-consumer ring *)

Module SpscFacts.
Import Spsc.

Section Ring.
Context {T : Type}.
Variable Capacity : Z.
Variable T_default : T.

(** The two [static_assert]s of the class template. *)
Hypothesis Capacity_positive : Capacity > 0.
Hypothesis Capacity_power_of_2 : Z.land Capacity (Capacity - 1) = 0.

Local Abbreviation Ring := (@RingBuffer T).
Local Abbreviation increment := (increment Capacity).
Local Abbreviation try_push := (try_push Capacity).
Local Abbreviation try_pop := (try_pop Capacity T_default).
Local Abbreviation try_push_batch := (try_push_batch Capacity).
Local Abbreviation size := (size Capacity).
Local Abbreviation ring_inv := (ring_inv Capacity).
Local Abbreviation reachable := (reachable Capacity T_default).
Local Abbreviation read_from := (read_from Capacity T_default).
Local Abbreviation contents := (contents Capacity T_default).
Local Abbreviation span := (span Capacity).

(** A positive number that shares no bit with its predecessor is a power
    of two. *)
Lemma Capacity_pow2 : exists k, 0 <= k /\ Capacity = 2 ^ k.
Proof.
  exists (Z.log2 Capacity).
  assert (Hpos : 0 < Capacity) by lia.
  pose proof (Z.log2_nonneg Capacity) as Hk.
  pose proof (Z.log2_spec Capacity Hpos) as [Hlo Hhi].
  split; [exact Hk|].
  destruct (Z.eq_dec Capacity (2 ^ Z.log2 Capacity)) as [E|NE]; [exact E|].
  exfalso.
  assert (Hlog : Z.log2 (Capacity - 1) = Z.log2 Capacity).
  { apply Z.log2_unique; [exact Hk | lia]. }
  assert (Hb1 : Z.testbit Capacity (Z.log2 Capacity) = true)
    by (apply Z.bit_log2; lia).
  assert (Hb2 : Z.testbit (Capacity - 1) (Z.log2 Capacity) = true)
    by (rewrite <- Hlog; apply Z.bit_log2; lia).
  assert (Hb : Z.testbit (Z.land Capacity (Capacity - 1)) (Z.log2 Capacity)
               = true)
    by (rewrite Z.land_spec, Hb1, Hb2; reflexivity).
  rewrite Capacity_power_of_2, Z.bits_0 in Hb. discriminate.
Qed.

(** The masked increment is the increment modulo the capacity. *)
Lemma increment_mod i : increment i = (i + 1) mod Capacity.
Proof.
  destruct Capacity_pow2 as (k & Hk & ->).
  unfold Spsc.increment.
  replace (2 ^ k - 1) with (Z.ones k) by (rewrite Z.ones_equiv; lia).
  apply Z.land_ones. exact Hk.
Qed.

Lemma increment_cases i :
  0 <= i < Capacity ->
  increment i = if i + 1 <? Capacity then i + 1 else 0.
Proof.
  intros Hi. rewrite increment_mod.
  destruct (i + 1 <? Capacity) eqn:E.
  - apply Z.ltb_lt in E. apply Z.mod_small. lia.
  - apply Z.ltb_ge in E. replace (i + 1) with Capacity by lia.
    apply Z.mod_same. lia.
Qed.

Lemma increment_range i : 0 <= i < Capacity -> 0 <= increment i < Capacity.
Proof.
  intros Hi. rewrite increment_cases by exact Hi.
  destruct (i + 1 <? Capacity) eqn:E; [apply Z.ltb_lt in E|]; lia.
Qed.

Lemma ring_inv_new : ring_inv (RingBuffer_new Capacity T_default).
Proof.
  unfold Spsc.ring_inv, RingBuffer_new. cbn. rewrite repeat_length. lia.
Qed.

(** The live-record count [size()] stays within [0 .. Capacity - 1]. *)
Lemma size_range (rb : Ring) : ring_inv rb -> 0 <= size rb <= Capacity - 1.
Proof.
  intros (_ & Hh & Ht). unfold Spsc.size.
  destruct (head_ rb >=? tail_ rb) eqn:E; [apply Z.geb_le in E|]; [lia|].
  rewrite Z.geb_leb in E. apply Z.leb_gt in E. lia.
Qed.

Ltac size_cases :=
  unfold Spsc.size in *; cbn [head_ tail_ buffer_] in *;
  repeat match goal with
  | H : context [?a >=? ?b] |- _ =>
      let E := fresh "E" in
      destruct (a >=? b) eqn:E;
      [apply Z.geb_le in E | rewrite Z.geb_leb in E; apply Z.leb_gt in E]
  | |- context [?a >=? ?b] =>
      let E := fresh "E" in
      destruct (a >=? b) eqn:E;
      [apply Z.geb_le in E | rewrite Z.geb_leb in E; apply Z.leb_gt in E]
  | H : context [?a <? ?b] |- _ =>
      let E := fresh "E" in
      destruct (a <? b) eqn:E;
      [apply Z.ltb_lt in E | apply Z.ltb_ge in E]
  | |- context [?a <? ?b] =>
      let E := fresh "E" in
      destruct (a <? b) eqn:E;
      [apply Z.ltb_lt in E | apply Z.ltb_ge in E]
  end.

(** A push into a ring that is not full. *)
Lemma try_push_not_full item (rb : Ring) :
  ring_inv rb -> size rb < Capacity - 1 ->
  exists rb', try_push item rb = (true, rb') /\ ring_inv rb' /\
              size rb' = size rb + 1 /\ tail_ rb' = tail_ rb.
Proof.
  intros (Hlen & Hh & Ht) Hsz. unfold Spsc.try_push.
  pose proof (increment_cases (head_ rb) Hh) as Hinc.
  destruct (increment (head_ rb) =? tail_ rb) eqn:E.
  - exfalso. apply Z.eqb_eq in E. rewrite E in Hinc. size_cases; lia.
  - eexists. split; [reflexivity|]. apply Z.eqb_neq in E.
    repeat split; cbn [head_ tail_ buffer_]; try lia.
    + rewrite length_insert. exact Hlen.
    + rewrite Hinc. size_cases; lia.
    + rewrite Hinc. size_cases; lia.
    + rewrite Hinc in *. size_cases; lia.
Qed.

(** A push into a full ring fails and changes nothing. *)
Lemma try_push_full item (rb : Ring) :
  ring_inv rb -> size rb = Capacity - 1 -> try_push item rb = (false, rb).
Proof.
  intros (Hlen & Hh & Ht) Hsz. unfold Spsc.try_push.
  pose proof (increment_cases (head_ rb) Hh) as Hinc.
  destruct (increment (head_ rb) =? tail_ rb) eqn:E; [reflexivity|].
  exfalso. apply Z.eqb_neq in E. rewrite Hinc in E. size_cases; lia.
Qed.

(** A pop from a ring that is not empty. *)
Lemma try_pop_not_empty (rb : Ring) :
  ring_inv rb -> 0 < size rb ->
  exists item rb', try_pop rb = (Some item, rb') /\ ring_inv rb' /\
                   size rb' = size rb - 1.
Proof.
  intros (Hlen & Hh & Ht) Hsz. unfold Spsc.try_pop.
  pose proof (increment_cases (tail_ rb) Ht) as Hinc.
  destruct (tail_ rb =? head_ rb) eqn:E.
  - exfalso. apply Z.eqb_eq in E. size_cases; lia.
  - do 2 eexists. split; [reflexivity|]. apply Z.eqb_neq in E.
    repeat split; cbn [head_ tail_ buffer_]; try lia.
    + rewrite Hinc. size_cases; lia.
    + rewrite Hinc. size_cases; lia.
    + rewrite Hinc in *. size_cases; lia.
Qed.

Lemma ring_inv_try_push item (rb : Ring) :
  ring_inv rb -> ring_inv (snd (try_push item rb)).
Proof.
  intros Hinv. pose proof (size_range rb Hinv) as Hr.
  destruct (Z.eq_dec (size rb) (Capacity - 1)) as [Hfull|Hnot].
  - rewrite try_push_full by assumption. exact Hinv.
  - destruct (try_push_not_full item rb Hinv) as (rb' & -> & Hinv' & _); [lia|].
    exact Hinv'.
Qed.

Lemma ring_inv_try_pop (rb : Ring) :
  ring_inv rb -> ring_inv (snd (try_pop rb)).
Proof.
  intros Hinv. pose proof (size_range rb Hinv) as Hr.
  destruct (Z.eq_dec (size rb) 0) as [Hempty|Hnot].
  - unfold Spsc.try_pop.
    destruct (tail_ rb =? head_ rb); [exact Hinv|].
    destruct Hinv as (Hlen & Hh & Ht).
    repeat split; cbn [snd head_ tail_ buffer_]; try lia; try exact Hlen;
      apply increment_range; exact Ht.
  - destruct (try_pop_not_empty rb Hinv) as (x & rb' & -> & Hinv' & _); [lia|].
    exact Hinv'.
Qed.

Lemma reachable_ring_inv (rb : Ring) : reachable rb -> ring_inv rb.
Proof.
  induction 1 as [|o rb _ IH].
  - apply ring_inv_new.
  - destruct o as [item|]; cbn [run_op].
    + apply ring_inv_try_push. exact IH.
    + apply ring_inv_try_pop. exact IH.
Qed.

Lemma empty_size_zero (rb : Ring) : empty rb = true -> size rb = 0.
Proof.
  unfold empty. intros E. apply Z.eqb_eq in E. unfold Spsc.size.
  rewrite E. destruct (tail_ rb >=? tail_ rb) eqn:E'; [lia|].
  rewrite Z.geb_leb in E'. apply Z.leb_gt in E'. lia.
Qed.

(** *** The ring as a queue *)

Lemma size_span (rb : Ring) : size rb = span (tail_ rb) (head_ rb).
Proof. reflexivity. Qed.

Lemma span_increment i h :
  0 <= i < Capacity -> 0 <= h < Capacity -> i <> h ->
  span (increment i) h = span i h - 1.
Proof.
  intros Hi Hh Hne. rewrite (increment_cases i Hi). unfold Spsc.span.
  size_cases; lia.
Qed.

(** Slots between [i] and the head are not touched by a store at the
    head, and reading one slot further meets the stored item. *)
Lemma read_from_push (buffer : list T) h x n :
  forall i,
  0 <= h < Capacity -> length buffer = Z.to_nat Capacity ->
  0 <= i < Capacity -> span i h = Z.of_nat n ->
  read_from (<[Z.to_nat h := x]> buffer) i (S n) = read_from buffer i n ++ [x].
Proof.
  induction n as [|n IH]; intros i Hh Hlen Hi Hspan.
  - assert (i = h) by (unfold Spsc.span in Hspan; size_cases; lia). subst i.
    cbn [Spsc.read_from app]. f_equal.
    rewrite nth_lookup, list_lookup_insert_eq by lia. reflexivity.
  - assert (Hne : i <> h).
    { intros ->. unfold Spsc.span in Hspan. size_cases; lia. }
    change (read_from (<[Z.to_nat h:=x]> buffer) i (S (S n)))
      with (nth (Z.to_nat i) (<[Z.to_nat h:=x]> buffer) T_default
              :: read_from (<[Z.to_nat h:=x]> buffer) (increment i) (S n)).
    rewrite IH; try assumption.
    + cbn [Spsc.read_from app]. f_equal.
      rewrite !nth_lookup, list_lookup_insert_ne by lia. reflexivity.
    + apply increment_range. exact Hi.
    + rewrite span_increment by assumption. lia.
Qed.

(** A successful push appends to the queue; a successful pop takes its
    first record. *)
Lemma contents_try_push item (rb : Ring) :
  ring_inv rb -> size rb < Capacity - 1 ->
  contents (snd (try_push item rb)) = contents rb ++ [item].
Proof.
  intros Hinv Hsz.
  destruct (try_push_not_full item rb Hinv Hsz) as (rb' & Hp & _ & Hsz' & Ht').
  pose proof (size_range rb Hinv) as Hr.
  destruct Hinv as (Hlen & Hh & Ht).
  rewrite Hp. cbn [snd]. unfold Spsc.contents. rewrite Hsz', Ht'.
  replace (Z.to_nat (size rb + 1)) with (S (Z.to_nat (size rb))) by lia.
  unfold Spsc.try_push in Hp.
  destruct (increment (head_ rb) =? tail_ rb); [discriminate Hp|].
  injection Hp as <-. cbn [buffer_].
  apply read_from_push; try assumption.
  rewrite <- size_span. lia.
Qed.

Lemma contents_try_pop (rb : Ring) :
  ring_inv rb -> 0 < size rb ->
  exists item, fst (try_pop rb) = Some item /\
               contents rb = item :: contents (snd (try_pop rb)).
Proof.
  intros Hinv Hsz.
  destruct (try_pop_not_empty rb Hinv Hsz) as (item & rb' & Hp & _ & Hsz').
  exists item. rewrite Hp. cbn [fst snd]. split; [reflexivity|].
  unfold Spsc.contents. rewrite Hsz'.
  replace (Z.to_nat (size rb)) with (S (Z.to_nat (size rb - 1))) by lia.
  unfold Spsc.try_pop in Hp.
  destruct (tail_ rb =? head_ rb); [discriminate Hp|].
  injection Hp as <- <-. reflexivity.
Qed.

Lemma length_read_from (buffer : list T) i n : length (read_from buffer i n) = n.
Proof.
  revert i. induction n as [|n IH]; intros i; cbn [Spsc.read_from length];
    [|rewrite IH]; reflexivity.
Qed.

Lemma length_contents (rb : Ring) :
  ring_inv rb -> Z.of_nat (length (contents rb)) = size rb.
Proof.
  intros Hinv. pose proof (size_range rb Hinv).
  unfold Spsc.contents. rewrite length_read_from. lia.
Qed.

(** Pushing a batch that fits: every push succeeds and the batch joins
    the queue in order. *)
Lemma try_push_batch_fits (items : list T) (rb : Ring) :
  ring_inv rb ->
  size rb + Z.of_nat (length items) <= Capacity - 1 ->
  exists rb', try_push_batch items rb = (Z.of_nat (length items), rb') /\
              ring_inv rb' /\
              size rb' = size rb + Z.of_nat (length items) /\
              contents rb' = contents rb ++ items.
Proof.
  revert rb. induction items as [|item rest IH]; intros rb Hinv Hfit.
  - exists rb. cbn [length Spsc.try_push_batch].
    split; [reflexivity|]. split; [exact Hinv|].
    split; [lia | rewrite app_nil_r; reflexivity].
  - cbn [length Spsc.try_push_batch] in *.
    assert (Hroom : size rb < Capacity - 1) by lia.
    pose proof (contents_try_push item rb Hinv Hroom) as Hc.
    destruct (try_push_not_full item rb Hinv Hroom)
      as (rb1 & Hp & Hinv1 & Hsz1 & _).
    rewrite Hp in Hc |- *. cbn [snd] in Hc.
    destruct (IH rb1 Hinv1) as (rb2 & -> & Hinv2 & Hsz2 & Hc2); [lia|].
    exists rb2. split; [f_equal; lia|].
    split; [exact Hinv2|]. split; [lia|].
    rewrite Hc2, Hc, <- app_assoc. reflexivity.
Qed.

(** C5: on an empty ring of power-of-two capacity N, N-1 pushes in a row
    all succeed (the ring then holds the pushed records, in order) and the
    next one fails; a pop then succeeds (there is one as soon as N >= 2)
    and after it a push succeeds again; and in every reachable state the
    number of live records, which is [size()], is at most N-1. *)
Theorem C5_ring_fullness (rb : Ring) (items : list T) (x : T) :
  reachable rb -> empty rb = true ->
  Z.of_nat (length items) = Capacity - 1 ->
  let rb1 := snd (try_push_batch items rb) in
  fst (try_push_batch items rb) = Capacity - 1 /\
  contents rb1 = items /\
  fst (try_push x rb1) = false /\
  (forall y, fst (try_pop rb1) = Some y ->
             fst (try_push x (snd (try_pop rb1))) = true) /\
  (2 <= Capacity -> exists y, fst (try_pop rb1) = Some y) /\
  (forall rb', reachable rb' ->
     Z.of_nat (length (contents rb')) = size rb' /\
     0 <= size rb' <= Capacity - 1).
Proof.
  intros Hreach Hempty Hlen rb1.
  pose proof (reachable_ring_inv rb Hreach) as Hinv.
  pose proof (empty_size_zero rb Hempty) as Hsz0.
  destruct (try_push_batch_fits items rb Hinv) as (rb' & Hb & Hinv' & Hsz' & Hc);
    [lia|].
  subst rb1. rewrite Hb. cbn [fst snd].
  assert (Hfull : size rb' = Capacity - 1) by lia.
  split; [exact Hlen|].
  split; [rewrite Hc; unfold Spsc.contents; rewrite Hsz0; reflexivity|].
  split; [rewrite try_push_full by assumption; reflexivity|].
  split; [|split].
  - intros y Hy.
    destruct (Z.eq_dec Capacity 1) as [C1|C1].
    + exfalso. unfold Spsc.try_pop in Hy.
      destruct Hinv' as (_ & Hh & Ht).
      replace (tail_ rb' =? head_ rb') with true in Hy
        by (symmetry; apply Z.eqb_eq; lia).
      discriminate.
    + destruct (try_pop_not_empty rb' Hinv') as (z & rb2 & Hp & Hinv2 & Hsz2);
        [lia|].
      rewrite Hp. cbn [snd].
      destruct (try_push_not_full x rb2 Hinv2) as (rb3 & -> & _); [lia|].
      reflexivity.
  - intros HC.
    destruct (try_pop_not_empty rb' Hinv') as (z & rb2 & Hp & _); [lia|].
    exists z. rewrite Hp. reflexivity.
  - intros rb0 H0. pose proof (reachable_ring_inv rb0 H0) as Hinv0.
    split; [apply length_contents; exact Hinv0 | apply size_range; exact Hinv0].
Qed.

(** C10: an operation that fails leaves the ring as it was: after a
    [try_push] that returns [false], and after a [try_pop] that returns
    [nullopt], head, tail and every slot are unchanged. *)
Theorem C10_failed_operations_atomic (rb : Ring) (item : T) :
  (fst (try_push item rb) = false -> snd (try_push item rb) = rb) /\
  (fst (try_pop rb) = None -> snd (try_pop rb) = rb).
Proof.
  unfold Spsc.try_push, Spsc.try_pop. split.
  - destruct (increment (head_ rb) =? tail_ rb); cbn [fst snd];
      [reflexivity | discriminate].
  - destruct (tail_ rb =? head_ rb); cbn [fst snd];
      [reflexivity | discriminate].
Qed.

End Ring.

Lemma C5_ring_fullness_witness :
  let rb1 := snd (try_push_batch 8 [1; 2; 3; 4; 5; 6; 7] ring8) in
  fst (try_push_batch 8 [1; 2; 3; 4; 5; 6; 7] ring8) = 7 /\
  fst (try_push 8 8 rb1) = false /\
  (exists y, fst (try_pop 8 0 rb1) = Some y) /\
  fst (try_push 8 8 (snd (try_pop 8 0 rb1))) = true.
Proof.
  destruct (C5_ring_fullness 8 0 ltac:(lia) eq_refl ring8 [1; 2; 3; 4; 5; 6; 7] 8)
    as (H1 & _ & H2 & H3 & H4 & _).
  - apply reachable_new.
  - reflexivity.
  - reflexivity.
  - destruct (H4 ltac:(lia)) as [y Hy].
    split; [exact H1|]. split; [exact H2|].
    split; [exists y; exact Hy | exact (H3 y Hy)].
Defined.

Lemma C10_failed_operations_atomic_witness :
  let full8 := snd (try_push_batch 8 [1; 2; 3; 4; 5; 6; 7] ring8) in
  snd (try_push 8 8 full8) = full8 /\ snd (try_pop 8 0 ring8) = ring8.
Proof.
  split.
  - apply (C10_failed_operations_atomic 8 0). reflexivity.
  - apply (C10_failed_operations_atomic 8 0 ring8 0). reflexivity.
Defined.

(** Scenario S5: enqueue 1..7, the eighth fails; one dequeue returns 1 and
    makes room for 8; draining yields 2..8 in order. *)
Example scenario_S5 :
  let '(n, rb1) := try_push_batch 8 [1; 2; 3; 4; 5; 6; 7] ring8 in
  let '(ok8, rb2) := try_push 8 8 rb1 in
  let '(first, rb3) := try_pop 8 0 rb2 in
  let '(ok8', rb4) := try_push 8 8 rb3 in
  let '(drained, rb5) := try_pop_batch 8 0 8 rb4 in
  n = 7 /\ ok8 = false /\ first = Some 1 /\ ok8' = true /\
  drained = [2; 3; 4; 5; 6; 7; 8] /\ empty rb5 = true.
Proof. vm_compute. repeat split; reflexivity. Qed.

End SpscFacts.

(** ** The session decoder: packets and the dispatch loop *)

Module SessionFacts.
Import Endian EndianFacts Moldudp64.

Lemma length_session_field sid : length (session_field sid) = 10%nat.
Proof.
  unfold session_field. rewrite length_take, length_app, repeat_length. lia.
Qed.

Lemma create_moldudp_packet_split sid seq n msgs :
  create_moldudp_packet sid seq n msgs
  = session_field sid ++ store_le 8 (hton64 seq) ++ store_le 2 (hton16 n)
    ++ concat (map message_block msgs).
Proof. reflexivity. Qed.

Lemma length_create_moldudp_packet sid seq n msgs :
  length (create_moldudp_packet sid seq n msgs)
  = (20 + length (concat (map message_block msgs)))%nat.
Proof.
  rewrite create_moldudp_packet_split, !length_app, !length_store_le,
    length_session_field. lia.
Qed.

(** The header of a packet made by [create_moldudp_packet] parses back to
    the values it was made of, whatever follows. *)
Lemma parse_create_moldudp_packet sid seq n msgs rest :
  0 <= seq < 2 ^ 64 -> 0 <= n < 2 ^ 16 ->
  parse (create_moldudp_packet sid seq n msgs ++ rest)
  = Some {| session := session_field sid; sequence_number := seq;
            message_count := n |}.
Proof.
  intros Hseq Hn. unfold parse.
  rewrite length_app, length_create_moldudp_packet.
  destruct (_ <? sizeof_Header) eqn:E.
  { apply Z.ltb_lt in E. unfold sizeof_Header in E. lia. }
  rewrite create_moldudp_packet_split, <- !app_assoc.
  pose proof (length_session_field sid) as Hl.
  f_equal. f_equal.
  - rewrite take_app_length'; [reflexivity | symmetry; exact Hl].
  - rewrite drop_app_length' by (symmetry; exact Hl).
    apply read_be64_hton64. exact Hseq.
  - rewrite (app_assoc (session_field sid)).
    rewrite drop_app_length'
      by (rewrite length_app, length_store_le, Hl; reflexivity).
    apply read_be16_hton16. exact Hn.
Qed.

(** The length prefix of a block reads back as the message length. *)
Lemma read_message_length_block msg post :
  Z.of_nat (length msg) < 2 ^ 16 ->
  read_message_length (message_block msg ++ post) = Z.of_nat (length msg).
Proof.
  intros Hlen. unfold read_message_length, message_block. cbn [app].
  rewrite read_be16_bytes, !byte_of_Z_mask, !byte_to_of_Z.
  rewrite Z.shiftr_div_pow2 by lia. change (2 ^ 8) with 256.
  unfold u16. rewrite (Z.mod_small _ (2 ^ 16)) by lia.
  set (L := Z.of_nat (length msg)) in *.
  assert (0 <= L / 256 < 256)
    by (split; [apply Z.div_pos; lia | apply Z.div_lt_upper_bound; lia]).
  rewrite (Z.mod_small (L / 256)) by lia.
  pose proof (Z.div_mod L 256). lia.
Qed.

Lemma length_message_block msg : length (message_block msg) = (2 + length msg)%nat.
Proof. reflexivity. Qed.

(** One turn of the loop over a complete block. *)
Lemma dispatch_messages_block pre msg post n seq received :
  Z.of_nat (length msg) < 2 ^ 16 ->
  let data := pre ++ message_block msg ++ post in
  dispatch_messages data (Z.of_nat (length data)) (S n)
    (Z.of_nat (length pre)) seq received
  = let '(evs, received') :=
      dispatch_messages data (Z.of_nat (length data)) n
        (Z.of_nat (length (pre ++ message_block msg)))
        (u64 (seq + 1)) (u64 (received + 1)) in
    (MessageCallback msg (Z.of_nat (length msg)) seq :: evs, received').
Proof.
  intros Hlen data. cbn [dispatch_messages].
  assert (Hdl : Z.of_nat (length data)
                = Z.of_nat (length pre) + 2 + Z.of_nat (length msg)
                  + Z.of_nat (length post)).
  { subst data. rewrite !length_app, length_message_block. lia. }
  unfold sizeof_MessageBlock.
  destruct (Z.of_nat (length pre) + 2 >? Z.of_nat (length data)) eqn:E1.
  { rewrite Z.gtb_ltb in E1. apply Z.ltb_lt in E1. lia. }
  rewrite Nat2Z.id.
  assert (Hdrop : drop (length pre) data = message_block msg ++ post).
  { subst data. apply drop_app_length. }
  rewrite Hdrop, read_message_length_block by exact Hlen.
  destruct (Z.of_nat (length pre) + 2 + Z.of_nat (length msg)
            >? Z.of_nat (length data)) eqn:E2.
  { rewrite Z.gtb_ltb in E2. apply Z.ltb_lt in E2. lia. }
  replace (Z.to_nat (Z.of_nat (length pre) + 2)) with (length pre + 2)%nat by lia.
  assert (Htake : take (Z.to_nat (Z.of_nat (length msg)))
                       (drop (length pre + 2) data) = msg).
  { rewrite Nat2Z.id. rewrite <- drop_drop, Hdrop.
    unfold message_block. cbn [app drop skipn].
    apply take_app_length. }
  rewrite Htake.
  replace (Z.of_nat (length pre) + 2 + Z.of_nat (length msg))
    with (Z.of_nat (length (pre ++ message_block msg)))
    by (rewrite length_app, length_message_block; lia).
  reflexivity.
Qed.

(** A turn of the loop that meets a truncated block stops the loop. *)
Lemma dispatch_messages_truncated pre tail n seq received :
  truncated_block tail ->
  let data := pre ++ tail in
  dispatch_messages data (Z.of_nat (length data)) n
    (Z.of_nat (length pre)) seq received = ([], received).
Proof.
  intros Htr data. destruct n as [|n]; [reflexivity|].
  cbn [dispatch_messages]. unfold sizeof_MessageBlock.
  assert (Hdl : Z.of_nat (length data)
                = Z.of_nat (length pre) + Z.of_nat (length tail)).
  { subst data. rewrite length_app. lia. }
  destruct Htr as [Hshort | (hi & lo & body & -> & Hbody)].
  - replace (Z.of_nat (length pre) + 2 >? Z.of_nat (length data)) with true;
      [reflexivity|].
    symmetry. rewrite Z.gtb_ltb. apply Z.ltb_lt. lia.
  - cbn [length] in Hdl.
    destruct (Z.of_nat (length pre) + 2 >? Z.of_nat (length data));
      [reflexivity|].
    rewrite Nat2Z.id.
    assert (Hdrop : drop (length pre) data = hi :: lo :: body).
    { subst data. apply drop_app_length. }
    rewrite Hdrop. unfold read_message_length. rewrite read_be16_bytes.
    replace (Z.of_nat (length pre) + 2 + (256 * byte_to_Z hi + byte_to_Z lo)
             >? Z.of_nat (length data)) with true; [reflexivity|].
    symmetry. rewrite Z.gtb_ltb. apply Z.ltb_lt. lia.
Qed.

(** Several complete blocks in a row: the loop dispatches them in order,
    numbered from [seq], and goes on behind them. *)
Lemma dispatch_messages_blocks msgs :
  forall data pre post n seq received,
  data = pre ++ concat (map message_block msgs) ++ post ->
  Forall (fun msg => Z.of_nat (length msg) < 2 ^ 16) msgs ->
  0 <= seq -> seq + Z.of_nat (length msgs) < 2 ^ 64 ->
  exists received',
  dispatch_messages data (Z.of_nat (length data)) (length msgs + n)
    (Z.of_nat (length pre)) seq received
  = let '(evs, r) :=
      dispatch_messages data (Z.of_nat (length data)) n
        (Z.of_nat (length (pre ++ concat (map message_block msgs))))
        (u64 (seq + Z.of_nat (length msgs))) received' in
    (messages_in_order msgs seq ++ evs, r).
Proof.
  induction msgs as [|msg msgs IH]; intros data pre post n seq received
    Hdata Hsmall Hseq Hfit.
  - exists received. cbn [length map concat Nat.add messages_in_order app].
    rewrite app_nil_r, Z.add_0_r, u64_small by (cbn [length Z.of_nat] in Hfit; lia).
    destruct (dispatch_messages _ _ _ _ _ _). reflexivity.
  - inversion Hsmall as [|? ? Hmsg Hrest]; subst.
    cbn [length map concat] in *.
    rewrite Nat2Z.inj_succ in Hfit.
    destruct (IH (pre ++ message_block msg ++ concat (map message_block msgs) ++ post)
                 (pre ++ message_block msg) post n (u64 (seq + 1))
                 (u64 (received + 1))) as [received' IH'].
    + rewrite <- !app_assoc. reflexivity.
    + exact Hrest.
    + apply u64_range.
    + rewrite u64_small by lia. lia.
    + exists received'. cbn [Nat.add]. rewrite Nat2Z.inj_succ.
      pose proof (dispatch_messages_block pre msg
                    (concat (map message_block msgs) ++ post)
                    (length msgs + n) seq received Hmsg) as Hstep.
      cbv zeta in Hstep. rewrite <- !app_assoc in *.
      rewrite Hstep, IH'.
      rewrite (u64_small (seq + 1)) by lia.
      replace (seq + 1 + Z.of_nat (length msgs))
        with (seq + Z.succ (Z.of_nat (length msgs))) by lia.
      clear Hstep IH'. rewrite <- ?app_assoc.
      match goal with
      | |- context [dispatch_messages ?a ?b n ?c ?d ?e] =>
          destruct (dispatch_messages a b n c d e)
      end.
      reflexivity.
Qed.

(** [memcmp] of a block with itself. *)
Lemma memcmp_refl a n : memcmp a a n = 0.
Proof.
  revert a. induction n as [|n IH]; intros [|x a]; cbn [memcmp]; try reflexivity.
  rewrite Z.eqb_refl. apply IH.
Qed.

(** [memcmp] tells blocks of the compared size apart. *)
Lemma memcmp_zero a b n :
  (n <= length a)%nat -> (n <= length b)%nat ->
  memcmp a b n = 0 -> take n a = take n b.
Proof.
  revert a b. induction n as [|n IH]; intros a b Ha Hb H; [reflexivity|].
  destruct a as [|x a]; [cbn in Ha; lia|].
  destruct b as [|y b]; [cbn in Hb; lia|].
  cbn [memcmp] in H. cbn [length] in Ha, Hb.
  destruct (byte_to_Z x =? byte_to_Z y) eqn:E.
  - apply Z.eqb_eq, byte_to_Z_inj in E. subst y.
    cbn [take firstn]. f_equal. apply IH; [lia | lia | exact H].
  - apply Z.eqb_neq in E. lia.
Qed.

Lemma vector_empty_push_back {A} (v : list A) x : vector_empty (v ++ [x]) = false.
Proof. destruct v; reflexivity. Qed.

(** The loop of [process_packet] over a packet of [create_moldudp_packet]
    whose blocks are all there, or whose blocks stop short of the declared
    count at a truncated one: the complete blocks are dispatched in order,
    numbered from [seq]. *)
Lemma dispatch_messages_packet sid seq n msgs tail received :
  Forall (fun msg => Z.of_nat (length msg) < 2 ^ 16) msgs ->
  0 <= seq -> seq + Z.of_nat (length msgs) < 2 ^ 64 ->
  n = Z.of_nat (length msgs) \/
  (Z.of_nat (length msgs) < n /\ truncated_block tail) ->
  let data := create_moldudp_packet sid seq n msgs ++ tail in
  exists received',
    dispatch_messages data (Z.of_nat (length data)) (Z.to_nat n)
      get_messages_offset seq received
    = (messages_in_order msgs seq, received').
Proof.
  intros Hsmall Hseq Hfit Hshape data.
  set (pre := session_field sid ++ store_le 8 (hton64 seq)
              ++ store_le 2 (hton16 n)).
  assert (Hpre : Z.of_nat (length pre) = get_messages_offset).
  { subst pre. rewrite !length_app, !length_store_le, length_session_field.
    reflexivity. }
  assert (Hdata : data = pre ++ concat (map message_block msgs) ++ tail).
  { subst data pre. rewrite create_moldudp_packet_split, <- !app_assoc.
    reflexivity. }
  assert (Hn : exists k, Z.to_nat n = (length msgs + k)%nat
                         /\ (k = O \/ truncated_block tail)).
  { destruct Hshape as [-> | [Hlt Htr]].
    - exists O. rewrite Nat2Z.id. split; [lia | left; reflexivity].
    - exists (Z.to_nat n - length msgs)%nat. split; [lia | right; exact Htr]. }
  destruct Hn as (k & -> & Hk).
  destruct (dispatch_messages_blocks msgs data pre tail k seq received
              Hdata Hsmall Hseq Hfit) as [received' Hd].
  rewrite <- Hpre, Hd. exists received'.
  destruct Hk as [-> | Htr].
  - cbn [dispatch_messages]. rewrite app_nil_r. reflexivity.
  - pose proof (dispatch_messages_truncated
                  (pre ++ concat (map message_block msgs)) tail k
                  (u64 (seq + Z.of_nat (length msgs))) received' Htr) as Ht.
    cbv zeta in Ht. rewrite <- app_assoc, <- Hdata in Ht.
    rewrite Ht, app_nil_r. reflexivity.
Qed.

End SessionFacts.

(** ** The session decoder: what [process_packet] does with a data packet *)

Module DecoderFacts.
Import Endian EndianFacts Moldudp64 SessionFacts.

(** Reading members of a session after assignments to members. *)
Ltac session_simpl :=
  cbn [with_state with_session_id with_gaps_detected with_pending_gaps
       with_messages_received with_expected_sequence with_packets_received
       with_heartbeats_received set_gap_callback set_message_callback
       state_ session_id_ expected_sequence_ pending_gaps_
       packets_received_ messages_received_ gaps_detected_
       heartbeats_received_ gap_callback_ message_callback_
       session sequence_number message_count
       result events session_after SessionState_eqb andb negb] in *.

(** A data packet made by [create_moldudp_packet] (neither a heartbeat nor
    an end-of-session packet, sequence numbers within 64 bits), all blocks
    present or cut at a truncated block, given to a decoder that is fresh or
    has adopted the packet's session. *)
Lemma process_packet_data (s : Session) sid seq n msgs tail :
  state_ s = Unknown \/ session_id_ s = session_field sid ->
  0 <= expected_sequence_ s ->
  0 <= seq < 2 ^ 64 - 1 -> 0 <= n < 2 ^ 16 -> seq + n < 2 ^ 64 ->
  0 < seq \/ 0 < n ->
  Forall (fun msg => Z.of_nat (length msg) < 2 ^ 16) msgs ->
  n = Z.of_nat (length msgs) \/
  (Z.of_nat (length msgs) < n /\ truncated_block tail) ->
  let o := process_packet s (create_moldudp_packet sid seq n msgs ++ tail) in
  let expected := expected_sequence_ s in
  let gaps' :=
    if seq >? expected then pending_gaps_ s ++ [gap_before expected seq]
    else if seq <? expected
         then check_gap_fill seq (u64 (seq + n - 1)) (pending_gaps_ s)
         else pending_gaps_ s in
  result o = true /\
  events o
  = (if (seq >? expected) && gap_callback_ s
     then [GapCallback (gap_before expected seq)] else [])
    ++ (if message_callback_ s then messages_in_order msgs seq else []) /\
  pending_gaps_ (session_after o) = gaps' /\
  expected_sequence_ (session_after o) = Z.max expected (seq + n) /\
  state_ (session_after o)
  = (if seq >? expected then Stale
     else match state_ s with
          | Unknown => Active
          | Stale => if vector_empty gaps' then Active else Stale
          | st => st
          end) /\
  gaps_detected_ (session_after o)
  = (if seq >? expected then u64 (gaps_detected_ s + 1) else gaps_detected_ s) /\
  session_id_ (session_after o) = session_field sid /\
  gap_callback_ (session_after o) = gap_callback_ s /\
  message_callback_ (session_after o) = message_callback_ s.
Proof.
  intros Hsid Hexp Hseq Hn Hfit Hdata Hsmall Hshape o expected gaps'.
  assert (Hmsgs : seq + Z.of_nat (length msgs) < 2 ^ 64) by (destruct Hshape; lia).
  destruct (dispatch_messages_packet sid seq n msgs tail (messages_received_ s)
              Hsmall ltac:(lia) Hmsgs Hshape) as [received' Hd].
  cbv zeta in Hd.
  pose proof (parse_create_moldudp_packet sid seq n msgs tail
                ltac:(lia) Hn) as Hparse.
  subst o. unfold process_packet.
  remember (create_moldudp_packet sid seq n msgs ++ tail) as data eqn:Edata.
  rewrite Hparse. clear Hparse Edata.
  assert (Hhb : is_heartbeat {| session := session_field sid;
                                sequence_number := seq;
                                message_count := n |} = false).
  { unfold is_heartbeat, HEARTBEAT_SEQUENCE. cbn [sequence_number message_count].
    destruct Hdata; [replace (seq =? 0) with false by (symmetry; apply Z.eqb_neq; lia)
                    | replace (n =? 0) with false by (symmetry; apply Z.eqb_neq; lia)];
      [reflexivity | apply andb_false_r]. }
  assert (Heos : is_end_of_session {| session := session_field sid;
                                      sequence_number := seq;
                                      message_count := n |} = false).
  { unfold is_end_of_session, END_OF_SESSION. cbn [sequence_number].
    apply Z.eqb_neq. lia. }
  rewrite Hhb, Heos. clear Hhb Heos.
  assert (Hnext : u64 (seq + n) = seq + n) by (apply u64_small; lia).
  assert (Hend : u64 (seq - 1) = seq - 1 \/ seq = 0).
  { destruct (Z.eq_dec seq 0); [right; assumption | left; apply u64_small; lia]. }
  destruct s as [sid0 exp st gaps pr mr gd hb gcb mcb].
  session_simpl. subst expected gaps'.
  rewrite Hnext.
  assert (Hcmp : st = Unknown \/ memcmp sid0 (session_field sid) 10 = 0).
  { destruct Hsid as [-> | ->]; [left; reflexivity | right; apply memcmp_refl]. }
  destruct st; session_simpl;
    try (destruct Hcmp as [Hcmp | Hcmp]; [discriminate Hcmp | rewrite Hcmp];
         destruct Hsid as [Hsid | Hsid]; [discriminate Hsid | subst sid0];
         change (0 =? 0) with true; session_simpl);
    destruct (Z.gtb_spec seq exp) as [Egt | Egt]; session_simpl;
    try (destruct Hend as [Hend | Hend]; [rewrite Hend | lia]);
    try destruct (Z.ltb_spec seq exp) as [Elt | Elt]; session_simpl;
    destruct mcb; rewrite ?Hd; session_simpl;
    destruct (Z.gtb_spec (seq + n) exp) as [Eup | Eup]; session_simpl;
    rewrite ?vector_empty_push_back; session_simpl;
    try match goal with
        | |- context [vector_empty ?v] => destruct (vector_empty v)
        end;
    session_simpl; unfold gap_before; destruct gcb;
    repeat split; try reflexivity; try lia.
Qed.

End DecoderFacts.

(** ** Gaps and truncated packets *)

Module GapFacts.
Import Endian EndianFacts Moldudp64 SessionFacts DecoderFacts.

Lemma length_messages_in_order msgs seq :
  length (messages_in_order msgs seq) = length msgs.
Proof.
  revert seq. induction msgs as [|m msgs IH]; intros seq; cbn; [|rewrite IH];
    reflexivity.
Qed.

(** C1, as the claim states it, fails when the second packet's sequence
    number is the end-of-session marker 2^64 - 1 (c1 = 1, g = 2^64 - 3,
    c2 = 1): no gap is recorded or reported, no message is dispatched and
    the state is EndOfSession, not Stale. *)
Lemma C1_counterexample :
  let c1 := 1 in
  let g := 2 ^ 64 - 3 in
  let s0 := set_message_callback (set_gap_callback Session_default true) true in
  let o1 := process_packet s0 (create_moldudp_packet NASDAQ 1 c1 [fake_message]) in
  let o2 := process_packet (session_after o1)
              (create_moldudp_packet NASDAQ (c1 + g + 1) 1 [fake_message]) in
  1 <= g /\ result o1 = true /\ result o2 = true /\
  pending_gaps_ (session_after o2) = [] /\
  events o2 = [] /\
  state_ (session_after o2) = EndOfSession /\
  state_ (session_after o2) <> Stale /\
  expected_sequence_ (session_after o2) <> c1 + g + 1 + 1.
Proof.
  vm_compute. repeat split; try reflexivity; discriminate.
Qed.

(** C1, amended: from a freshly constructed decoder (with or without the
    callbacks installed), a complete packet (seq = 1, count = c1 > 0) and
    then a complete packet of the same session (seq = c1+g+1, count = c2)
    with g >= 1, c1+g+1 < 2^64 - 1 (not the end-of-session marker) and
    c1+g+1+c2 < 2^64 (no wrap-around) leave exactly one gap in the pending
    list, [c1+1, c1+g]; the second call reports that gap through the gap
    callback (when installed) and then dispatches its c2 messages in wire
    order, numbered from c1+g+1 (when the message callback is installed);
    the state is Stale and expected_sequence is c1+g+1+c2. *)
Theorem C1_gap_then_messages
    (sid0 sid : list byte) (gcb mcb : bool) (c1 g c2 : Z)
    (msgs1 msgs2 : list (list byte)) :
  c1 = Z.of_nat (length msgs1) -> c2 = Z.of_nat (length msgs2) ->
  0 < c1 < 2 ^ 16 -> c2 < 2 ^ 16 -> 1 <= g ->
  c1 + g + 1 < 2 ^ 64 - 1 -> c1 + g + 1 + c2 < 2 ^ 64 ->
  Forall (fun msg => Z.of_nat (length msg) < 2 ^ 16) msgs1 ->
  Forall (fun msg => Z.of_nat (length msg) < 2 ^ 16) msgs2 ->
  let s0 := set_message_callback (set_gap_callback (Session_new sid0) gcb) mcb in
  let o1 := process_packet s0 (create_moldudp_packet sid 1 c1 msgs1) in
  let o2 := process_packet (session_after o1)
              (create_moldudp_packet sid (c1 + g + 1) c2 msgs2) in
  let gap := {| start := c1 + 1; end_ := c1 + g; detected_at_ns := 0 |} in
  result o1 = true /\ result o2 = true /\
  events o1 = (if mcb then messages_in_order msgs1 1 else []) /\
  pending_gaps_ (session_after o2) = [gap] /\
  gaps_detected_ (session_after o2) = 1 /\
  events o2 = (if gcb then [GapCallback gap] else [])
              ++ (if mcb then messages_in_order msgs2 (c1 + g + 1) else []) /\
  state_ (session_after o2) = Stale /\
  expected_sequence_ (session_after o2) = c1 + g + 1 + c2.
Proof.
  intros Hc1 Hc2 Hr1 Hr2 Hg Hseq Hfit Hsmall1 Hsmall2 s0 o1 o2 gap.
  pose proof (process_packet_data s0 sid 1 c1 msgs1 []) as H1.
  rewrite app_nil_r in H1. cbv zeta in H1. fold o1 in H1.
  destruct H1 as (R1 & E1 & G1 & X1 & S1 & D1 & I1 & GC1 & MC1);
    [left; reflexivity | cbn; lia | lia | lia | lia | lia | exact Hsmall1
    | left; exact Hc1 |].
  subst s0. cbn [set_message_callback set_gap_callback Session_new
                 expected_sequence_ pending_gaps_ state_ gaps_detected_
                 gap_callback_ message_callback_] in *.
  change (1 >? 1) with false in *. change (1 <? 1) with false in *.
  cbn [andb app] in *.
  pose proof (process_packet_data (session_after o1) sid (c1 + g + 1) c2
                msgs2 []) as H2.
  rewrite app_nil_r in H2. cbv zeta in H2. fold o2 in H2.
  rewrite X1, G1, S1, D1, GC1, MC1 in H2.
  replace (Z.max 1 (1 + c1)) with (c1 + 1) in H2 by lia.
  replace (c1 + g + 1 >? c1 + 1) with true in H2
    by (symmetry; apply Z.gtb_lt; lia).
  destruct H2 as (R2 & E2 & G2 & X2 & S2 & D2 & _);
    [right; exact I1 | lia | lia | lia | lia | lia | exact Hsmall2
    | left; exact Hc2 |].
  unfold gap_before in *.
  replace (c1 + g + 1 - 1) with (c1 + g) in * by lia.
  cbn [app andb] in *.
  repeat split; try assumption.
  rewrite X2. lia.
Qed.

Lemma C1_gap_then_messages_witness :
  let s0 := set_message_callback (set_gap_callback Session_default true) true in
  let o1 := process_packet s0 (create_moldudp_packet NASDAQ 1 1 [fake_message]) in
  let o2 := process_packet (session_after o1)
              (create_moldudp_packet NASDAQ 5 1 [fake_message]) in
  let gap := {| start := 2; end_ := 4; detected_at_ns := 0 |} in
  pending_gaps_ (session_after o2) = [gap] /\
  events o2 = [GapCallback gap; MessageCallback fake_message 3 5] /\
  state_ (session_after o2) = Stale /\
  expected_sequence_ (session_after o2) = 6.
Proof.
  destruct (C1_gap_then_messages (repeat x00 10) NASDAQ true true 1 3 1
              [fake_message] [fake_message])
    as (_ & _ & _ & H4 & _ & H6 & H7 & H8).
  - reflexivity.
  - reflexivity.
  - lia.
  - lia.
  - lia.
  - lia.
  - lia.
  - repeat constructor.
  - repeat constructor.
  - split; [exact H4 | split; [exact H6 | split; [exact H7 | exact H8]]].
Defined.

(** C6, as the claim states it, fails: a fresh decoder with the message
    callback installed is given an in-order packet (seq = 1) that declares
    two messages and holds one complete block; one message is dispatched
    and expected_sequence goes from 1 to 3, not to 2. *)
Lemma C6_counterexample :
  let s := set_message_callback Session_default true in
  let o := process_packet s (create_moldudp_packet NASDAQ 1 2 [fake_message]) in
  expected_sequence_ s = 1 /\
  events o = [MessageCallback fake_message 3 1] /\
  expected_sequence_ (session_after o) = 3 /\
  expected_sequence_ (session_after o)
    <> expected_sequence_ s + Z.of_nat (length (events o)).
Proof.
  vm_compute. repeat split; try reflexivity; discriminate.
Qed.

(** C6, amended: an in-order packet (sequence number equal to
    expected_sequence, declared count N, no wrap-around of seq + N) whose
    first k < N blocks are complete and whose next block is truncated makes
    [process_packet] dispatch exactly those k messages, in order, and
    advance expected_sequence by the declared count N. *)
Theorem C6_truncated_packet_declared_count
    (s : Session) (sid : list byte) (N : Z) (msgs : list (list byte))
    (tail : list byte) :
  let seq := expected_sequence_ s in
  state_ s = Unknown \/ session_id_ s = session_field sid ->
  message_callback_ s = true ->
  0 <= seq -> seq + N < 2 ^ 64 -> N < 2 ^ 16 ->
  Z.of_nat (length msgs) < N ->
  truncated_block tail ->
  Forall (fun msg => Z.of_nat (length msg) < 2 ^ 16) msgs ->
  let o := process_packet s (create_moldudp_packet sid seq N msgs ++ tail) in
  result o = true /\
  events o = messages_in_order msgs seq /\
  length (events o) = length msgs /\
  expected_sequence_ (session_after o) = seq + N.
Proof.
  intros seq Hsid Hmcb Hseq Hfit HN Hk Htail Hsmall o.
  destruct (process_packet_data s sid seq N msgs tail)
    as (R & E & _ & X & _); try assumption; try lia.
  { right. split; assumption. }
  fold o in R, E, X. fold seq in E, X.
  assert (Hgt : (seq >? seq) = false)
    by (rewrite Z.gtb_ltb; apply Z.ltb_irrefl).
  rewrite Hgt, Hmcb in E. cbn [andb app] in E.
  repeat split; try assumption.
  - rewrite E. apply length_messages_in_order.
  - rewrite X. lia.
Qed.

Lemma C6_truncated_packet_declared_count_witness :
  let s := set_message_callback Session_default true in
  let o := process_packet s (create_moldudp_packet NASDAQ 1 2 [fake_message] ++ []) in
  events o = [MessageCallback fake_message 3 1] /\
  expected_sequence_ (session_after o) = 1 + 2.
Proof.
  destruct (C6_truncated_packet_declared_count
              (set_message_callback Session_default true) NASDAQ 2
              [fake_message] [])
    as (_ & H2 & _ & H4).
  - left. reflexivity.
  - reflexivity.
  - cbn. lia.
  - cbn. lia.
  - lia.
  - cbn. lia.
  - left. cbn. lia.
  - repeat constructor.
  - split; [exact H2 | exact H4].
Defined.

End GapFacts.

(** ** Heartbeats, terminal states and the gap invariant *)

Module StateFacts.
Import Endian EndianFacts Moldudp64 SessionFacts DecoderFacts GapFacts.

Lemma reachable_run s packets : reachable s -> reachable (run s packets).
Proof.
  revert s. induction packets as [|p ps IH]; intros s Hs; [exact Hs|].
  cbn [run fold_left]. apply IH. apply reachable_packet. exact Hs.
Qed.

(** C8, as the claim states it, fails on a freshly constructed decoder: a
    heartbeat is then the first packet and moves the state from Unknown to
    Active. *)
Lemma C8_counterexample :
  let s := Session_default in
  let o := process_packet s heartbeat_packet in
  (exists header, parse heartbeat_packet = Some header /\
                  is_heartbeat header = true) /\
  state_ s = Unknown /\
  state_ (session_after o) = Active /\
  state_ (session_after o) <> state_ s.
Proof.
  split; [eexists; split; [vm_compute; reflexivity | vm_compute; reflexivity]|].
  vm_compute. repeat split; try reflexivity; discriminate.
Qed.

(** C8, amended: a heartbeat packet (sequence 0, count 0) given to a
    decoder that has adopted a session (state not Unknown) whose identifier
    compares equal to the packet's leaves the session state,
    expected_sequence and the pending gap list unchanged and increments
    heartbeats_received by one (a 64-bit counter); given to a decoder in
    state Unknown it is the first packet: the state becomes Active and the
    identifier is adopted, expected_sequence and the gap list are
    unchanged and the heartbeat is counted. *)
Theorem C8_heartbeat_frame (s : Session) (data : list byte) (header : Header) :
  parse data = Some header ->
  is_heartbeat header = true ->
  let o := process_packet s data in
  let s' := session_after o in
  (state_ s <> Unknown ->
   memcmp (session_id_ s) (session header) 10 = 0 ->
   result o = true /\ events o = [] /\
   state_ s' = state_ s /\
   expected_sequence_ s' = expected_sequence_ s /\
   pending_gaps_ s' = pending_gaps_ s /\
   heartbeats_received_ s' = u64 (heartbeats_received_ s + 1)) /\
  (state_ s = Unknown ->
   result o = true /\ events o = [] /\
   state_ s' = Active /\ session_id_ s' = session header /\
   expected_sequence_ s' = expected_sequence_ s /\
   pending_gaps_ s' = pending_gaps_ s /\
   heartbeats_received_ s' = u64 (heartbeats_received_ s + 1)).
Proof.
  intros Hparse Hhb o s'. subst s' o. unfold process_packet.
  rewrite Hparse. destruct s as [sid0 exp st gaps pr mr gd hb gcb mcb].
  session_simpl. split.
  - intros Hst Hcmp. rewrite Hcmp. change (0 =? 0) with true.
    destruct st; try (exfalso; apply Hst; reflexivity);
      session_simpl; rewrite Hhb; session_simpl; repeat split; reflexivity.
  - intros ->. session_simpl. rewrite Hhb. session_simpl.
    repeat split; reflexivity.
Qed.

Lemma C8_heartbeat_frame_witness :
  let s := session_after (process_packet Session_default packet_1) in
  let s' := session_after (process_packet s heartbeat_packet) in
  state_ s' = state_ s /\
  expected_sequence_ s' = expected_sequence_ s /\
  pending_gaps_ s' = pending_gaps_ s /\
  heartbeats_received_ s' = u64 (heartbeats_received_ s + 1).
Proof.
  destruct (C8_heartbeat_frame
              (session_after (process_packet Session_default packet_1))
              heartbeat_packet
              {| session := session_field NASDAQ; sequence_number := 0;
                 message_count := 0 |})
    as [H _].
  - vm_compute. reflexivity.
  - reflexivity.
  - destruct H as (_ & _ & H3 & H4 & H5 & H6).
    + vm_compute. discriminate.
    + vm_compute. reflexivity.
    + split; [exact H3 | split; [exact H4 | split; [exact H5 | exact H6]]].
Defined.

(** C4, as the claim states it, fails: after an end-of-session packet the
    state is EndOfSession, and a later packet of the same session with a
    sequence number above the expected one changes it to Stale. *)
Lemma C4_counterexample :
  let s1 := run Session_default [end_of_session_packet] in
  let s2 := session_after (process_packet s1 packet_5) in
  reachable s1 /\ state_ s1 = EndOfSession /\ state_ s2 = Stale /\
  state_ s2 <> state_ s1.
Proof.
  split; [apply reachable_run, reachable_new|].
  vm_compute. repeat split; try reflexivity; discriminate.
Qed.

(** The session state after a call made in state EndOfSession or Error:
    nothing in [process_packet] tests for these two states. *)
Lemma settled_state_step (s : Session) (data : list byte) :
  state_ s = EndOfSession \/ state_ s = Error ->
  let s' := session_after (process_packet s data) in
  match parse data with
  | None => state_ s' = state_ s
  | Some header =>
      if negb (memcmp (session_id_ s) (session header) 10 =? 0)
      then state_ s' = Error
      else if is_heartbeat header then state_ s' = state_ s
      else if is_end_of_session header then state_ s' = EndOfSession
      else if sequence_number header >? expected_sequence_ s
           then state_ s' = Stale
           else state_ s' = state_ s
  end /\
  state_ s' <> Unknown /\ state_ s' <> Active.
Proof.
  intros Hst s'. subst s'. unfold process_packet.
  destruct s as [sid0 exp st gaps pr mr gd hb gcb mcb]. session_simpl.
  destruct (parse data) as [header|];
    [|destruct Hst as [-> | ->]; session_simpl; repeat split; discriminate].
  destruct Hst as [-> | ->]; session_simpl;
    destruct (memcmp sid0 (session header) 10 =? 0); session_simpl;
    try (repeat split; discriminate);
    destruct (is_heartbeat header); session_simpl;
    try (repeat split; discriminate);
    destruct (is_end_of_session header); session_simpl;
    try (repeat split; discriminate);
    destruct (sequence_number header >? exp); session_simpl;
    try destruct (sequence_number header <? exp); session_simpl;
    destruct mcb; session_simpl;
    try match goal with
        | |- context [dispatch_messages ?a ?b ?c ?d ?e ?f] =>
            destruct (dispatch_messages a b c d e f)
        end;
    session_simpl;
    match goal with
    | |- context [?a >? exp] => destruct (a >? exp)
    end;
    session_simpl;
    try rewrite vector_empty_push_back; session_simpl;
    repeat split; discriminate.
Qed.

(** C4, amended: EndOfSession is not absorbing in the decoder.  From a
    state whose session state is EndOfSession, a call of [process_packet]
    leaves the session state as it is, except that a packet whose
    identifier differs from the adopted one sets Error and a packet of the
    session (neither heartbeat nor end of session) whose sequence number
    is above expected_sequence sets Stale; the call never yields Unknown or
    Active. *)
Theorem C4_end_of_session_step (s : Session) (data : list byte) :
  state_ s = EndOfSession ->
  let s' := session_after (process_packet s data) in
  match parse data with
  | None => state_ s' = EndOfSession
  | Some header =>
      if negb (memcmp (session_id_ s) (session header) 10 =? 0)
      then state_ s' = Error
      else if is_heartbeat header then state_ s' = EndOfSession
      else if is_end_of_session header then state_ s' = EndOfSession
      else if sequence_number header >? expected_sequence_ s
           then state_ s' = Stale
           else state_ s' = EndOfSession
  end /\
  state_ s' <> Unknown /\ state_ s' <> Active.
Proof.
  intros Hst s'.
  pose proof (settled_state_step s data (or_introl Hst)) as H.
  cbv zeta in H. fold s' in H. rewrite Hst in H. exact H.
Qed.

Lemma C4_end_of_session_step_witness :
  let s1 := run Session_default [end_of_session_packet] in
  state_ (session_after (process_packet s1 heartbeat_packet)) = EndOfSession /\
  state_ (session_after (process_packet s1 packet_1)) = EndOfSession /\
  state_ (session_after (process_packet s1 packet_5)) = Stale.
Proof.
  pose proof (C4_end_of_session_step
                (run Session_default [end_of_session_packet])) as H.
  split; [|split].
  - destruct (H heartbeat_packet) as [H1 _]; [reflexivity|].
    exact H1.
  - destruct (H packet_1) as [H1 _]; [reflexivity|].
    exact H1.
  - destruct (H packet_5) as [H1 _]; [reflexivity|].
    exact H1.
Defined.

(** The same from Error, which the enumeration documents as
    "Unrecoverable error": a later packet of the adopted session is
    processed as usual, and one with a sequence number above
    expected_sequence sets Stale. *)
Lemma error_state_step (s : Session) (data : list byte) (header : Header) :
  state_ s = Error ->
  parse data = Some header ->
  memcmp (session_id_ s) (session header) 10 = 0 ->
  is_heartbeat header = false -> is_end_of_session header = false ->
  state_ (session_after (process_packet s data))
  = if sequence_number header >? expected_sequence_ s then Stale else Error.
Proof.
  intros Hst Hparse Hcmp Hhb Heos.
  pose proof (settled_state_step s data (or_intror Hst)) as [H _].
  rewrite Hparse, Hcmp, Hhb, Heos, Hst in H. cbn [Z.eqb negb] in H.
  destruct (sequence_number header >? expected_sequence_ s); exact H.
Qed.

Lemma vector_empty_true {A} (v : list A) : vector_empty v = true -> v = [].
Proof. destruct v; [reflexivity | discriminate]. Qed.

Lemma vector_empty_false {A} (v : list A) : vector_empty v = false -> v <> [].
Proof. destruct v; [discriminate | intros _ H; discriminate H]. Qed.

Lemma push_back_not_nil {A} (v : list A) x : v ++ [x] <> [].
Proof. destruct v; discriminate. Qed.

Lemma gaps_inv_process_packet s data :
  gaps_inv s -> gaps_inv (session_after (process_packet s data)).
Proof.
  unfold gaps_inv, process_packet.
  destruct s as [sid0 exp st gaps pr mr gd hb gcb mcb]. session_simpl.
  intros [Hclean Hstale].
  destruct (parse data) as [header|]; session_simpl; [|split; assumption].
  assert (Hfill : forall a b, st = Unknown \/ st = Active ->
                              check_gap_fill a b gaps = []).
  { intros a b H. rewrite (Hclean H). reflexivity. }
  destruct st; session_simpl;
    try destruct (memcmp sid0 (session header) 10 =? 0); session_simpl;
    try (split; [intros [H|H]; discriminate H | intros H; discriminate H]);
    destruct (is_heartbeat header); session_simpl;
    try (split; [intros [H|H]; discriminate H | intros H; discriminate H]);
    try (split; [intros _; apply Hclean; auto | intros H; discriminate H]);
    try (split; [intros [H|H]; discriminate H | intros _; apply Hstale; reflexivity]);
    destruct (is_end_of_session header); session_simpl;
    try (split; [intros [H|H]; discriminate H | intros H; discriminate H]);
    destruct (sequence_number header >? exp); session_simpl;
    try destruct (sequence_number header <? exp); session_simpl;
    destruct mcb; session_simpl;
    try match goal with
        | |- context [dispatch_messages ?a ?b ?c ?d ?e ?f] =>
            destruct (dispatch_messages a b c d e f)
        end;
    session_simpl;
    match goal with
    | |- context [?a >? exp] => destruct (a >? exp)
    end;
    session_simpl;
    rewrite ?vector_empty_push_back; session_simpl;
    try match goal with
        | |- context [vector_empty ?v] =>
            let E := fresh "E" in
            destruct (vector_empty v) eqn:E;
            [apply vector_empty_true in E | apply vector_empty_false in E]
        end;
    session_simpl;
    (split;
     [ intros [H|H]; try discriminate H;
       first [assumption | apply Hfill; auto | apply Hclean; auto]
     | intros H; try discriminate H;
       first [assumption | apply push_back_not_nil | apply Hstale; reflexivity] ]).
Qed.

Lemma reachable_gaps_inv s : reachable s -> gaps_inv s.
Proof.
  induction 1 as [sid | s data _ IH | s b _ IH | s b _ IH].
  - split; [reflexivity | discriminate].
  - apply gaps_inv_process_packet. exact IH.
  - exact IH.
  - exact IH.
Qed.

(** C3, as the claim states it, fails: a gap is detected, then the
    end-of-session packet arrives; the gap is still pending and has_gaps()
    is true, but the state is EndOfSession, not Stale. *)
Lemma C3_counterexample :
  let s := run Session_default [packet_1; packet_5; end_of_session_packet] in
  reachable s /\ has_gaps s = true /\ pending_gaps_ s <> [] /\
  state_ s = EndOfSession /\ state_ s <> Stale.
Proof.
  split; [apply reachable_run, reachable_new|].
  vm_compute. repeat split; try reflexivity; discriminate.
Qed.

(** C3, amended: in every state reachable from a fresh decoder by calls of
    [process_packet], has_gaps() is true exactly when the pending gap list
    is non-empty; when the state is Stale the list is non-empty; and when
    the list is non-empty the state is Stale, EndOfSession or Error (never
    Unknown or Active). *)
Theorem C3_gaps_and_state (s : Session) :
  reachable s ->
  (has_gaps s = true <-> pending_gaps_ s <> []) /\
  (state_ s = Stale -> pending_gaps_ s <> []) /\
  (pending_gaps_ s <> [] ->
   state_ s = Stale \/ state_ s = EndOfSession \/ state_ s = Error).
Proof.
  intros Hs. destruct (reachable_gaps_inv s Hs) as [Hclean Hstale].
  split; [|split].
  - unfold has_gaps. destruct (pending_gaps_ s); cbn; split;
      intros H; try discriminate; try reflexivity.
    exfalso. apply H. reflexivity.
  - exact Hstale.
  - intros Hne. destruct (state_ s); auto;
      exfalso; apply Hne, Hclean; auto.
Qed.

Lemma C3_gaps_and_state_witness :
  let s := run Session_default [packet_1; packet_5] in
  has_gaps s = true /\ pending_gaps_ s <> [] /\ state_ s = Stale.
Proof.
  destruct (C3_gaps_and_state (run Session_default [packet_1; packet_5]))
    as (H1 & H2 & _).
  - apply reachable_run, reachable_new.
  - assert (Hst : state_ (run Session_default [packet_1; packet_5]) = Stale)
      by (vm_compute; reflexivity).
    split; [apply H1, H2, Hst | split; [apply H2, Hst | exact Hst]].
Defined.

End StateFacts.

(** ** The scenarios of the test suite, run on the model *)

Module Scenarios.
Import Endian Itch5 Moldudp64.

(** test_header_parsing *)
Example test_header_parsing :
  parse (create_moldudp_packet NASDAQ 12345 5 [])
  = Some {| session := ["N"; "A"; "S"; "D"; "A"; "Q"; " "; " "; " "; " "]%byte;
            sequence_number := 12345; message_count := 5 |}.
Proof. vm_compute. reflexivity. Qed.

(** test_session_normal_operation: two in-order packets of two messages. *)
Example test_session_normal_operation :
  let msg1 := ["A"%byte; x00; x01] in
  let msg2 := ["E"%byte; x00; x02] in
  let s0 := set_message_callback Session_default true in
  let o1 := process_packet s0 (create_moldudp_packet NASDAQ 1 2 [msg1; msg2]) in
  let o2 := process_packet (session_after o1)
              (create_moldudp_packet NASDAQ 3 2 [msg1; msg2]) in
  state_ (session_after o1) = Active /\
  expected_sequence_ (session_after o1) = 3 /\
  events o1 = [MessageCallback msg1 3 1; MessageCallback msg2 3 2] /\
  expected_sequence_ (session_after o2) = 5 /\
  events o2 = [MessageCallback msg1 3 3; MessageCallback msg2 3 4].
Proof. vm_compute. repeat split; reflexivity. Qed.

(** test_session_multiple_gaps: packets 1, 5 and 10. *)
Example test_session_multiple_gaps :
  let s0 := set_gap_callback Session_default true in
  let p10 := create_moldudp_packet NASDAQ 10 1 [fake_message] in
  let s := run s0 [packet_1; packet_5; p10] in
  pending_gaps_ s = [gap_before 2 5; gap_before 6 10] /\
  gaps_detected_ s = 2 /\ state_ s = Stale.
Proof. vm_compute. repeat split; reflexivity. Qed.

(** A retransmitted packet that covers the pending gap closes it and the
    state returns to Active. *)
Example gap_filled_by_retransmission :
  let fill := create_moldudp_packet NASDAQ 2 3
                [fake_message; fake_message; fake_message] in
  let s := run Session_default [packet_1; packet_5; fill] in
  pending_gaps_ s = [] /\ state_ s = Active /\ expected_sequence_ s = 6.
Proof. vm_compute. repeat split; reflexivity. Qed.

(** test_truncated_packet: ten bytes are no header. *)
Example test_truncated_packet :
  let o := process_packet Session_default (take 10 packet_1) in
  result o = false /\ session_after o = Session_default.
Proof. vm_compute. split; reflexivity. Qed.

(** test_parse_add_order *)
Example test_parse_add_order :
  let msg := build_add_order 1 2 34200000000000 123456789 "B"%byte 100
               ["A"; "A"; "P"; "L"; " "; " "; " "; " "]%byte 1500000 in
  let r := parse_message (PacketHandler.setup_parser_callbacks Parser_new) msg in
  consumed r = 36 /\
  callbacks r = [AddOrderCallback msg 34200000000000 150000000 100] /\
  total_messages (stats_ (parser_after r)) = 1 /\
  add_orders (stats_ (parser_after r)) = 1.
Proof. vm_compute. repeat split; reflexivity. Qed.

(** test_incomplete_message and test_unknown_message *)
Example test_incomplete_and_unknown :
  consumed (parse_message Parser_new ("A"%byte :: repeat x00 9)) = 0 /\
  total_messages
    (stats_ (parser_after (parse_message Parser_new ("A"%byte :: repeat x00 9))))
  = 0 /\
  consumed (parse_message Parser_new ("Z"%byte :: repeat x00 31)) = 0.
Proof. vm_compute. repeat split; reflexivity. Qed.

End Scenarios.

(** * Further properties *)

(** ** The ring: queue behaviour of every operation *)

Module SpscMore.
Import Spsc SpscRuns SpscFacts.

Section Ring.
Context {T : Type}.
Variable Capacity : Z.
Variable T_default : T.
Hypothesis Capacity_positive : Capacity > 0.
Hypothesis Capacity_power_of_2 : Z.land Capacity (Capacity - 1) = 0.

Local Abbreviation Ring := (@RingBuffer T).
Local Abbreviation try_push := (try_push Capacity).
Local Abbreviation try_pop := (try_pop Capacity T_default).
Local Abbreviation peek := (peek T_default).
Local Abbreviation full := (full Capacity).
Local Abbreviation size := (size Capacity).
Local Abbreviation available := (available Capacity).
Local Abbreviation ring_inv := (ring_inv Capacity).
Local Abbreviation reachable := (reachable Capacity T_default).
Local Abbreviation contents := (contents Capacity T_default).
Local Abbreviation run_ops := (run_ops Capacity T_default).
Local Abbreviation try_push_batch := (try_push_batch Capacity).
Local Abbreviation try_pop_batch := (try_pop_batch Capacity T_default).

Local Abbreviation inv_of := (reachable_ring_inv Capacity T_default
                              Capacity_positive Capacity_power_of_2).

(** One push, seen on the queue. *)
Lemma try_push_queue item (rb : Ring) :
  ring_inv rb ->
  ring_inv (snd (try_push item rb)) /\
  (size rb < Capacity - 1 ->
   fst (try_push item rb) = true /\
   contents (snd (try_push item rb)) = contents rb ++ [item]) /\
  (size rb = Capacity - 1 ->
   fst (try_push item rb) = false /\ snd (try_push item rb) = rb).
Proof.
  intros Hinv. split; [|split].
  - apply ring_inv_try_push; assumption.
  - intros Hroom. split.
    + destruct (try_push_not_full Capacity Capacity_positive Capacity_power_of_2
                  item rb Hinv Hroom) as (rb' & -> & _). reflexivity.
    + apply contents_try_push; assumption.
  - intros Hfull.
    rewrite (try_push_full Capacity Capacity_positive Capacity_power_of_2
               item rb Hinv Hfull). split; reflexivity.
Qed.

(** One pop, seen on the queue. *)
Lemma try_pop_queue (rb : Ring) :
  ring_inv rb ->
  ring_inv (snd (try_pop rb)) /\
  match contents rb with
  | [] => try_pop rb = (None, rb)
  | item :: rest =>
      fst (try_pop rb) = Some item /\ contents (snd (try_pop rb)) = rest
  end.
Proof.
  intros Hinv. split; [apply ring_inv_try_pop; assumption|].
  pose proof (size_range Capacity rb Hinv) as Hr.
  pose proof (length_contents Capacity T_default rb Hinv) as Hl.
  destruct (Z.eq_dec (size rb) 0) as [Hz|Hnz].
  - rewrite Hz in Hl. destruct (contents rb) as [|c cs]; [|cbn in Hl; lia].
    unfold Spsc.try_pop. destruct Hinv as (_ & Hh & Ht).
    replace (tail_ rb =? head_ rb) with true; [reflexivity|].
    symmetry. apply Z.eqb_eq.
    unfold Spsc.size in Hz.
    destruct (head_ rb >=? tail_ rb) eqn:E; [lia|].
    rewrite Z.geb_leb in E. apply Z.leb_gt in E. lia.
  - destruct (contents_try_pop Capacity T_default Capacity_positive
                Capacity_power_of_2 rb Hinv) as (item & Hp & Hc); [lia|].
    rewrite Hc. split; [exact Hp | reflexivity].
Qed.

Lemma contents_nil_empty (rb : Ring) :
  ring_inv rb -> (empty rb = true <-> contents rb = []).
Proof.
  intros Hinv. pose proof (length_contents Capacity T_default rb Hinv) as Hl.
  split.
  - intros He. apply (empty_size_zero Capacity) in He. rewrite He in Hl.
    destruct (contents rb); [reflexivity | cbn in Hl; lia].
  - intros Hc. rewrite Hc in Hl. cbn in Hl. unfold empty. apply Z.eqb_eq.
    destruct Hinv as (_ & Hh & Ht). unfold Spsc.size in Hl.
    destruct (head_ rb >=? tail_ rb) eqn:E; [lia|].
    rewrite Z.geb_leb in E. apply Z.leb_gt in E. lia.
Qed.

Lemma full_size (rb : Ring) :
  ring_inv rb -> (full rb = true <-> size rb = Capacity - 1).
Proof.
  intros (_ & Hh & Ht). unfold Spsc.full.
  rewrite (increment_cases Capacity Capacity_positive Capacity_power_of_2
             (head_ rb) Hh).
  unfold Spsc.size. rewrite Z.eqb_eq.
  destruct (head_ rb + 1 <? Capacity) eqn:E1;
    [apply Z.ltb_lt in E1 | apply Z.ltb_ge in E1];
    (destruct (head_ rb >=? tail_ rb) eqn:E2;
     [apply Z.geb_le in E2 | rewrite Z.geb_leb in E2; apply Z.leb_gt in E2]);
    lia.
Qed.

(** X1: first in, first out.  After any run of [try_push] and [try_pop]
    calls on a reachable ring, the items popped so far followed by the
    items still in the ring are the items the ring held at the start
    followed by the items whose push was accepted, in push order: nothing
    is lost, duplicated or reordered, across wrap-around too. *)
Theorem ring_fifo (ops : list (@op T)) (rb : Ring) :
  reachable rb ->
  let t := run_ops ops rb in
  popped t ++ contents (ring_after t) = contents rb ++ accepted t.
Proof.
  intros Hreach. pose proof (inv_of rb Hreach) as Hinv. clear Hreach.
  cbv zeta. revert rb Hinv.
  induction ops as [|o ops IH]; intros rb Hinv.
  - cbn. rewrite app_nil_r. reflexivity.
  - destruct o as [item|].
    + cbn [SpscRuns.run_ops].
      destruct (try_push_queue item rb Hinv) as (Hinv' & Hroom & Hfull).
      pose proof (size_range Capacity rb Hinv) as Hr.
      destruct (try_push item rb) as [ok rb1] eqn:Ep. cbn [fst snd] in *.
      cbn [accepted popped ring_after]. rewrite (IH rb1 Hinv').
      destruct (Z.eq_dec (size rb) (Capacity - 1)) as [Hf|Hnf].
      * destruct (Hfull Hf) as [-> ->]. reflexivity.
      * destruct Hroom as [-> ->]; [lia|]. rewrite <- app_assoc. reflexivity.
    + cbn [SpscRuns.run_ops].
      destruct (try_pop_queue rb Hinv) as (Hinv' & Hq).
      destruct (try_pop rb) as [r rb1] eqn:Ep. cbn [fst snd] in *.
      cbn [accepted popped ring_after].
      destruct (contents rb) as [|c cs] eqn:Ec.
      * injection Hq as -> ->. rewrite (IH rb Hinv), Ec. reflexivity.
      * destruct Hq as [-> Hc]. cbn [app]. rewrite (IH rb1 Hinv'), Hc.
        reflexivity.
Qed.

(** X2: the status functions agree with the queue and with what the
    next operation does.  On a reachable ring, [empty()] holds exactly when
    no record is live, [full()] exactly when Capacity - 1 records are,
    [available()] is the number of pushes that can still succeed,
    [try_push] succeeds exactly when the ring is not full and [try_pop]
    exactly when it is not empty. *)
Theorem ring_status (rb : Ring) (item : T) :
  reachable rb ->
  (empty rb = true <-> contents rb = []) /\
  (full rb = true <-> Z.of_nat (length (contents rb)) = Capacity - 1) /\
  available rb = Capacity - 1 - Z.of_nat (length (contents rb)) /\
  0 <= available rb /\
  fst (try_push item rb) = negb (full rb) /\
  (fst (try_pop rb) = None <-> empty rb = true).
Proof.
  intros Hreach. pose proof (inv_of rb Hreach) as Hinv.
  pose proof (length_contents Capacity T_default rb Hinv) as Hl.
  pose proof (size_range Capacity rb Hinv) as Hr.
  pose proof (full_size rb Hinv) as Hf.
  split; [apply contents_nil_empty; exact Hinv|].
  split; [rewrite Hl; exact Hf|].
  split; [unfold Spsc.available; lia|].
  split; [unfold Spsc.available; lia|].
  split.
  - destruct (try_push_queue item rb Hinv) as (_ & Hroom & Hfull).
    destruct (Z.eq_dec (size rb) (Capacity - 1)) as [E|E].
    + destruct (Hfull E) as [-> _]. apply Hf in E. rewrite E. reflexivity.
    + destruct Hroom as [-> _]; [lia|].
      destruct (full rb) eqn:Efull; [|reflexivity].
      exfalso. apply E, Hf. reflexivity.
  - unfold Spsc.try_pop, empty. rewrite (Z.eqb_sym (head_ rb)).
    destruct (tail_ rb =? head_ rb); cbn [fst]; split; intros H;
      try reflexivity; discriminate H.
Qed.

(** X3: [peek()] returns the oldest live record, the one the next
    [try_pop] returns, or nothing when the ring is empty. *)
Theorem ring_peek (rb : Ring) :
  reachable rb ->
  peek rb = head (contents rb) /\ peek rb = fst (try_pop rb).
Proof.
  intros Hreach. pose proof (inv_of rb Hreach) as Hinv.
  assert (Hpp : peek rb = fst (try_pop rb)).
  { unfold Spsc.peek, Spsc.try_pop.
    destruct (tail_ rb =? head_ rb); reflexivity. }
  split; [|exact Hpp]. rewrite Hpp.
  destruct (try_pop_queue rb Hinv) as (_ & Hq).
  destruct (contents rb) as [|c cs].
  - rewrite Hq. reflexivity.
  - destruct Hq as [-> _]. reflexivity.
Qed.

(** X4: [try_push_batch] pushes as many leading items as there is room
    for: it returns the smaller of the batch length and [available()], and
    exactly that prefix of the batch joins the queue, in order. *)
Theorem ring_push_batch (items : list T) (rb : Ring) :
  reachable rb ->
  let k := Z.min (Z.of_nat (length items)) (available rb) in
  fst (try_push_batch items rb) = k /\
  contents (snd (try_push_batch items rb))
  = contents rb ++ take (Z.to_nat k) items.
Proof.
  intros Hreach. pose proof (inv_of rb Hreach) as Hinv. clear Hreach.
  cbv zeta. revert rb Hinv.
  induction items as [|item rest IH]; intros rb Hinv.
  - pose proof (size_range Capacity rb Hinv) as Hr.
    cbn [Spsc.try_push_batch length fst snd Z.of_nat].
    unfold Spsc.available. rewrite Z.min_l by lia.
    cbn. rewrite app_nil_r. split; reflexivity.
  - pose proof (size_range Capacity rb Hinv) as Hr.
    destruct (try_push_queue item rb Hinv) as (Hinv' & Hroom & Hfull).
    cbn [Spsc.try_push_batch length]. rewrite Nat2Z.inj_succ.
    destruct (Z.eq_dec (size rb) (Capacity - 1)) as [E|E].
    + destruct (Hfull E) as [Hok Hrb].
      destruct (try_push item rb) as [ok rb1]. cbn [fst snd] in *. subst.
      unfold Spsc.available. rewrite Z.min_r by lia.
      replace (Capacity - size rb - 1) with 0 by lia.
      cbn. rewrite app_nil_r. split; reflexivity.
    + destruct Hroom as [Hok Hc]; [lia|].
      assert (Hsz : size (snd (try_push item rb)) = size rb + 1).
      { destruct (try_push_not_full Capacity Capacity_positive
                    Capacity_power_of_2 item rb Hinv) as (rb' & -> & _ & S' & _);
          [lia | exact S']. }
      destruct (try_push item rb) as [ok rb1]. cbn [fst snd] in *. subst ok.
      destruct (IH rb1 Hinv') as [IH1 IH2].
      destruct (try_push_batch rest rb1) as [pushed rb2]. cbn [fst snd] in *.
      unfold Spsc.available in *. rewrite Hsz in *.
      pose proof (size_range Capacity rb1 Hinv') as Hr1.
      split; [lia|]. rewrite IH2, Hc, <- app_assoc. f_equal.
      replace (Z.to_nat (Z.min (Z.succ (Z.of_nat (length rest)))
                               (Capacity - size rb - 1)))
        with (S (Z.to_nat (Z.min (Z.of_nat (length rest))
                                 (Capacity - (size rb + 1) - 1)))) by lia.
      reflexivity.
Qed.

(** X5: [try_pop_batch] takes the oldest records: its result is the first
    [max_count] records of the queue (all of them when fewer are live), in
    order, and the rest stay in the ring. *)
Theorem ring_pop_batch (max_count : nat) (rb : Ring) :
  reachable rb ->
  fst (try_pop_batch max_count rb) = take max_count (contents rb) /\
  contents (snd (try_pop_batch max_count rb)) = drop max_count (contents rb).
Proof.
  intros Hreach. pose proof (inv_of rb Hreach) as Hinv. clear Hreach.
  revert rb Hinv.
  induction max_count as [|n IH]; intros rb Hinv.
  - cbn. split; reflexivity.
  - cbn [Spsc.try_pop_batch].
    destruct (try_pop_queue rb Hinv) as (Hinv' & Hq).
    destruct (contents rb) as [|c cs] eqn:Ec.
    + rewrite Hq. cbn [fst snd]. rewrite Ec. split; reflexivity.
    + destruct (try_pop rb) as [r rb1]. cbn [fst snd] in *.
      destruct Hq as [-> Hc].
      destruct (IH rb1 Hinv') as [IH1 IH2].
      destruct (try_pop_batch n rb1) as [got rb2]. cbn [fst snd] in *.
      rewrite IH1, IH2, Hc. split; reflexivity.
Qed.

(** X6: the consumer's drain loop ([while (auto msg = try_pop())]) ends
    after one call more than there are live records, whatever bound on the
    number of turns is allowed beyond that; it hands over the whole queue
    in order and leaves the ring empty. *)
Theorem ring_drain (fuel : nat) (rb : Ring) :
  reachable rb ->
  (length (contents rb) < fuel)%nat ->
  fst (drain Capacity T_default fuel rb) = contents rb /\
  empty (snd (drain Capacity T_default fuel rb)) = true.
Proof.
  intros Hreach. pose proof (inv_of rb Hreach) as Hinv. clear Hreach.
  revert rb Hinv.
  induction fuel as [|n IH]; intros rb Hinv Hfuel; [lia|].
  cbn [SpscRuns.drain].
  destruct (try_pop_queue rb Hinv) as (Hinv' & Hq).
  destruct (contents rb) as [|c cs] eqn:Ec.
  - rewrite Hq. cbn [fst snd]. split; [reflexivity|].
    apply contents_nil_empty; assumption.
  - destruct (try_pop rb) as [r rb1]. cbn [fst snd] in *.
    destruct Hq as [-> Hc].
    destruct (IH rb1 Hinv') as [IH1 IH2]; [rewrite Hc; cbn in Hfuel; lia|].
    destruct (drain Capacity T_default n rb1) as [got rb2]. cbn [fst snd] in *.
    rewrite IH1, Hc. split; [reflexivity | exact IH2].
Qed.

End Ring.

Lemma ring_fifo_witness :
  let t := run_ops 8 0 ops_example ring8 in
  popped t ++ contents 8 0 (ring_after t) = contents 8 0 ring8 ++ accepted t.
Proof.
  apply (ring_fifo 8 0 ltac:(lia) eq_refl ops_example ring8).
  apply reachable_new.
Defined.

Lemma ring_status_witness :
  (empty ring8 = true <-> contents 8 0 ring8 = []) /\
  available 8 ring8 = 8 - 1 - Z.of_nat (length (contents 8 0 ring8)).
Proof.
  destruct (ring_status 8 0 ltac:(lia) eq_refl ring8 0) as (H1 & _ & H3 & _).
  - apply reachable_new.
  - split; [exact H1 | exact H3].
Defined.

Lemma ring_peek_witness :
  let rb := snd (try_push 8 7 ring8) in
  peek 0 rb = head (contents 8 0 rb) /\ peek 0 rb = fst (try_pop 8 0 rb).
Proof.
  apply (ring_peek 8 0 ltac:(lia) eq_refl (snd (try_push 8 7 ring8))).
  apply (reachable_op 8 0 (Push 7)). apply reachable_new.
Defined.

Lemma ring_push_batch_witness :
  let items := [1; 2; 3; 4; 5; 6; 7; 8; 9] in
  let k := Z.min (Z.of_nat (length items)) (available 8 ring8) in
  fst (try_push_batch 8 items ring8) = k /\
  contents 8 0 (snd (try_push_batch 8 items ring8))
  = contents 8 0 ring8 ++ take (Z.to_nat k) items.
Proof.
  apply (ring_push_batch 8 0 ltac:(lia) eq_refl [1; 2; 3; 4; 5; 6; 7; 8; 9] ring8).
  apply reachable_new.
Defined.

Lemma ring_pop_batch_witness :
  let rb := snd (try_push 8 7 ring8) in
  fst (try_pop_batch 8 0 3 rb) = take 3 (contents 8 0 rb) /\
  contents 8 0 (snd (try_pop_batch 8 0 3 rb)) = drop 3 (contents 8 0 rb).
Proof.
  apply (ring_pop_batch 8 0 ltac:(lia) eq_refl 3 (snd (try_push 8 7 ring8))).
  apply (reachable_op 8 0 (Push 7)). apply reachable_new.
Defined.

Lemma ring_drain_witness :
  let rb := snd (try_push 8 7 ring8) in
  fst (drain 8 0 5 rb) = contents 8 0 rb /\ empty (snd (drain 8 0 5 rb)) = true.
Proof.
  apply (ring_drain 8 0 ltac:(lia) eq_refl 5 (snd (try_push 8 7 ring8))).
  - apply (reachable_op 8 0 (Push 7)). apply reachable_new.
  - vm_compute. lia.
Defined.

End SpscMore.

(** ** Byte order *)

Module EndianMore.
Import Endian EndianFacts.

Lemma read_be_rev n (bs rest : list byte) :
  length bs = n -> bswap n (load_le (take n (bs ++ rest))) = load_le (rev bs).
Proof.
  intros Hn. rewrite take_app_length' by (symmetry; exact Hn).
  unfold bswap. rewrite <- Hn, store_load_le. reflexivity.
Qed.

(** X7: the readers decode big-endian.  Whatever the bytes, [read_be16],
    [read_be32], [read_be64] and [read_be48] return the value whose most
    significant byte is the first byte at the pointer. *)
Theorem read_be_big_endian (b0 b1 b2 b3 b4 b5 b6 b7 : byte) (rest : list byte) :
  let v i := byte_to_Z i in
  read_be16 (b0 :: b1 :: rest) = v b0 * 2 ^ 8 + v b1 /\
  read_be32 (b0 :: b1 :: b2 :: b3 :: rest)
  = v b0 * 2 ^ 24 + v b1 * 2 ^ 16 + v b2 * 2 ^ 8 + v b3 /\
  read_be48 (b0 :: b1 :: b2 :: b3 :: b4 :: b5 :: rest)
  = v b0 * 2 ^ 40 + v b1 * 2 ^ 32 + v b2 * 2 ^ 24 + v b3 * 2 ^ 16
    + v b4 * 2 ^ 8 + v b5 /\
  read_be64 (b0 :: b1 :: b2 :: b3 :: b4 :: b5 :: b6 :: b7 :: rest)
  = v b0 * 2 ^ 56 + v b1 * 2 ^ 48 + v b2 * 2 ^ 40 + v b3 * 2 ^ 32
    + v b4 * 2 ^ 24 + v b5 * 2 ^ 16 + v b6 * 2 ^ 8 + v b7.
Proof.
  cbv zeta. repeat apply conj.
  - rewrite read_be16_bytes. lia.
  - unfold read_be32, swap32.
    change (b0 :: b1 :: b2 :: b3 :: rest) with ([b0; b1; b2; b3] ++ rest).
    rewrite (read_be_rev 4 [b0; b1; b2; b3] rest eq_refl).
    cbn [rev app load_le]. lia.
  - rewrite read_be48_bytes. cbn [load_le]. lia.
  - unfold read_be64, swap64.
    change (b0 :: b1 :: b2 :: b3 :: b4 :: b5 :: b6 :: b7 :: rest)
      with ([b0; b1; b2; b3; b4; b5; b6; b7] ++ rest).
    rewrite (read_be_rev 8 [b0; b1; b2; b3; b4; b5; b6; b7] rest eq_refl).
    cbn [rev app load_le]. lia.
Qed.

(** X8: host-to-network and back.  For a value that fits the width,
    [ntoh] undoes [hton], and a value stored through [hton] is read back
    by the big-endian reader of that width. *)
Theorem hton_ntoh_round_trip (a b c : Z) (rest : list byte) :
  0 <= a < 2 ^ 16 -> 0 <= b < 2 ^ 32 -> 0 <= c < 2 ^ 64 ->
  ntoh16 (hton16 a) = a /\ ntoh32 (hton32 b) = b /\ ntoh64 (hton64 c) = c /\
  read_be16 (store_le 2 (hton16 a) ++ rest) = a /\
  read_be32 (store_le 4 (hton32 b) ++ rest) = b /\
  read_be64 (store_le 8 (hton64 c) ++ rest) = c.
Proof.
  intros Ha Hb Hc.
  unfold ntoh16, ntoh32, ntoh64, hton16, hton32, hton64, swap16, swap32, swap64.
  rewrite !bswap_involutive.
  change (256 ^ Z.of_nat 2) with (2 ^ 16).
  change (256 ^ Z.of_nat 4) with (2 ^ 32).
  change (256 ^ Z.of_nat 8) with (2 ^ 64).
  rewrite !Z.mod_small by assumption.
  repeat apply conj; try reflexivity.
  - apply read_be16_hton16. exact Ha.
  - unfold read_be32, swap32. rewrite take_store_le_app.
    apply (ntoh32_hton32 b Hb).
  - apply read_be64_hton64. exact Hc.
Qed.

Lemma hton_ntoh_round_trip_witness :
  ntoh16 (hton16 0x1234) = 0x1234 /\
  read_be64 (store_le 8 (hton64 0x123456789ABCDEF0) ++ []) = 0x123456789ABCDEF0.
Proof.
  destruct (hton_ntoh_round_trip 0x1234 0x12345678 0x123456789ABCDEF0 [])
    as (H1 & _ & _ & _ & _ & H6); [lia | lia | lia |].
  split; [exact H1 | exact H6].
Defined.

End EndianMore.

(** ** The parser: outcomes and statistics *)

Module ParserMore.
Import Endian EndianFacts Itch5 ParserFacts ParserOps.

Lemma dispatch_shape (p : Parser) (c : byte) (data : list byte) :
  get_message_size c <> 0 ->
  exists f cbs,
    dispatch p c data = (with_stats p f, cbs) /\
    (length cbs <= 1)%nat /\ In f kind_increments.
Proof.
  intros Hsz.
  destruct c; try (exfalso; apply Hsz; reflexivity);
    cbn [dispatch];
    unfold parse_add_order, parse_add_order_mpid, parse_order_executed,
      parse_order_executed_with_price, parse_order_cancel, parse_order_delete,
      parse_order_replace, parse_trade;
    cbn [with_stats add_order_cb_ add_order_mpid_cb_ order_executed_cb_
         order_executed_with_price_cb_ order_cancel_cb_ order_delete_cb_
         order_replace_cb_ trade_cb_];
    try match goal with
        | |- context [if ?b then _ else _] => destruct b
        end;
    do 2 eexists; (split; [reflexivity|]); (split; [cbn; lia|]);
    unfold kind_increments; cbn [In]; tauto.
Qed.

Lemma u64_add_u64 a b : u64 (a + u64 b) = u64 (a + b).
Proof. unfold u64. apply Z.add_mod_idemp_r. lia. Qed.

(** Counting one message of a kind keeps the total in step with the
    per-kind counters. *)
Lemma kind_increment_sum (f : Stats -> Stats) (s : Stats) :
  In f kind_increments ->
  total_messages s = u64 (kind_counters s) ->
  total_messages (incr_total_messages (f s))
  = u64 (kind_counters (incr_total_messages (f s))) /\
  unknown_messages (incr_total_messages (f s)) = unknown_messages s.
Proof.
  unfold kind_increments. cbn [In]. intros Hf Hinv.
  assert (Hstep : forall S S' x,
            S' = S - x + u64 (x + 1) -> u64 (u64 S + 1) = u64 S').
  { intros S S' x ->.
    rewrite u64_add_u64.
    replace (u64 S + 1) with (1 + u64 S) by lia.
    rewrite u64_add_u64. f_equal. lia. }
  destruct s as [tot ao oe od oc orp tr ot un].
  unfold kind_counters in *. cbn [total_messages add_orders order_executed
    order_deleted order_cancelled order_replaced trades other_messages
    unknown_messages] in Hinv.
  repeat (destruct Hf as [<- | Hf]); try contradiction;
    cbn [incr_total_messages incr_add_orders incr_order_executed
         incr_order_deleted incr_order_cancelled incr_order_replaced
         incr_trades incr_other_messages
         total_messages add_orders order_executed order_deleted
         order_cancelled order_replaced trades other_messages
         unknown_messages];
    (split; [|reflexivity]); rewrite Hinv.
  - apply (Hstep _ _ ao). lia.
  - apply (Hstep _ _ oe). lia.
  - apply (Hstep _ _ od). lia.
  - apply (Hstep _ _ oc). lia.
  - apply (Hstep _ _ orp). lia.
  - apply (Hstep _ _ tr). lia.
  - apply (Hstep _ _ ot). lia.
Qed.

(** The two ways a call of [parse_message] can go. *)
Lemma parse_message_cases (p : Parser) (data : list byte) :
  let size := get_message_size (nth 0 data x00) in
  (size = 0 \/ Z.of_nat (length data) < size) /\
  parse_message p data = {| consumed := 0; parser_after := p; callbacks := [] |}
  \/
  (size <> 0 /\ size <= Z.of_nat (length data)) /\
  exists f cbs,
    parse_message p data
    = {| consumed := size;
         parser_after := with_stats (with_stats p f) incr_total_messages;
         callbacks := cbs |} /\
    (length cbs <= 1)%nat /\ In f kind_increments.
Proof.
  cbv zeta.
  destruct (Z.eq_dec (get_message_size (nth 0 data x00)) 0) as [E0|E0].
  { left. split; [left; exact E0|]. apply parse_message_rejects. left. exact E0. }
  destruct (Z.lt_ge_cases (Z.of_nat (length data))
              (get_message_size (nth 0 data x00))) as [Hlt|Hge].
  { left. split; [right; exact Hlt|]. apply parse_message_rejects. right. exact Hlt. }
  right. split; [split; assumption|].
  destruct (dispatch_shape p (nth 0 data x00) data E0) as (f & cbs & Hd & Hl & Hf).
  exists f, cbs. split; [|split; assumption].
  unfold parse_message.
  destruct (Z.of_nat (length data) <? 1) eqn:E1.
  { destruct data; [exfalso; apply E0; reflexivity|].
    apply Z.ltb_lt in E1. cbn [length] in E1. lia. }
  apply Z.eqb_neq in E0. rewrite E0.
  apply Z.ltb_ge in Hge. rewrite Hge, Hd. reflexivity.
Qed.

(** X9: what one call of [parse_message] can do.  It accepts exactly the
    buffers that begin with a code of the kind table and hold at least
    that kind's size, and then returns that size; otherwise it returns 0,
    leaves the parser as it was and invokes nothing.  An accepted call
    invokes at most one callback, counts one more total message and
    changes nothing of the parser but its statistics. *)
Theorem parse_message_outcome (p : Parser) (data : list byte) :
  let r := parse_message p data in
  let size := get_message_size (nth 0 data x00) in
  (consumed r <> 0 <->
   in_kind_table (nth 0 data x00) /\ size <= Z.of_nat (length data)) /\
  (consumed r = 0 -> parser_after r = p /\ callbacks r = []) /\
  (consumed r <> 0 ->
   consumed r = size /\
   total_messages (stats_ (parser_after r))
   = u64 (total_messages (stats_ p) + 1)) /\
  (length (callbacks r) <= 1)%nat /\
  with_stats (parser_after r) (fun _ => stats_ p) = p.
Proof.
  cbv zeta.
  assert (Htable : forall c, get_message_size c <> 0 <-> in_kind_table c).
  { intros c. split.
    - intros Hc. destruct c; try (exfalso; apply Hc; reflexivity);
        eexists; unfold kind_table;
        repeat (first [left; reflexivity | right]).
    - intros [S_K Hin] Hc.
      destruct (kind_table_get_message_size c S_K Hin) as [Hs Hp]. lia. }
  assert (Hid : with_stats p (fun _ => stats_ p) = p) by (destruct p; reflexivity).
  destruct (parse_message_cases p data)
    as [[Hrej ->] | [[Hnz Hle] (f & cbs & -> & Hl & Hf)]];
    cbn [consumed parser_after callbacks].
  - split; [|split; [|split; [|split]]].
    + split; [intros H; exfalso; apply H; reflexivity|].
      intros [Hin Hsz] _. apply Htable in Hin. destruct Hrej; lia.
    + intros _. split; reflexivity.
    + intros H. exfalso. apply H. reflexivity.
    + cbn. lia.
    + exact Hid.
  - split; [|split; [|split; [|split]]].
    + split; [intros _; split; [apply Htable; exact Hnz | exact Hle]|].
      intros _. exact Hnz.
    + intros H. contradiction.
    + intros _. split; [reflexivity|].
      unfold kind_increments in Hf. cbn [In] in Hf.
      destruct p as [? ? ? ? ? ? ? ? s]. destruct s.
      repeat (destruct Hf as [<- | Hf]); try contradiction; reflexivity.
    + exact Hl.
    + destruct p; reflexivity.
Qed.

Lemma parse_message_outcome_witness :
  callbacks (parse_message Parser_new Moldudp64.fake_message) = [].
Proof.
  destruct (parse_message_outcome Parser_new Moldudp64.fake_message)
    as (_ & H & _).
  apply H. reflexivity.
Defined.

Lemma stats_inv_run_call (c : call) (p : Parser) :
  stats_inv (stats_ p) -> stats_inv (stats_ (run_call c p)).
Proof.
  intros [Htot Hunk]. destruct c; cbn [run_call]; try (split; assumption).
  - destruct (parse_message_cases p data)
      as [[_ ->] | [_ (f & cbs & -> & _ & Hf)]]; cbn [parser_after].
    + split; assumption.
    + destruct p as [? ? ? ? ? ? ? ? s]. cbn [with_stats stats_] in *.
      destruct (kind_increment_sum f s Hf Htot) as [H1 H2].
      split; [exact H1 | rewrite H2; exact Hunk].
  - destruct p. split; reflexivity.
Qed.

(** X10: the statistics add up.  In every parser reachable from a newly
    constructed one by calls of [parse_message], [reset_stats] and the
    callback setters, total_messages is the sum (as a 64-bit counter) of
    the seven per-kind counters, and unknown_messages is still 0: the
    branch that would count an unknown kind is never reached. *)
Theorem parser_stats_consistent (p : Parser) :
  reachable p ->
  total_messages (stats_ p)
  = u64 (add_orders (stats_ p) + order_executed (stats_ p)
         + order_deleted (stats_ p) + order_cancelled (stats_ p)
         + order_replaced (stats_ p) + trades (stats_ p)
         + other_messages (stats_ p)) /\
  unknown_messages (stats_ p) = 0.
Proof.
  intros Hr. change (stats_inv (stats_ p)).
  induction Hr as [|c p _ IH].
  - split; reflexivity.
  - apply stats_inv_run_call. exact IH.
Qed.

Lemma parser_stats_consistent_witness :
  let p := run_call (ParseMessage ("Z"%byte :: repeat x00 31))
             (run_call (ParseMessage ("S"%byte :: repeat x00 11))
                (run_call (SetTradeCallback true) Parser_new)) in
  total_messages (stats_ p) = 1 /\ unknown_messages (stats_ p) = 0.
Proof.
  destruct (parser_stats_consistent
              (run_call (ParseMessage ("Z"%byte :: repeat x00 31))
                 (run_call (ParseMessage ("S"%byte :: repeat x00 11))
                    (run_call (SetTradeCallback true) Parser_new))))
    as [H1 H2].
  - repeat apply reachable_call. apply reachable_new.
  - split; [rewrite H1; reflexivity | exact H2].
Defined.

End ParserMore.

(** ** Round trips of the other messages the tests build *)

Module RoundTripMore.
Import Endian EndianFacts Itch5 ParserFacts ParserOps RoundTrip.

Lemma parse_order_executed_message (p0 : Parser)
    (stock_locate tracking_number ts r shares match_number : Z) :
  order_executed_cb_ p0 = true ->
  let msg := build_order_executed stock_locate tracking_number ts r shares
               match_number in
  consumed (parse_message p0 msg) = 31 /\
  callbacks (parse_message p0 msg) = [OrderExecutedCallback msg (ts mod 2 ^ 48)].
Proof.
  intros Hcb msg.
  assert (Hlen : length msg = 31%nat).
  { subst msg. unfold build_order_executed, set_timestamp.
    rewrite !length_app, !length_store_le. reflexivity. }
  assert (Hty : nth 0 msg x00 = "E"%byte) by reflexivity.
  assert (Hview : take (Z.to_nat (sizeof OrderExecuted)) msg = msg).
  { apply take_ge. rewrite Hlen.
    change (Z.to_nat (sizeof OrderExecuted)) with 31%nat. lia. }
  assert (Hts : read_be48 (msg_timestamp msg) = ts mod 2 ^ 48).
  { change (msg_timestamp msg) with (set_timestamp ts ++ []).
    apply read_be48_set_timestamp. }
  unfold parse_message. rewrite Hlen, Hty.
  change (get_message_size "E"%byte) with 31.
  change (Z.of_nat 31 <? 1) with false.
  change (31 =? 0) with false.
  change (Z.of_nat 31 <? 31) with false.
  cbn [dispatch]. rewrite Hview.
  unfold parse_order_executed. cbn [with_stats order_executed_cb_].
  rewrite Hcb. cbn [consumed callbacks]. rewrite Hts. split; reflexivity.
Qed.

Lemma parse_order_delete_message (p0 : Parser)
    (stock_locate tracking_number ts r : Z) :
  order_delete_cb_ p0 = true ->
  let msg := build_order_delete stock_locate tracking_number ts r in
  consumed (parse_message p0 msg) = 19 /\
  callbacks (parse_message p0 msg) = [OrderDeleteCallback msg (ts mod 2 ^ 48)].
Proof.
  intros Hcb msg.
  assert (Hlen : length msg = 19%nat).
  { subst msg. unfold build_order_delete, set_timestamp.
    rewrite !length_app, !length_store_le. reflexivity. }
  assert (Hty : nth 0 msg x00 = "D"%byte) by reflexivity.
  assert (Hview : take (Z.to_nat (sizeof OrderDelete)) msg = msg).
  { apply take_ge. rewrite Hlen.
    change (Z.to_nat (sizeof OrderDelete)) with 19%nat. lia. }
  assert (Hts : read_be48 (msg_timestamp msg) = ts mod 2 ^ 48).
  { change (msg_timestamp msg) with (set_timestamp ts ++ []).
    apply read_be48_set_timestamp. }
  unfold parse_message. rewrite Hlen, Hty.
  change (get_message_size "D"%byte) with 19.
  change (Z.of_nat 19 <? 1) with false.
  change (19 =? 0) with false.
  change (Z.of_nat 19 <? 19) with false.
  cbn [dispatch]. rewrite Hview.
  unfold parse_order_delete. cbn [with_stats order_delete_cb_].
  rewrite Hcb. cbn [consumed callbacks]. rewrite Hts. split; reflexivity.
Qed.

(** X11: OrderExecuted and OrderDelete round trips.  An OrderExecuted
    message built with order reference [r] and executed shares [n], and an
    OrderDelete message built with order reference [r], fed to a parser
    with the handler's callbacks installed, are consumed whole (31 and 19
    bytes) and each yields one normalized record of its kind with that
    order reference (and executed quantity), every other field as the
    default constructor leaves it. *)
Theorem order_executed_delete_round_trip
    (p0 : Parser) (stock_locate tracking_number ts r n match_number : Z) :
  0 <= r < 2 ^ 64 -> 0 <= n < 2 ^ 32 ->
  let p := PacketHandler.setup_parser_callbacks p0 in
  let executed :=
    build_order_executed stock_locate tracking_number ts r n match_number in
  let deleted := build_order_delete stock_locate tracking_number ts r in
  PacketHandler.parse_itch_message p executed
  = (parser_after (parse_message p executed),
     [{| type := MT_OrderExecuted; timestamp := ts mod 2 ^ 48; order_ref := r;
         stock := repeat x00 8; side := Buy; price := 0; quantity := 0;
         executed_quantity := n; new_order_ref := 0 |}]) /\
  consumed (parse_message p executed) = 31 /\
  PacketHandler.parse_itch_message p deleted
  = (parser_after (parse_message p deleted),
     [{| type := MT_OrderDelete; timestamp := ts mod 2 ^ 48; order_ref := r;
         stock := repeat x00 8; side := Buy; price := 0; quantity := 0;
         executed_quantity := 0; new_order_ref := 0 |}]) /\
  consumed (parse_message p deleted) = 19.
Proof.
  intros Hr Hn p executed deleted.
  destruct (parse_order_executed_message p stock_locate tracking_number ts r n
              match_number eq_refl) as [He1 He2].
  destruct (parse_order_delete_message p stock_locate tracking_number ts r
              eq_refl) as [Hd1 Hd2].
  fold executed in He1, He2. fold deleted in Hd1, Hd2.
  assert (Hre : ntoh64 (OrderExecuted_order_reference_number executed) = r).
  { change (OrderExecuted_order_reference_number executed)
      with (load_le (store_le 8 (hton64 r))).
    apply ntoh64_hton64. exact Hr. }
  assert (Hse : ntoh32 (OrderExecuted_executed_shares executed) = n).
  { change (OrderExecuted_executed_shares executed)
      with (load_le (store_le 4 (hton32 n))).
    apply ntoh32_hton32. exact Hn. }
  assert (Hrd : ntoh64 (OrderDelete_order_reference_number deleted) = r).
  { change (OrderDelete_order_reference_number deleted)
      with (load_le (store_le 8 (hton64 r))).
    apply ntoh64_hton64. exact Hr. }
  unfold PacketHandler.parse_itch_message.
  rewrite He2, Hd2.
  cbn [PacketHandler.records_of PacketHandler.normalized].
  rewrite Hre, Hse, Hrd.
  repeat apply conj; try reflexivity; assumption.
Qed.

Lemma order_executed_delete_round_trip_witness :
  let p := PacketHandler.setup_parser_callbacks Parser_new in
  snd (PacketHandler.parse_itch_message p
         (build_order_executed 1 3 34200100000000 123456789 50 999888777))
  = [{| type := MT_OrderExecuted; timestamp := 34200100000000;
        order_ref := 123456789; stock := repeat x00 8; side := Buy;
        price := 0; quantity := 0; executed_quantity := 50;
        new_order_ref := 0 |}] /\
  snd (PacketHandler.parse_itch_message p
         (build_order_delete 1 3 34200100000000 123456789))
  = [{| type := MT_OrderDelete; timestamp := 34200100000000;
        order_ref := 123456789; stock := repeat x00 8; side := Buy;
        price := 0; quantity := 0; executed_quantity := 0;
        new_order_ref := 0 |}].
Proof.
  destruct (order_executed_delete_round_trip Parser_new 1 3 34200100000000
              123456789 50 999888777) as (H1 & _ & H3 & _); [lia | lia |].
  split.
  - cbv zeta. cbv zeta in H1. rewrite H1. reflexivity.
  - cbv zeta. cbv zeta in H3. rewrite H3. reflexivity.
Defined.

End RoundTripMore.

(** ** The session decoder over whole runs *)

Module SessionMore.
Import Endian EndianFacts Moldudp64 SessionFacts DecoderFacts StateFacts.
Import SessionOps.

(** Case analysis along the branches of [process_packet]; [fin] closes the
    goals of the branches that have returned. *)
Ltac decoder_cases s data fin :=
  unfold process_packet;
  destruct s as [sid0 exp st gaps pr mr gd hb gcb mcb]; session_simpl;
  destruct (parse data) as [hdr|] eqn:Hparse; session_simpl;
  try (fin; fail);
  destruct st; session_simpl;
  try match goal with
      | |- context [memcmp ?a ?b ?n =? 0] =>
          destruct (memcmp a b n =? 0) eqn:Hcmp; session_simpl
      end;
  try (fin; fail);
  try match goal with
      | |- context [is_heartbeat ?h] =>
          destruct (is_heartbeat h) eqn:Hhb; session_simpl
      end;
  try (fin; fail);
  try match goal with
      | |- context [is_end_of_session ?h] =>
          destruct (is_end_of_session h) eqn:Heos; session_simpl
      end;
  try (fin; fail);
  try match goal with
      | |- context [sequence_number ?h >? ?e] =>
          destruct (Z.gtb_spec (sequence_number h) e) as [Hgt|Hgt];
          session_simpl
      end;
  try match goal with
      | |- context [sequence_number ?h <? ?e] =>
          destruct (Z.ltb_spec (sequence_number h) e) as [Hlt|Hlt];
          session_simpl
      end;
  try match goal with
      | |- context [if ?b then dispatch_messages _ _ _ _ _ _ else _] =>
          destruct b; session_simpl
      end;
  try match goal with
      | |- context [dispatch_messages ?a ?b ?c ?d ?e ?f] =>
          destruct (dispatch_messages a b c d e f) as [evs received] eqn:Hdisp;
          session_simpl
      end;
  try match goal with
      | |- context [u64 ?a >? ?e] =>
          destruct (Z.gtb_spec (u64 a) e) as [Hup|Hup]; session_simpl
      end;
  rewrite ?vector_empty_push_back; session_simpl;
  try match goal with
      | |- context [vector_empty ?v] =>
          destruct (vector_empty v) eqn:Hempty; session_simpl
      end;
  try (fin; fail).

Lemma run_cons s p packets :
  run s (p :: packets) = run (session_after (process_packet s p)) packets.
Proof. reflexivity. Qed.

Lemma read_be64_range ptr : 0 <= read_be64 ptr < 2 ^ 64.
Proof.
  unfold read_be64, swap64, bswap.
  pose proof (load_le_range (rev (store_le 8 (load_le (take 8 ptr))))) as H.
  rewrite length_rev, length_store_le in H. exact H.
Qed.

Lemma read_be16_range ptr : 0 <= read_be16 ptr < 2 ^ 16.
Proof.
  unfold read_be16, swap16, bswap.
  pose proof (load_le_range (rev (store_le 2 (load_le (take 2 ptr))))) as H.
  rewrite length_rev, length_store_le in H. exact H.
Qed.

Lemma parse_ranges data header :
  parse data = Some header ->
  (20 <= length data)%nat /\
  0 <= sequence_number header < 2 ^ 64 /\
  0 <= message_count header < 2 ^ 16.
Proof.
  unfold parse, sizeof_Header.
  destruct (Z.ltb_spec (Z.of_nat (length data)) 20) as [Hlt|Hge];
    [discriminate|].
  intros [= <-]. cbn [sequence_number message_count].
  split; [lia|]. split; [apply read_be64_range | apply read_be16_range].
Qed.

Lemma parse_none data : parse data = None <-> (length data < 20)%nat.
Proof.
  unfold parse, sizeof_Header.
  destruct (Z.ltb_spec (Z.of_nat (length data)) 20) as [Hlt|Hge].
  - split; [intros _; lia | reflexivity].
  - split; [discriminate | lia].
Qed.

Lemma u64_add_l a b : u64 (u64 a + b) = u64 (a + b).
Proof. unfold u64. apply Z.add_mod_idemp_l. lia. Qed.

Lemma process_packet_expected s data :
  expected_sequence_ s
  <= expected_sequence_ (session_after (process_packet s data)).
Proof. decoder_cases s data ltac:(lia). Qed.

Lemma process_packet_expected_range s data :
  0 <= expected_sequence_ s < 2 ^ 64 ->
  0 <= expected_sequence_ (session_after (process_packet s data)) < 2 ^ 64.
Proof.
  pose proof (u64_range) as Hu.
  decoder_cases s data ltac:(intros; first [assumption | apply Hu]).
Qed.

(** X12: the expected sequence number never decreases, whatever the
    packets; in every state the decoder reaches from its constructor it
    is at least 1 and fits 64 bits. *)
Theorem expected_sequence_never_decreases (s : Session)
    (packets : list (list byte)) :
  expected_sequence_ s <= expected_sequence_ (run s packets) /\
  (reachable s -> 1 <= expected_sequence_ s < 2 ^ 64).
Proof.
  split.
  - revert s. induction packets as [|p ps IH]; intros s; [cbn; lia|].
    rewrite run_cons. etransitivity; [|apply IH].
    apply process_packet_expected.
  - intros Hs. induction Hs as [sid|s data Hs IH|s b Hs IH|s b Hs IH].
    + cbn. lia.
    + pose proof (process_packet_expected s data).
      pose proof (process_packet_expected_range s data ltac:(lia)). lia.
    + destruct s; exact IH.
    + destruct s; exact IH.
Qed.

Lemma expected_sequence_never_decreases_witness :
  1 <= expected_sequence_ (run Session_default [packet_5; packet_1]) < 2 ^ 64.
Proof.
  apply (expected_sequence_never_decreases
           (run Session_default [packet_5; packet_1]) []).
  apply reachable_run. apply reachable_new.
Defined.

Lemma process_packet_adopted s data :
  state_ s <> Unknown ->
  session_id_ (session_after (process_packet s data)) = session_id_ s /\
  state_ (session_after (process_packet s data)) <> Unknown.
Proof.
  decoder_cases s data
    ltac:(intros Hst; split;
          [reflexivity | first [exact Hst | discriminate]]);
    intros Hst; try (exfalso; apply Hst; reflexivity).
Qed.

Lemma process_packet_first s data header :
  state_ s = Unknown -> parse data = Some header ->
  session_id_ (session_after (process_packet s data)) = session header /\
  state_ (session_after (process_packet s data)) <> Unknown.
Proof.
  intros Hst Hp. revert Hp Hst.
  decoder_cases s data
    ltac:(intros Hp Hst; try discriminate Hst; try discriminate Hp;
          injection Hp as <-;
          (split; [reflexivity | discriminate])).
Qed.

Lemma run_adopted s packets :
  state_ s <> Unknown ->
  session_id_ (run s packets) = session_id_ s /\ state_ (run s packets) <> Unknown.
Proof.
  revert s. induction packets as [|p ps IH]; intros s Hst; [split; auto|].
  rewrite run_cons.
  destruct (process_packet_adopted s p Hst) as [Hid Hst'].
  destruct (IH _ Hst') as [Hid' Hst'']. split; [congruence | assumption].
Qed.

(** X13: the session identifier is fixed by the first packet that carries
    a header.  A decoder in state Unknown adopts the ten session bytes of
    that packet; from then on no packet changes the identifier, and the
    state is never Unknown again. *)
Theorem session_id_fixed_by_first_packet (s : Session) (data : list byte)
    (header : Header) (packets : list (list byte)) :
  state_ s = Unknown -> parse data = Some header ->
  session_id_ (run s (data :: packets)) = session header /\
  state_ (run s (data :: packets)) <> Unknown.
Proof.
  intros Hst Hp. rewrite run_cons.
  destruct (process_packet_first s data header Hst Hp) as [Hid Hst'].
  destruct (run_adopted _ packets Hst') as [Hid' Hst'']. split; congruence.
Qed.

Lemma session_id_fixed_by_first_packet_witness :
  session_id_ (run Session_default [packet_1; heartbeat_packet; packet_5])
  = session_field NASDAQ.
Proof.
  apply (session_id_fixed_by_first_packet Session_default packet_1
           {| session := session_field NASDAQ; sequence_number := 1;
              message_count := 1 |} [heartbeat_packet; packet_5]).
  - reflexivity.
  - vm_compute. reflexivity.
Defined.

(** X14: when [process_packet] returns false.  It does so exactly when
    the packet is shorter than the 20-byte header, or the decoder has
    adopted a session and the packet's ten session bytes differ from it.
    A rejected packet makes no callback; a short one leaves the decoder
    untouched; one of another session is counted in packets_received and
    puts the decoder in state Error, nothing else changing. *)
Theorem process_packet_rejects (s : Session) (data : list byte) :
  let o := process_packet s data in
  (result o = false <->
   (length data < 20)%nat \/
   (state_ s <> Unknown /\
    exists header, parse data = Some header /\
                   memcmp (session_id_ s) (session header) 10 <> 0)) /\
  (result o = false -> events o = []) /\
  ((length data < 20)%nat -> session_after o = s) /\
  (result o = false -> (20 <= length data)%nat ->
   session_after o
   = with_state (with_packets_received s (u64 (packets_received_ s + 1)))
       Error).
Proof.
  cbv zeta.
  pose proof (parse_none data) as Hnone.
  destruct (parse data) as [header0|] eqn:Hp0.
  - pose proof (parse_ranges data header0 Hp0) as (Hlen & _ & _).
    assert (Hshort : ~ (length data < 20)%nat) by lia. clear Hnone.
    revert Hp0.
    decoder_cases s data
      ltac:(intros Hp0; try discriminate Hp0; injection Hp0 as <-;
            (split;
             [ split;
               [ intros H;
                 first [ discriminate H
                       | right; split; [discriminate|];
                         exists hdr; split; [reflexivity|];
                         apply Z.eqb_neq; exact Hcmp ]
               | intros [H | [Hst [h [Hh Hne]]]];
                 [ exfalso; exact (Hshort H) | ];
                 try reflexivity;
                 try (exfalso; apply Hst; reflexivity);
                 try (injection Hh as <-; apply Z.eqb_eq in Hcmp;
                      exfalso; exact (Hne Hcmp)) ]
             | split;
               [ intros H; first [reflexivity | discriminate H]
               | split;
                 [ intros H; exfalso; exact (Hshort H)
                 | intros H _; first [reflexivity | discriminate H] ] ] ])).
  - assert (Hshort : (length data < 20)%nat) by (apply Hnone; reflexivity).
    unfold process_packet. rewrite Hp0. cbn [result events session_after].
    split; [|split; [|split]].
    + split; [intros _; left; exact Hshort | reflexivity].
    + reflexivity.
    + reflexivity.
    + intros _ H. lia.
Qed.

Lemma process_packet_rejects_witness :
  session_after (process_packet Session_default [x00; x01]) = Session_default.
Proof.
  destruct (process_packet_rejects Session_default [x00; x01])
    as (_ & _ & H & _).
  apply H. cbn. lia.
Defined.

Lemma process_packet_packets_received s data :
  packets_received_ (session_after (process_packet s data))
  = if has_header data then u64 (packets_received_ s + 1)
    else packets_received_ s.
Proof.
  pose proof (parse_none data) as Hnone.
  unfold has_header, sizeof_Header.
  destruct (parse data) as [header0|] eqn:Hp0.
  - pose proof (parse_ranges data header0 Hp0) as (Hlen & _ & _).
    replace (20 <=? Z.of_nat (length data)) with true
      by (symmetry; apply Z.leb_le; lia).
    clear Hnone. revert Hp0.
    decoder_cases s data ltac:(intros Hp0; first [reflexivity | discriminate Hp0]).
  - assert (Hshort : (length data < 20)%nat) by (apply Hnone; reflexivity).
    replace (20 <=? Z.of_nat (length data)) with false
      by (symmetry; apply Z.leb_gt; lia).
    unfold process_packet. rewrite Hp0. reflexivity.
Qed.

(** X15: packets_received counts the packets that carry a header.  After
    any run of packets the counter has grown (as a 64-bit counter) by the
    number of packets of at least 20 bytes, whether they were accepted or
    rejected for their session. *)
Theorem packets_received_counts_headers (s : Session)
    (packets : list (list byte)) :
  0 <= packets_received_ s < 2 ^ 64 ->
  packets_received_ (run s packets)
  = u64 (packets_received_ s
         + Z.of_nat (length (List.filter has_header packets))).
Proof.
  revert s. induction packets as [|p ps IH]; intros s Hr.
  - cbn. rewrite Z.add_0_r. symmetry. apply u64_small. exact Hr.
  - rewrite run_cons. cbn [List.filter].
    pose proof (process_packet_packets_received s p) as Hp.
    rewrite IH.
    + rewrite Hp. destruct (has_header p).
      * cbn [length]. rewrite u64_add_l. f_equal. lia.
      * reflexivity.
    + rewrite Hp. destruct (has_header p); [apply u64_range | exact Hr].
Qed.

Lemma packets_received_counts_headers_witness :
  packets_received_
    (run Session_default [packet_1; [x00; x01]; heartbeat_packet; packet_5])
  = 3.
Proof.
  rewrite (packets_received_counts_headers Session_default
             [packet_1; [x00; x01]; heartbeat_packet; packet_5]).
  - reflexivity.
  - cbn. lia.
Defined.

End SessionMore.

(** ** The message loop of the session decoder *)

Module DispatchMore.
Import Endian EndianFacts Moldudp64 SessionFacts DecoderFacts StateFacts.
Import SessionOps SessionMore.

Lemma dispatch_messages_shape data len n :
  forall offset seq received,
    let evs := fst (dispatch_messages data len n offset seq received) in
    List.filter is_message_event evs = evs /\
    List.filter is_gap_event evs = [] /\
    (length evs <= n)%nat.
Proof.
  induction n as [|n IH]; intros offset seq received;
    cbn [dispatch_messages].
  - cbn. repeat split; lia.
  - destruct (offset + sizeof_MessageBlock >? len);
      [cbn; repeat split; lia|].
    cbv zeta.
    destruct (_ >? len); [cbn; repeat split; lia|].
    match goal with
    | |- context [dispatch_messages ?a ?b ?c ?d ?e ?f] =>
        specialize (IH d e f);
        destruct (dispatch_messages a b c d e f) as [evs0 r0]
    end.
    cbn [fst] in *. destruct IH as (Hf1 & Hf2 & Hl).
    cbn [List.filter is_message_event is_gap_event length].
    rewrite Hf1, Hf2. repeat split; lia.
Qed.

Lemma dispatch_messages_count data len n :
  forall offset seq received,
    0 <= received < 2 ^ 64 ->
    let r := dispatch_messages data len n offset seq received in
    snd r = u64 (received + Z.of_nat (length (fst r))).
Proof.
  induction n as [|n IH]; intros offset seq received Hr;
    cbn [dispatch_messages].
  - cbn. rewrite Z.add_0_r, u64_small by exact Hr. reflexivity.
  - destruct (offset + sizeof_MessageBlock >? len).
    { cbn. rewrite Z.add_0_r, u64_small by exact Hr. reflexivity. }
    cbv zeta.
    destruct (_ >? len).
    { cbn. rewrite Z.add_0_r, u64_small by exact Hr. reflexivity. }
    match goal with
    | |- context [dispatch_messages ?a ?b ?c ?d ?e ?f] =>
        specialize (IH d e f (u64_range _));
        destruct (dispatch_messages a b c d e f) as [evs0 r0]
    end.
    cbn [fst snd length] in *. rewrite IH, u64_add_l. f_equal. lia.
Qed.

Lemma dispatch_messages_inside data n :
  forall offset seq received evs received',
    0 <= offset -> 0 <= seq < 2 ^ 64 ->
    dispatch_messages data (Z.of_nat (length data)) n offset seq received
    = (evs, received') ->
    forall (i : nat) e, evs !! i = Some e ->
      exists off l,
        e = MessageCallback (take (Z.to_nat l) (drop (Z.to_nat off) data)) l
              (u64 (seq + Z.of_nat i)) /\
        offset + sizeof_MessageBlock <= off /\ 0 <= l /\
        off + l <= Z.of_nat (length data) /\
        l = read_message_length
              (drop (Z.to_nat (off - sizeof_MessageBlock)) data).
Proof.
  induction n as [|n IH]; intros offset seq received evs received' Ho Hs;
    cbn [dispatch_messages].
  - intros [= <- <-] i e Hi. discriminate Hi.
  - destruct (Z.gtb_spec (offset + sizeof_MessageBlock) (Z.of_nat (length data)))
      as [Hcut|Hfit].
    { intros [= <- <-] i e Hi. discriminate Hi. }
    cbv zeta.
    set (msg_len := read_message_length (drop (Z.to_nat offset) data)).
    assert (Hlen : 0 <= msg_len < 2 ^ 16) by apply read_be16_range.
    destruct (Z.gtb_spec (offset + sizeof_MessageBlock + msg_len)
                (Z.of_nat (length data))) as [Hcut|Hfit'].
    { intros [= <- <-] i e Hi. discriminate Hi. }
    destruct (dispatch_messages data _ n _ _ _) as [evs0 r0] eqn:Hd.
    intros [= <- <-] i e Hi.
    unfold sizeof_MessageBlock in *.
    destruct i as [|i].
    + injection Hi as <-.
      exists (offset + 2), msg_len.
      rewrite Z.add_0_r, u64_small by exact Hs.
      split; [reflexivity|]. split; [lia|]. split; [lia|]. split; [lia|].
      subst msg_len. do 2 f_equal. lia.
    + cbn [lookup list_lookup] in Hi.
      destruct (IH (offset + 2 + msg_len) _ _ _ _ ltac:(lia) (u64_range _) Hd
                  i e Hi)
        as (off & l & He & Hoff & Hl & Hin & Hread).
      exists off, l. rewrite u64_add_l in He.
      split; [rewrite He; do 2 f_equal; lia|].
      split; [lia|]. split; [exact Hl|]. split; [exact Hin | exact Hread].
Qed.

(** X16: every message the decoder hands on lies inside the packet.  The
    message callbacks made for a packet are at most message_count many;
    the i-th one carries sequence number [sequence_number + i] (64-bit),
    the length read from a 2-byte prefix that lies inside the packet
    behind the header, and as data exactly that many bytes following the
    prefix, none of them beyond the end of the packet. *)
Theorem dispatched_messages_inside_packet (s : Session) (data : list byte)
    (header : Header) :
  parse data = Some header ->
  let msgs := List.filter is_message_event (events (process_packet s data)) in
  Z.of_nat (length msgs) <= message_count header /\
  forall (i : nat) e, msgs !! i = Some e ->
    exists off l,
      e = MessageCallback (take (Z.to_nat l) (drop (Z.to_nat off) data)) l
            (u64 (sequence_number header + Z.of_nat i)) /\
      sizeof_Header + sizeof_MessageBlock <= off /\ 0 <= l /\
      off + l <= Z.of_nat (length data) /\
      l = read_message_length
            (drop (Z.to_nat (off - sizeof_MessageBlock)) data).
Proof.
  intros Hp. cbv zeta.
  pose proof (parse_ranges data header Hp) as (_ & Hseq & Hcnt).
  pose proof (dispatch_messages_inside data) as Hin.
  pose proof (dispatch_messages_shape data (Z.of_nat (length data))) as Hct.
  assert (Hnil : Z.of_nat (length (@nil Event)) <= message_count header /\
                 forall (i : nat) e, @nil Event !! i = Some e ->
                   exists off l,
                     e = MessageCallback
                           (take (Z.to_nat l) (drop (Z.to_nat off) data)) l
                           (u64 (sequence_number header + Z.of_nat i)) /\
                     sizeof_Header + sizeof_MessageBlock <= off /\ 0 <= l /\
                     off + l <= Z.of_nat (length data) /\
                     l = read_message_length
                           (drop (Z.to_nat (off - sizeof_MessageBlock)) data)).
  { split; [cbn; lia | intros i e Hi; discriminate Hi]. }
  assert (Hoff : 0 <= get_messages_offset) by (cbv; discriminate).
  revert Hp.
  decoder_cases s data
    ltac:(intros Hp; try discriminate Hp; injection Hp as ->;
          try destruct gcb;
          cbn [app List.filter is_message_event];
          first
            [ exact Hnil
            | match type of Hdisp with
              | dispatch_messages _ _ ?n ?o ?q ?r = _ =>
                  destruct (Hct n o q r) as (Hf & _ & Hle)
              end;
              rewrite Hdisp in Hf, Hle; cbn [fst] in Hf, Hle;
              rewrite Hf;
              (split;
               [ lia
               | intros i e Hi;
                 exact (Hin _ _ _ _ _ _ Hoff Hseq Hdisp i e Hi) ]) ]).
Qed.

Lemma dispatched_messages_inside_packet_witness :
  let s := set_message_callback Session_default true in
  Z.of_nat (length (List.filter is_message_event
                      (events (process_packet s packet_1)))) <= 1.
Proof.
  destruct (dispatched_messages_inside_packet
              (set_message_callback Session_default true) packet_1
              {| session := session_field NASDAQ; sequence_number := 1;
                 message_count := 1 |}) as [H _].
  - vm_compute. reflexivity.
  - exact H.
Defined.

Lemma process_packet_counters s data :
  message_callback_ s = true -> gap_callback_ s = true ->
  0 <= messages_received_ s < 2 ^ 64 -> 0 <= gaps_detected_ s < 2 ^ 64 ->
  let o := process_packet s data in
  messages_received_ (session_after o)
  = u64 (messages_received_ s
         + Z.of_nat (length (List.filter is_message_event (events o)))) /\
  gaps_detected_ (session_after o)
  = u64 (gaps_detected_ s
         + Z.of_nat (length (List.filter is_gap_event (events o)))) /\
  message_callback_ (session_after o) = true /\
  gap_callback_ (session_after o) = true.
Proof.
  cbv zeta.
  pose proof (dispatch_messages_shape data (Z.of_nat (length data))) as Hsh.
  pose proof (dispatch_messages_count data (Z.of_nat (length data))) as Hct.
  decoder_cases s data
    ltac:(intros Hm Hg Hmr Hgd; try discriminate Hm; subst gcb;
          try (match type of Hdisp with
               | dispatch_messages _ _ ?n ?o ?q ?r = _ =>
                   destruct (Hsh n o q r) as (Hf1 & Hf2 & _);
                   pose proof (Hct n o q r Hmr) as Hc
               end;
               cbv zeta in Hc;
               rewrite Hdisp in Hf1, Hf2, Hc; cbn [fst snd] in Hf1, Hf2, Hc);
          cbn [app List.filter is_message_event is_gap_event];
          rewrite ?Hf1, ?Hf2; cbn [length];
          change (Z.of_nat 0) with 0; change (Z.of_nat 1) with 1;
          rewrite ?Z.add_0_r, ?(u64_small mr Hmr), ?(u64_small gd Hgd);
          (split; [|split; [|split]]);
          first [reflexivity | exact Hc | exact Hm]).
Qed.

Lemma run_events_cons s p packets :
  run_events s (p :: packets)
  = events (process_packet s p)
      ++ run_events (session_after (process_packet s p)) packets.
Proof. reflexivity. Qed.

Lemma length_filter_app {A} (f : A -> bool) (l1 l2 : list A) :
  Z.of_nat (length (List.filter f (l1 ++ l2)))
  = Z.of_nat (length (List.filter f l1)) + Z.of_nat (length (List.filter f l2)).
Proof. rewrite List.filter_app, length_app. lia. Qed.

(** X17: the counters agree with the callbacks made.  With both callbacks
    installed, after any run of packets messages_received has grown by
    the number of message callbacks made during the run and gaps_detected
    by the number of gap callbacks (both as 64-bit counters): no message
    is counted without being handed on, and none is handed on uncounted. *)
Theorem counters_match_callbacks (s : Session) (packets : list (list byte)) :
  message_callback_ s = true -> gap_callback_ s = true ->
  0 <= messages_received_ s < 2 ^ 64 -> 0 <= gaps_detected_ s < 2 ^ 64 ->
  messages_received_ (run s packets)
  = u64 (messages_received_ s
         + Z.of_nat (length (List.filter is_message_event
                               (run_events s packets)))) /\
  gaps_detected_ (run s packets)
  = u64 (gaps_detected_ s
         + Z.of_nat (length (List.filter is_gap_event
                               (run_events s packets)))).
Proof.
  revert s. induction packets as [|p ps IH]; intros s Hm Hg Hmr Hgd.
  - cbn. rewrite !Z.add_0_r, !u64_small by assumption. split; reflexivity.
  - rewrite run_cons, run_events_cons, !length_filter_app.
    destruct (process_packet_counters s p Hm Hg Hmr Hgd)
      as (Hc1 & Hc2 & Hm' & Hg').
    cbv zeta in *.
    destruct (IH (session_after (process_packet s p)) Hm' Hg') as [H1 H2].
    + rewrite Hc1. apply u64_range.
    + rewrite Hc2. apply u64_range.
    + rewrite H1, H2, Hc1, Hc2, !u64_add_l. split; f_equal; lia.
Qed.

Lemma counters_match_callbacks_witness :
  let s := set_gap_callback (set_message_callback Session_default true) true in
  messages_received_ (run s [packet_1; heartbeat_packet; packet_5]) = 2 /\
  gaps_detected_ (run s [packet_1; heartbeat_packet; packet_5]) = 1.
Proof.
  destruct (counters_match_callbacks
              (set_gap_callback (set_message_callback Session_default true) true)
              [packet_1; heartbeat_packet; packet_5]) as [H1 H2].
  - reflexivity.
  - reflexivity.
  - cbn. lia.
  - cbn. lia.
  - split; [rewrite H1 | rewrite H2]; vm_compute; reflexivity.
Defined.

End DispatchMore.

(** ** Gap bookkeeping *)

Module GapMore.
Import Endian EndianFacts Moldudp64 SessionFacts DecoderFacts StateFacts.
Import SessionOps SessionMore.

Lemma check_gap_fill_cons a b gap rest :
  check_gap_fill a b (gap :: rest)
  = check_gap_fill a b [gap] ++ check_gap_fill a b rest.
Proof.
  cbn [check_gap_fill].
  repeat match goal with
         | |- context [if ?c then _ else _] => destruct c
         end; reflexivity.
Qed.

Lemma check_gap_fill_one a b gap q :
  well_formed gap ->
  (pending (check_gap_fill a b [gap]) q <-> survives a b gap q) /\
  Forall well_formed (check_gap_fill a b [gap]) /\
  Forall (fun gap' => detected_at_ns gap' = detected_at_ns gap /\
                      start gap <= start gap' /\ end_ gap' <= end_ gap)
    (check_gap_fill a b [gap]) /\
  (length (check_gap_fill a b [gap]) <= 1)%nat.
Proof.
  unfold well_formed, survives, pending. destruct gap as [gs ge gt].
  cbn [start end_ detected_at_ns]. intros [Hse Hge].
  cbn [check_gap_fill start end_ detected_at_ns]. rewrite !Z.geb_leb.
  destruct (Z.leb_spec a gs), (Z.leb_spec ge b), (Z.leb_spec gs b),
    (Z.leb_spec a ge); cbn [andb]; try lia;
    rewrite ?(u64_small (b + 1)), ?(u64_small (a - 1)) by lia;
    try match goal with
        | |- context [?x >? ?y] => destruct (Z.gtb_spec x y); try lia
        end;
    rewrite ?Exists_cons, ?Exists_nil, ?Forall_cons, ?Forall_nil;
    cbn [start end_ detected_at_ns length]; intuition lia.
Qed.

(** X18: what [check_gap_fill] leaves pending.  For well-formed gaps, a
    sequence number is missing after [check_gap_fill start end] exactly
    when it was missing before, in some gap, and either lies outside the
    range from [start] to [end] or the range lies strictly inside that
    gap (a fill in the middle of a gap leaves the whole gap pending).  The
    gaps stay well-formed and none is added. *)
Theorem check_gap_fill_pending (a b : Z) (gaps : list Gap) (q : Z) :
  Forall well_formed gaps ->
  (pending (check_gap_fill a b gaps) q
   <-> Exists (fun gap => survives a b gap q) gaps) /\
  Forall well_formed (check_gap_fill a b gaps) /\
  (length (check_gap_fill a b gaps) <= length gaps)%nat.
Proof.
  induction gaps as [|gap rest IH]; intros Hwf.
  - cbn. unfold pending. rewrite !Exists_nil. split; [tauto|].
    split; [constructor | lia].
  - apply Forall_cons in Hwf as [Hgap Hrest].
    destruct (IH Hrest) as (IHp & IHw & IHl).
    destruct (check_gap_fill_one a b gap q Hgap) as (Hp & Hw & _ & Hl).
    rewrite check_gap_fill_cons. unfold pending in *.
    rewrite Exists_app, Exists_cons, Forall_app, length_app.
    cbn [length]. split; [tauto|]. split; [tauto | lia].
Qed.

Lemma check_gap_fill_pending_witness :
  let gaps := [{| start := 2; end_ := 9; detected_at_ns := 0 |}] in
  pending (check_gap_fill 2 4 gaps) 5 /\ ~ pending (check_gap_fill 2 4 gaps) 3.
Proof.
  assert (Hwf : Forall well_formed
                  [{| start := 2; end_ := 9; detected_at_ns := 0 |}]).
  { repeat constructor; cbn; lia. }
  split.
  - apply (check_gap_fill_pending 2 4 _ 5 Hwf).
    constructor. unfold survives. cbn. lia.
  - intros H. apply (check_gap_fill_pending 2 4 _ 3 Hwf) in H.
    apply Exists_cons in H as [H | H].
    + unfold survives in H. cbn in H. lia.
    + apply Exists_nil in H. exact H.
Defined.

Lemma gaps_sorted_bound gaps : forall lo hi, gaps_sorted lo gaps hi -> lo <= hi.
Proof.
  induction gaps as [|gap rest IH]; intros lo hi; cbn [gaps_sorted];
    [tauto|].
  intros (H1 & H2 & H3). apply IH in H3. lia.
Qed.

Lemma gaps_sorted_lo gaps lo lo' hi :
  lo' <= lo -> gaps_sorted lo gaps hi -> gaps_sorted lo' gaps hi.
Proof. destruct gaps; cbn [gaps_sorted]; intuition lia. Qed.

Lemma gaps_sorted_hi gaps : forall lo hi hi',
  hi <= hi' -> gaps_sorted lo gaps hi -> gaps_sorted lo gaps hi'.
Proof.
  induction gaps as [|gap rest IH]; intros lo hi hi' Hh; cbn [gaps_sorted];
    [lia|].
  intros (H1 & H2 & H3). split; [exact H1|]. split; [exact H2|].
  exact (IH _ _ _ Hh H3).
Qed.

Lemma gaps_sorted_push_back gaps : forall lo hi gap hi',
  gaps_sorted lo gaps hi -> hi <= start gap -> start gap <= end_ gap ->
  end_ gap + 1 <= hi' ->
  gaps_sorted lo (gaps ++ [gap]) hi'.
Proof.
  induction gaps as [|g rest IH]; intros lo hi gap hi' Hs H1 H2 H3;
    cbn [gaps_sorted app] in *.
  - repeat split; lia.
  - destruct Hs as (Ha & Hb & Hc). split; [exact Ha|]. split; [exact Hb|].
    exact (IH _ _ _ _ Hc H1 H2 H3).
Qed.

Lemma gaps_sorted_fill a b gaps : forall lo hi,
  0 <= lo -> hi <= 2 ^ 64 ->
  gaps_sorted lo gaps hi -> gaps_sorted lo (check_gap_fill a b gaps) hi.
Proof.
  induction gaps as [|gap rest IH]; intros lo hi Hlo Hhi Hs; [exact Hs|].
  destruct Hs as (H1 & H2 & H3).
  pose proof (gaps_sorted_bound _ _ _ H3) as Hb.
  pose proof (IH (end_ gap + 1) hi ltac:(lia) Hhi H3) as IH'.
  destruct gap as [gs ge gt]. cbn [start end_] in *.
  cbn [check_gap_fill start end_ detected_at_ns]. rewrite !Z.geb_leb.
  destruct (Z.leb_spec a gs), (Z.leb_spec ge b), (Z.leb_spec gs b),
    (Z.leb_spec a ge); cbn [andb]; try lia;
    rewrite ?(u64_small (b + 1)), ?(u64_small (a - 1)) by lia;
    try match goal with
        | |- context [?x >? ?y] => destruct (Z.gtb_spec x y); try lia
        end;
    cbn [gaps_sorted start end_];
    first [ apply (gaps_sorted_lo _ (ge + 1)); [lia | exact IH']
          | split; [lia|]; split; [lia|];
            first [ exact IH'
                  | apply (gaps_sorted_lo _ (ge + 1)); [lia | exact IH'] ] ].
Qed.

Lemma process_packet_gaps_sorted s data :
  no_wrap data ->
  1 <= expected_sequence_ s < 2 ^ 64 ->
  gaps_sorted 1 (pending_gaps_ s) (expected_sequence_ s) ->
  let s' := session_after (process_packet s data) in
  gaps_sorted 1 (pending_gaps_ s') (expected_sequence_ s').
Proof.
  cbv zeta. unfold no_wrap.
  pose proof (parse_ranges data) as Hpr.
  decoder_cases s data
    ltac:(intros Hnw Hexp Hs;
          first
            [ exact Hs
            | specialize (Hpr _ eq_refl); destruct Hpr as (_ & Hseq & Hcnt);
              destruct Hnw as [Hnw | Hnw]; [congruence|];
              rewrite ?(u64_small (sequence_number hdr + message_count hdr))
                in * by lia;
              first
                [ exact Hs
                | lia
                | apply (gaps_sorted_hi _ _ exp); [lia | exact Hs]
                | apply (gaps_sorted_hi _ _ exp); [lia|];
                  apply gaps_sorted_fill; [lia | lia | exact Hs]
                | apply gaps_sorted_fill; [lia | lia | exact Hs]
                | apply (gaps_sorted_push_back _ _ exp); cbn [start end_];
                  rewrite ?(u64_small (sequence_number hdr - 1)) by lia;
                  first [exact Hs | lia] ] ]).
Qed.

(** X19: the pending gaps stay ordered.  As long as no packet's
    [sequence_number + message_count] exceeds 64 bits, the gap list of a
    decoder is always a run of non-empty ranges in ascending order,
    without overlap, starting at 1 or above and ending below the expected
    sequence number. *)
Theorem pending_gaps_ordered (s : Session) (packets : list (list byte)) :
  Forall no_wrap packets ->
  1 <= expected_sequence_ s < 2 ^ 64 ->
  gaps_sorted 1 (pending_gaps_ s) (expected_sequence_ s) ->
  gaps_sorted 1 (pending_gaps_ (run s packets))
    (expected_sequence_ (run s packets)).
Proof.
  revert s. induction packets as [|p ps IH]; intros s Hnw Hexp Hs;
    [exact Hs|].
  apply Forall_cons in Hnw as [Hp Hps]. rewrite run_cons.
  apply IH; [exact Hps | | apply process_packet_gaps_sorted; assumption].
  pose proof (process_packet_expected s p).
  pose proof (process_packet_expected_range s p ltac:(lia)). lia.
Qed.

Lemma pending_gaps_ordered_witness :
  let s := run Session_default [packet_5; packet_1] in
  gaps_sorted 1 (pending_gaps_ s) (expected_sequence_ s).
Proof.
  apply (pending_gaps_ordered Session_default [packet_5; packet_1]).
  - repeat constructor; unfold no_wrap; vm_compute; right; reflexivity.
  - cbn. lia.
  - cbn. lia.
Defined.

End GapMore.

(** ** A gap and its retransmission *)

Module HealFacts.
Import Endian EndianFacts Moldudp64 SessionFacts DecoderFacts StateFacts.
Import SessionOps SessionMore.

Lemma check_gap_fill_front e k seq :
  1 <= e < seq -> seq < 2 ^ 64 -> 0 <= k -> e + k < 2 ^ 64 ->
  check_gap_fill e (u64 (e + k - 1)) [gap_before e seq]
  = if seq - e <=? k then [] else [gap_before (e + k) seq].
Proof.
  intros He Hs Hk Hek. unfold gap_before.
  cbn [check_gap_fill start end_ detected_at_ns].
  rewrite (u64_small (e + k - 1)) by lia. rewrite !Z.geb_leb.
  replace (e + k - 1 + 1) with (e + k) by lia.
  rewrite (u64_small (e + k)) by lia.
  destruct (Z.leb_spec (seq - e) k), (Z.leb_spec e e),
    (Z.leb_spec (seq - 1) (e + k - 1)), (Z.leb_spec e (e + k - 1));
    cbn [andb]; try lia; try reflexivity;
    try (destruct (Z.gtb_spec (e + k) (seq - 1)); try lia; reflexivity).
  destruct (Z.leb_spec e (seq - 1)); cbn [andb]; try lia.
  replace k with 0 by lia. rewrite Z.add_0_r. reflexivity.
Qed.

(** X20: a gap and the packet that fills it.  A decoder without pending
    gaps that expects [e] and receives a packet numbered [seq > e] turns
    Stale with the one gap from [e] to [seq - 1].  A following packet that
    starts at [e] and carries [k] messages is accepted and its messages
    handed on; if it reaches the end of the gap ([k >= seq - e]) the gap
    list is empty and the decoder Active and healthy again, otherwise the
    gap shrinks to start at [e + k] and the decoder stays Stale. *)
Theorem gap_then_retransmission (s : Session) (sid : list byte) (seq n : Z)
    (msgs fill : list (list byte)) :
  pending_gaps_ s = [] ->
  state_ s = Unknown \/ (state_ s = Active /\ session_id_ s = session_field sid) ->
  let e := expected_sequence_ s in
  let k := Z.of_nat (length fill) in
  1 <= e < seq -> seq < 2 ^ 64 - 1 -> seq + n < 2 ^ 64 ->
  n = Z.of_nat (length msgs) -> n < 2 ^ 16 -> k < 2 ^ 16 -> e + k < 2 ^ 64 ->
  Forall (fun msg => Z.of_nat (length msg) < 2 ^ 16) msgs ->
  Forall (fun msg => Z.of_nat (length msg) < 2 ^ 16) fill ->
  let o1 := process_packet s (create_moldudp_packet sid seq n msgs) in
  let s1 := session_after o1 in
  let o2 := process_packet s1 (create_moldudp_packet sid e k fill) in
  let s2 := session_after o2 in
  state_ s1 = Stale /\ pending_gaps_ s1 = [gap_before e seq] /\
  is_healthy s1 = false /\
  result o2 = true /\
  events o2 = (if message_callback_ s then messages_in_order fill e else []) /\
  pending_gaps_ s2
  = (if seq - e <=? k then [] else [gap_before (e + k) seq]) /\
  state_ s2 = (if seq - e <=? k then Active else Stale) /\
  is_healthy s2 = (seq - e <=? k) /\
  expected_sequence_ s2 = Z.max (seq + n) (e + k).
Proof.
  intros Hgaps Hst e k He Hseq Hfit Hn Hn16 Hk16 Hek Hmsgs Hfill o1 s1 o2 s2.
  assert (Hk : 0 <= k) by (subst k; lia).
  destruct (process_packet_data s sid seq n msgs []) as
    (_ & _ & Hg1 & He1 & Hs1 & _ & Hid1 & Hgc1 & Hmc1);
    try assumption; try lia.
  { destruct Hst as [H | [_ H]]; [left | right]; exact H. }
  rewrite app_nil_r in *. fold o1 in Hg1, He1, Hs1, Hid1, Hgc1, Hmc1.
  fold s1 in Hg1, He1, Hs1, Hid1, Hgc1, Hmc1. fold e in Hg1, He1, Hs1.
  replace (seq >? e) with true in Hg1, Hs1 by (symmetry; apply Z.gtb_lt; lia).
  rewrite Hgaps in Hg1. cbn [app] in Hg1.
  rewrite Z.max_r in He1 by lia.
  destruct (process_packet_data s1 sid e k fill []) as
    (Hr2 & Hev2 & Hg2 & He2 & Hs2 & _);
    try assumption; try lia.
  { right. exact Hid1. }
  rewrite app_nil_r in *. fold o2 in Hr2, Hev2, Hg2, He2, Hs2.
  fold s2 in Hg2, He2, Hs2.
  rewrite He1 in Hev2, Hg2, He2, Hs2.
  replace (e >? seq + n) with false in Hev2, Hg2, Hs2
    by (symmetry; rewrite Z.gtb_ltb; apply Z.ltb_ge; lia).
  replace (e <? seq + n) with true in Hg2, Hs2
    by (symmetry; apply Z.ltb_lt; lia).
  rewrite Hg1, check_gap_fill_front in Hg2, Hs2 by lia.
  rewrite Hs1 in Hs2. cbn [andb app] in Hev2. rewrite Hmc1 in Hev2.
  unfold is_healthy. rewrite Hs1, Hg1, Hs2, Hg2.
  split; [reflexivity|]. split; [reflexivity|]. split; [reflexivity|].
  split; [exact Hr2|]. split; [exact Hev2|]. split; [reflexivity|].
  destruct (seq - e <=? k); cbn [vector_empty SessionState_eqb andb];
    (split; [reflexivity|]); (split; [reflexivity|]); rewrite He2; lia.
Qed.

Lemma gap_then_retransmission_witness :
  let s1 := session_after (process_packet Session_default packet_5) in
  let s2 := session_after
              (process_packet s1
                 (create_moldudp_packet NASDAQ 1 4
                    [fake_message; fake_message; fake_message; fake_message]))
  in
  state_ s1 = Stale /\ state_ s2 = Active /\ pending_gaps_ s2 = [].
Proof.
  destruct (gap_then_retransmission Session_default NASDAQ 5 1 [fake_message]
              [fake_message; fake_message; fake_message; fake_message])
    as (H1 & _ & _ & _ & _ & H2 & H3 & _).
  - reflexivity.
  - left. reflexivity.
  - cbn. lia.
  - lia.
  - lia.
  - reflexivity.
  - lia.
  - cbn. lia.
  - cbn. lia.
  - repeat constructor.
  - repeat constructor.
  - split; [exact H1|]. split; [exact H3 | exact H2].
Defined.

End HealFacts.

(** ** Reset, retransmissions and the session manager *)

Module SessionOpsFacts.
Import Endian EndianFacts Moldudp64 SessionFacts DecoderFacts StateFacts.
Import SessionOps SessionMore.

Lemma process_packet_reset s sid data :
  has_header data = true ->
  process_packet (reset s) data
  = process_packet
      (set_message_callback (set_gap_callback (Session_new sid) (gap_callback_ s))
         (message_callback_ s)) data.
Proof.
  intros Hh. pose proof (parse_none data) as Hn.
  unfold has_header, sizeof_Header in Hh. apply Z.leb_le in Hh.
  unfold process_packet.
  destruct (parse data) as [header|]; [|assert (length data < 20)%nat by (apply Hn; reflexivity); lia].
  destruct s as [sid0 exp st gaps pr mr gd hb gcb mcb]. reflexivity.
Qed.

(** X21: [reset] makes the decoder forget its session.  Whatever state
    and identifier the decoder had, after [reset] a run of packets that
    starts with a packet of at least 20 bytes leaves the same decoder
    state and makes the same callbacks as on a newly constructed decoder
    with the same callbacks installed; all four statistics are zero. *)
Theorem reset_like_new (s : Session) (sid data : list byte)
    (packets : list (list byte)) :
  has_header data = true ->
  let fresh :=
    set_message_callback (set_gap_callback (Session_new sid) (gap_callback_ s))
      (message_callback_ s) in
  run (reset s) (data :: packets) = run fresh (data :: packets) /\
  run_events (reset s) (data :: packets) = run_events fresh (data :: packets) /\
  get_stats (reset s) = get_stats fresh /\
  get_state (reset s) = Unknown /\ has_gaps (reset s) = false.
Proof.
  intros Hh fresh. subst fresh.
  rewrite !run_cons. cbn [run_events].
  rewrite (process_packet_reset s sid data Hh).
  repeat split.
Qed.

Lemma reset_like_new_witness :
  let s := run Session_default [packet_5; packet_1] in
  run (reset s) [packet_1] = run Session_default [packet_1].
Proof.
  destruct (reset_like_new (run Session_default [packet_5; packet_1])
              (repeat x00 10) packet_1 []) as [H _].
  - reflexivity.
  - exact H.
Defined.

Lemma length_blocks_cons msg msgs :
  length (blocks (msg :: msgs)) = (2 + length msg + length (blocks msgs))%nat.
Proof.
  unfold blocks. cbn [map concat]. rewrite length_app, length_message_block.
  lia.
Qed.

Lemma retransmit_messages_blocks msgs :
  forall pre post k seq,
    Forall (fun msg => Z.of_nat (length msg) < 2 ^ 16) msgs ->
    0 <= seq -> seq + Z.of_nat (length msgs) < 2 ^ 64 ->
    let data := pre ++ blocks msgs ++ post in
    retransmit_messages data (Z.of_nat (length data)) (length msgs + k)
      (Z.of_nat (length pre)) seq
    = option_map (app (messages_in_order msgs seq))
        (retransmit_messages data (Z.of_nat (length data)) k
           (Z.of_nat (length (pre ++ blocks msgs)))
           (u64 (seq + Z.of_nat (length msgs)))).
Proof.
  induction msgs as [|msg msgs IH]; intros pre post k seq Hsmall Hseq Hfit data.
  - cbn [length Nat.add messages_in_order]. subst data. unfold blocks.
    cbn [map concat app]. cbn [length] in Hfit. change (Z.of_nat 0) with 0 in *.
    rewrite app_nil_r, Z.add_0_r, u64_small by lia.
    destruct (retransmit_messages _ _ _ _ _); reflexivity.
  - inversion Hsmall as [|? ? Hmsg Hrest]; subst.
    cbn [length] in Hfit. rewrite Nat2Z.inj_succ in Hfit.
    cbn [length Nat.add retransmit_messages messages_in_order].
    assert (Hdata : data = pre ++ message_block msg ++ blocks msgs ++ post).
    { subst data. unfold blocks. cbn [map concat]. rewrite <- !app_assoc.
      reflexivity. }
    assert (Hdl : Z.of_nat (length data)
                  = Z.of_nat (length pre) + 2 + Z.of_nat (length msg)
                    + Z.of_nat (length (blocks msgs ++ post))).
    { rewrite Hdata, !length_app, length_message_block. lia. }
    unfold sizeof_MessageBlock.
    destruct (Z.ltb_spec (Z.of_nat (length pre)) (Z.of_nat (length data)));
      [|lia].
    destruct (Z.gtb_spec (Z.of_nat (length pre) + 2) (Z.of_nat (length data)));
      [lia|].
    rewrite Nat2Z.id.
    assert (Hdrop : drop (length pre) data
                    = message_block msg ++ blocks msgs ++ post).
    { rewrite Hdata. apply drop_app_length. }
    rewrite Hdrop, read_message_length_block by exact Hmsg.
    destruct (Z.gtb_spec (Z.of_nat (length pre) + 2 + Z.of_nat (length msg))
                (Z.of_nat (length data))); [lia|].
    replace (Z.to_nat (Z.of_nat (length pre) + 2)) with (length pre + 2)%nat
      by lia.
    assert (Htake : take (Z.to_nat (Z.of_nat (length msg)))
                      (drop (length pre + 2) data) = msg).
    { rewrite Nat2Z.id, <- drop_drop, Hdrop.
      unfold message_block. cbn [app drop skipn]. apply take_app_length. }
    rewrite Htake.
    replace (Z.of_nat (length pre) + 2 + Z.of_nat (length msg))
      with (Z.of_nat (length (pre ++ message_block msg)))
      by (rewrite length_app, length_message_block; lia).
    pose proof (IH (pre ++ message_block msg) post k (u64 (seq + 1)) Hrest
                  (proj1 (u64_range _))) as IH'.
    rewrite (u64_small (seq + 1)) in IH' by lia.
    cbv zeta in IH'. rewrite <- !app_assoc in IH'.
    rewrite (u64_small (seq + 1)) by lia.
    assert (Hpre : pre ++ blocks (msg :: msgs)
                   = pre ++ message_block msg ++ blocks msgs).
    { unfold blocks. cbn [map concat]. reflexivity. }
    rewrite Hpre, Hdata, IH' by lia.
    replace (seq + 1 + Z.of_nat (length msgs))
      with (seq + Z.succ (Z.of_nat (length msgs))) by lia.
    rewrite Nat2Z.inj_succ. clear IH'.
    match goal with
    | |- context [retransmit_messages ?a ?b k ?c ?d] =>
        destruct (retransmit_messages a b k c d)
    end; reflexivity.
Qed.

(** X22: a retransmission of complete message blocks.  Given [n] message
    blocks numbered from [start_seq], [process_retransmission] hands the
    [n] messages on in order (when a message callback is installed),
    reading only inside the buffer, and applies [check_gap_fill] for the
    range; the decoder becomes Active when no gap is left, whatever its
    state was, and keeps its state otherwise.  The expected sequence
    number, the session identifier and all four statistics are left as
    they were: retransmitted messages are not counted. *)
Theorem process_retransmission_blocks (s : Session) (start_seq : Z)
    (msgs : list (list byte)) :
  Forall (fun msg => Z.of_nat (length msg) < 2 ^ 16) msgs ->
  Z.of_nat (length msgs) < 2 ^ 16 ->
  0 <= start_seq -> start_seq + Z.of_nat (length msgs) < 2 ^ 64 ->
  let n := Z.of_nat (length msgs) in
  let gaps' :=
    check_gap_fill start_seq (u64 (start_seq + n - 1)) (pending_gaps_ s) in
  exists s',
    process_retransmission s start_seq (blocks msgs) n
    = Some (s', if message_callback_ s
                then messages_in_order msgs start_seq else []) /\
    pending_gaps_ s' = gaps' /\
    state_ s' = (if vector_empty gaps' then Active else state_ s) /\
    expected_sequence_ s' = expected_sequence_ s /\
    session_id_ s' = session_id_ s /\
    get_stats s' = get_stats s.
Proof.
  intros Hsmall Hcount Hseq Hfit n gaps'.
  pose proof (retransmit_messages_blocks msgs [] [] O start_seq Hsmall Hseq
                Hfit) as Hr.
  cbv zeta in Hr. cbn [app length retransmit_messages option_map] in Hr.
  change (Z.of_nat 0) with 0 in Hr.
  rewrite !app_nil_r, Nat.add_0_r in Hr.
  unfold process_retransmission. subst n. rewrite Nat2Z.id.
  destruct s as [sid0 exp st gaps pr mr gd hb gcb mcb]. session_simpl.
  fold gaps'. destruct mcb; rewrite ?Hr;
    destruct (vector_empty gaps'); session_simpl;
    eexists; (split; [reflexivity|]); session_simpl; repeat split.
Qed.

Lemma process_retransmission_blocks_witness :
  let s := set_message_callback
             (session_after (process_packet Session_default packet_5)) true in
  exists s',
    process_retransmission s 1
      (blocks [fake_message; fake_message; fake_message; fake_message]) 4
    = Some (s', messages_in_order
                  [fake_message; fake_message; fake_message; fake_message] 1) /\
    pending_gaps_ s' = [] /\ state_ s' = Active.
Proof.
  destruct (process_retransmission_blocks
              (set_message_callback
                 (session_after (process_packet Session_default packet_5)) true)
              1 [fake_message; fake_message; fake_message; fake_message])
    as (s' & H1 & H2 & H3 & _).
  - repeat constructor.
  - cbn. lia.
  - lia.
  - cbn. lia.
  - exists s'. split; [exact H1|]. split; [rewrite H2 | rewrite H3];
      vm_compute; reflexivity.
Defined.

(** X23: the retransmission loop can read past the buffer.  Its loop
    condition only asks for one byte to be left: when the message blocks
    given are followed by a single stray byte and more messages are
    announced than blocks are present, the next turn reads a 2-byte
    length prefix of which only one byte lies inside the buffer. *)
Theorem process_retransmission_stray_byte (s : Session) (start_seq : Z)
    (msgs : list (list byte)) (stray : byte) (message_count : Z) :
  message_callback_ s = true ->
  Forall (fun msg => Z.of_nat (length msg) < 2 ^ 16) msgs ->
  0 <= start_seq -> start_seq + Z.of_nat (length msgs) < 2 ^ 64 ->
  Z.of_nat (length msgs) < message_count < 2 ^ 16 ->
  process_retransmission s start_seq (blocks msgs ++ [stray]) message_count
  = None.
Proof.
  intros Hcb Hsmall Hseq Hfit Hcount.
  unfold process_retransmission.
  destruct s as [sid0 exp st gaps pr mr gd hb gcb mcb]. session_simpl.
  subst mcb.
  replace (Z.to_nat message_count)
    with (length msgs + S (Z.to_nat message_count - length msgs - 1))%nat
    by lia.
  pose proof (retransmit_messages_blocks msgs [] [stray]
                (S (Z.to_nat message_count - length msgs - 1)) start_seq
                Hsmall Hseq Hfit) as Hr.
  cbv zeta in Hr. cbn [app length] in Hr. change (Z.of_nat 0) with 0 in Hr.
  rewrite Hr. cbn [retransmit_messages]. unfold sizeof_MessageBlock.
  rewrite length_app. cbn [length].
  destruct (Z.ltb_spec (Z.of_nat (length (blocks msgs)))
              (Z.of_nat (length (blocks msgs) + 1))); [|lia].
  destruct (Z.gtb_spec (Z.of_nat (length (blocks msgs)) + 2)
              (Z.of_nat (length (blocks msgs) + 1))); [|lia].
  reflexivity.
Qed.

Lemma process_retransmission_stray_byte_witness :
  process_retransmission (set_message_callback Session_default true) 1
    (blocks [fake_message] ++ [x00]) 2
  = None.
Proof.
  apply (process_retransmission_stray_byte
           (set_message_callback Session_default true) 1 [fake_message] x00 2).
  - reflexivity.
  - repeat constructor.
  - lia.
  - cbn. lia.
  - cbn. lia.
Defined.

Lemma manager_reachable_length sessions_ :
  manager_reachable sessions_ -> (length sessions_ <= 1)%nat.
Proof.
  induction 1 as [|sessions_ sid Hr IH|sessions_ i s data Hr IH Hi].
  - cbn. lia.
  - unfold get_session. destruct sessions_ as [|s0 rest]; cbn in *; lia.
  - unfold SessionManager in *. rewrite length_insert. exact IH.
Qed.

(** X24: the session manager holds a single session.  However many
    calls of [get_session] are made and with whatever identifiers, the
    manager never holds more than one session: the first call creates a
    session with the identifier given, every later call returns that
    same session and ignores its argument.  [get_stale_sessions] lists
    that session when its state is Stale, and nothing otherwise. *)
Theorem manager_single_session (sessions_ : SessionManager)
    (session_id : list byte) :
  manager_reachable sessions_ ->
  (length sessions_ <= 1)%nat /\
  snd (get_session sessions_ session_id) = 0%nat /\
  fst (get_session sessions_ session_id)
  = match sessions_ with
    | [] => [Session_new session_id]
    | _ => sessions_
    end /\
  get_stale_sessions sessions_
  = match sessions_ with
    | s :: _ => if SessionState_eqb (state_ s) Stale then [0%nat] else []
    | [] => []
    end.
Proof.
  intros Hr. pose proof (manager_reachable_length _ Hr) as Hl.
  split; [exact Hl|].
  destruct sessions_ as [|s [|s' rest]]; cbn in Hl; try lia.
  - repeat split.
  - unfold get_session, get_stale_sessions, get_state. cbn.
    destruct (SessionState_eqb (state_ s) Stale); repeat split.
Qed.

Lemma manager_single_session_witness :
  let m := fst (get_session [] NASDAQ) in
  fst (get_session m (repeat x00 10)) = [Session_new NASDAQ].
Proof.
  destruct (manager_single_session (fst (get_session [] NASDAQ))
              (repeat x00 10)) as (_ & _ & H & _).
  - apply manager_get. apply manager_new.
  - exact H.
Defined.

End SessionOpsFacts.

(** ** The packet handler *)

Module HandlerFacts.
Import Endian EndianFacts Itch5 Moldudp64 Spsc SpscFacts.
Import SessionFacts DecoderFacts SessionOps SessionMore Dpdk.

Ltac handler_simpl :=
  cbn [with_output_buffer with_parser with_session with_running
       with_packets_processed with_bytes_processed with_invalid_packets
       with_messages_pushed with_buffer_full_count
       output_buffer_ parser_ session_ running_ packets_processed_
       bytes_processed_ invalid_packets_ messages_pushed_ buffer_full_count_
       fst snd] in *.

(** What the message path of the handler leaves alone. *)
Lemma push_message_frame h msg :
  let h' := push_message h msg in
  session_ h' = session_ h /\ parser_ h' = parser_ h /\
  packets_processed_ h' = packets_processed_ h /\
  bytes_processed_ h' = bytes_processed_ h /\
  invalid_packets_ h' = invalid_packets_ h.
Proof.
  cbv zeta. unfold push_message.
  destruct (try_push _ _ _) as [[|] rb]; cbn [negb]; destruct h;
    handler_simpl; repeat split.
Qed.

Lemma push_messages_frame records : forall h,
  let h' := fold_left push_message records h in
  session_ h' = session_ h /\ parser_ h' = parser_ h /\
  packets_processed_ h' = packets_processed_ h /\
  bytes_processed_ h' = bytes_processed_ h /\
  invalid_packets_ h' = invalid_packets_ h.
Proof.
  induction records as [|r rs IH]; intros h; cbn [fold_left];
    [repeat split|].
  destruct (IH (push_message h r)) as (H1 & H2 & H3 & H4 & H5).
  destruct (push_message_frame h r) as (G1 & G2 & G3 & G4 & G5).
  cbv zeta in *. repeat split; congruence.
Qed.

Lemma parse_itch_message_frame h data :
  let h' := parse_itch_message h data in
  session_ h' = session_ h /\
  parser_ h' = parser_after (parse_message (parser_ h) data) /\
  packets_processed_ h' = packets_processed_ h /\
  bytes_processed_ h' = bytes_processed_ h /\
  invalid_packets_ h' = invalid_packets_ h.
Proof.
  cbv zeta. unfold parse_itch_message.
  destruct (push_messages_frame
              (PacketHandler.records_of
                 (callbacks (parse_message (parser_ h) data)))
              (with_parser h (parser_after (parse_message (parser_ h) data))))
    as (H1 & H2 & H3 & H4 & H5).
  cbv zeta in *. destruct h; handler_simpl. repeat split; assumption.
Qed.

Lemma on_events_frame evs : forall h,
  let h' := fold_left on_event evs h in
  session_ h' = session_ h /\
  packets_processed_ h' = packets_processed_ h /\
  bytes_processed_ h' = bytes_processed_ h /\
  invalid_packets_ h' = invalid_packets_ h.
Proof.
  induction evs as [|e es IH]; intros h; cbn [fold_left]; [repeat split|].
  destruct (IH (on_event h e)) as (H1 & H2 & H3 & H4).
  cbv zeta in *. rewrite H1, H2, H3, H4.
  destruct e as [gap|data l q]; cbn [on_event]; [repeat split|].
  destruct (parse_itch_message_frame h data) as (G1 & _ & G3 & G4 & G5).
  repeat split; assumption.
Qed.

Lemma session_process_packet_frame h data :
  let r := session_process_packet h data in
  fst r = result (process_packet (session_ h) data) /\
  session_ (snd r) = session_after (process_packet (session_ h) data) /\
  packets_processed_ (snd r) = packets_processed_ h /\
  bytes_processed_ (snd r) = bytes_processed_ h /\
  invalid_packets_ (snd r) = invalid_packets_ h.
Proof.
  cbv zeta. unfold session_process_packet. cbn [fst snd].
  destruct (on_events_frame (events (process_packet (session_ h) data))
              (with_session h
                 (session_after (process_packet (session_ h) data))))
    as (H1 & H2 & H3 & H4).
  cbv zeta in *. destruct h; handler_simpl. repeat split; assumption.
Qed.

(** X25: the verdict of [process_raw_packet].  The call is counted once:
    a frame it returns false for adds one to invalid_packets and leaves
    packets_processed and bytes_processed alone; one it returns true for
    adds one to packets_processed and the frame length to bytes_processed
    and leaves invalid_packets alone.  Frames shorter than 62 bytes, with
    an ether type other than 0x0800 or an IP protocol other than 17 are
    rejected without touching the session, the parser or the ring.  The
    payload length is computed past the end of the frame exactly for an
    IPv4/UDP frame of at least 62 bytes that is shorter than the 22 bytes
    of Ethernet and UDP headers plus the IP header length it declares. *)
Theorem process_raw_packet_verdict (h : PacketHandler) (data : list byte) :
  let len := Z.of_nat (length data) in
  let ipv4 := ntoh16 (EthernetHeader_ether_type data) =? ETHER_TYPE_IPV4 in
  let udp := byte_at data 23 =? IP_PROTO_UDP in
  let ihl := Z.land (byte_at data 14) 0x0F in
  (process_raw_packet h data = None <->
   62 <= len /\ ipv4 = true /\ udp = true /\ len < 22 + 4 * ihl) /\
  (len < 62 \/ ipv4 = false \/ udp = false ->
   process_raw_packet h data
   = Some (false, with_invalid_packets h (u64 (invalid_packets_ h + 1)))) /\
  (forall h', process_raw_packet h data = Some (false, h') ->
     invalid_packets_ h' = u64 (invalid_packets_ h + 1) /\
     packets_processed_ h' = packets_processed_ h /\
     bytes_processed_ h' = bytes_processed_ h) /\
  (forall h', process_raw_packet h data = Some (true, h') ->
     packets_processed_ h' = u64 (packets_processed_ h + 1) /\
     bytes_processed_ h' = u64 (bytes_processed_ h + len) /\
     invalid_packets_ h' = invalid_packets_ h).
Proof.
  cbv zeta. unfold process_raw_packet.
  change header_sizes.TOTAL_MIN with 62.
  unfold sizeof_EthernetHeader, sizeof_UDPHeader, get_ip_header_length, u8,
    IPv4Header_version_ihl, IPv4Header_protocol.
  assert (Hat : forall i, byte_at (drop (Z.to_nat 14) data) i
                          = byte_at data (14 + i)).
  { intros i. unfold byte_at. f_equal.
    change (Z.to_nat 14) with 14%nat.
    rewrite !nth_lookup, lookup_drop. reflexivity. }
  rewrite !Hat. cbn [Nat.add].
  assert (Hihl : 0 <= Z.land (byte_at data 14) 15 < 16).
  { pose proof (byte_to_Z_range (nth 14 data x00)).
    change 15 with (Z.ones 4). rewrite Z.land_ones by lia.
    apply Z.mod_pos_bound. lia. }
  rewrite (Z.mod_small (Z.land (byte_at data 14) 15 * 4)) by lia.
  destruct (Z.ltb_spec (Z.of_nat (length data)) 62) as [Hshort|Hlong].
  { split; [split; [discriminate | lia]|].
    split; [reflexivity|]. cbn [negb].
    split; intros h' [= <-]; destruct h; handler_simpl; repeat split. }
  destruct (ntoh16 (EthernetHeader_ether_type data) =? ETHER_TYPE_IPV4);
    cbn [negb].
  2:{ split; [split; [discriminate | intros (_ & H & _); discriminate H]|].
      split; [reflexivity|].
      split; intros h' [= <-]; destruct h; handler_simpl; repeat split. }
  destruct (byte_at data 23 =? IP_PROTO_UDP); cbn [negb].
  2:{ split; [split; [discriminate | intros (_ & _ & H & _); discriminate H]|].
      split; [reflexivity|].
      split; intros h' [= <-]; destruct h; handler_simpl; repeat split. }
  destruct (Z.gtb_spec (14 + Z.land (byte_at data 14) 15 * 4 + 8)
              (Z.of_nat (length data))) as [Hover|Hin].
  { split; [split; [intros _; repeat split; lia | reflexivity]|].
    split; [intros [H | [H | H]]; [lia | discriminate H | discriminate H]|].
    split; intros h' [=]. }
  match goal with
  | |- context [session_process_packet h ?d] =>
      pose proof (session_process_packet_frame h d) as Hf;
      destruct (session_process_packet h d) as [ok h1]
  end.
  cbv zeta in Hf. cbn [fst snd] in Hf. destruct Hf as (_ & _ & H3 & H4 & H5).
  split; [split; [destruct ok; discriminate | intros (_ & _ & _ & H); lia]|].
  split; [intros [H | [H | H]]; [lia | discriminate H | discriminate H]|].
  destruct ok; cbn [negb]; split; intros h' [= <-]; handler_simpl;
    rewrite ?H3, ?H4, ?H5; repeat split.
Qed.

Lemma process_raw_packet_verdict_witness :
  let h := PacketHandler_new (RingBuffer_new 8 NormalizedMessage_default) in
  process_raw_packet h packet_1
  = Some (false, with_invalid_packets h 1).
Proof.
  destruct (process_raw_packet_verdict
              (PacketHandler_new (RingBuffer_new 8 NormalizedMessage_default))
              packet_1) as (_ & H & _).
  cbv zeta. rewrite H; [reflexivity|]. left. cbn. lia.
Defined.

Lemma udp_headers_parse eth ip udp payload :
  udp_headers eth ip udp ->
  let data := frame eth ip udp payload in
  ntoh16 (EthernetHeader_ether_type data) = ETHER_TYPE_IPV4 /\
  IPv4Header_protocol (drop 14 data) = IP_PROTO_UDP /\
  get_ip_header_length (drop 14 data) = Z.of_nat (length ip) /\
  drop (14 + length ip + 8) data = payload /\
  length data = (22 + length ip + length payload)%nat.
Proof.
  intros (Heth & H12 & H13 & Hip & Hihl & Hproto & Hudp) data. subst data.
  unfold frame.
  assert (Hd14 : drop 14 (eth ++ ip ++ udp ++ payload) = ip ++ udp ++ payload).
  { apply drop_app_length'. symmetry. exact Heth. }
  rewrite Hd14.
  split; [|split; [|split; [|split]]].
  - unfold EthernetHeader_ether_type.
    do 14 (destruct eth as [|? eth]; [discriminate Heth|]).
    destruct eth; [|discriminate Heth].
    cbn [nth] in H12, H13. subst. reflexivity.
  - unfold IPv4Header_protocol, byte_at.
    rewrite app_nth1 by lia. exact Hproto.
  - unfold get_ip_header_length, IPv4Header_version_ihl, byte_at, u8.
    rewrite app_nth1 by lia.
    pose proof (byte_to_Z_range (nth 0 ip x00)) as Hb.
    assert (0 <= Z.land (byte_to_Z (nth 0 ip x00)) 15 < 16).
    { change 15 with (Z.ones 4). rewrite Z.land_ones by lia.
      apply Z.mod_pos_bound. lia. }
    rewrite Z.mod_small by lia. lia.
  - rewrite <- !drop_drop, Hd14.
    rewrite (drop_app_length' ip) by reflexivity.
    apply drop_app_length'. symmetry. exact Hudp.
  - rewrite !length_app. lia.
Qed.

Lemma process_raw_packet_udp h eth ip udp payload :
  udp_headers eth ip udp ->
  (40 <= length ip + length payload)%nat ->
  process_raw_packet h (frame eth ip udp payload)
  = Some (let '(ok, h1) := session_process_packet h payload in
          if ok then
            (true,
             with_bytes_processed
               (with_packets_processed h1 (u64 (packets_processed_ h1 + 1)))
               (u64 (bytes_processed_ h1
                     + Z.of_nat (22 + length ip + length payload))))
          else
            (false, with_invalid_packets h1 (u64 (invalid_packets_ h1 + 1)))).
Proof.
  intros Hh Hlen.
  destruct (udp_headers_parse eth ip udp payload Hh)
    as (Het & Hpr & Hihl & Hdrop & Hl).
  cbv zeta in *. unfold process_raw_packet.
  change header_sizes.TOTAL_MIN with 62.
  unfold sizeof_EthernetHeader, sizeof_UDPHeader.
  change (Z.to_nat 14) with 14%nat.
  rewrite Het, Hpr, Hihl, Hl, !Z.eqb_refl. cbn [negb].
  destruct (Z.ltb_spec (Z.of_nat (22 + length ip + length payload)) 62);
    [lia|].
  destruct (Z.gtb_spec (14 + Z.of_nat (length ip) + 8)
              (Z.of_nat (22 + length ip + length payload))); [lia|].
  replace (Z.to_nat (14 + Z.of_nat (length ip) + 8))
    with (14 + length ip + 8)%nat by lia.
  rewrite Hdrop.
  destruct (session_process_packet h payload) as [[|] h1]; reflexivity.
Qed.

(** X26: the payload of a UDP frame.  For a frame of 14 bytes of Ethernet
    header with ether type 0x0800, an IPv4 header of the length its IHL
    field declares (options included) with protocol 17, and 8 bytes of UDP
    header, [process_raw_packet] hands exactly the bytes behind the UDP
    header to the session decoder; it returns what the decoder returns,
    and counts the frame with its full length when the decoder accepts
    it, as invalid when it does not. *)
Theorem process_raw_packet_payload (h : PacketHandler)
    (eth ip udp payload : list byte) :
  udp_headers eth ip udp ->
  (40 <= length ip + length payload)%nat ->
  let o := process_packet (session_ h) payload in
  exists h',
    process_raw_packet h (frame eth ip udp payload) = Some (result o, h') /\
    session_ h' = session_after o /\
    (result o = true ->
     packets_processed_ h' = u64 (packets_processed_ h + 1) /\
     bytes_processed_ h'
     = u64 (bytes_processed_ h + Z.of_nat (length (frame eth ip udp payload))) /\
     invalid_packets_ h' = invalid_packets_ h) /\
    (result o = false ->
     invalid_packets_ h' = u64 (invalid_packets_ h + 1) /\
     packets_processed_ h' = packets_processed_ h /\
     bytes_processed_ h' = bytes_processed_ h).
Proof.
  intros Hh Hlen o.
  rewrite (process_raw_packet_udp h eth ip udp payload Hh Hlen).
  destruct (udp_headers_parse eth ip udp payload Hh) as (_ & _ & _ & _ & Hl).
  cbv zeta in Hl. rewrite Hl.
  destruct (session_process_packet_frame h payload) as (Hr & Hs & H3 & H4 & H5).
  cbv zeta in *. fold o in Hr, Hs.
  destruct (session_process_packet h payload) as [ok h1].
  cbn [fst snd] in *. subst ok.
  destruct (result o); eexists; (split; [reflexivity|]); handler_simpl;
    rewrite ?H3, ?H4, ?H5;
    (split; [exact Hs|]); split; intros H; try discriminate H; repeat split.
Qed.

Lemma process_raw_packet_payload_witness :
  exists h',
    process_raw_packet
      (PacketHandler_new (RingBuffer_new 8 NormalizedMessage_default))
      (frame eth_example ip_example udp_example packet_1)
    = Some (true, h') /\
    expected_sequence_ (session_ h') = 2.
Proof.
  destruct (process_raw_packet_payload
              (PacketHandler_new (RingBuffer_new 8 NormalizedMessage_default))
              eth_example ip_example udp_example packet_1)
    as (h' & H1 & H2 & _).
  - repeat split; reflexivity.
  - vm_compute. lia.
  - exists h'. split; [exact H1 | rewrite H2; reflexivity].
Defined.

End HandlerFacts.

(** ** From the frame to the ring *)

Module PipelineFacts.
Import Endian EndianFacts Itch5 ParserFacts RoundTrip Moldudp64 Spsc SpscFacts.
Import SessionFacts DecoderFacts SessionOps SessionMore Dpdk HandlerFacts.

Local Abbreviation ring_inv := (ring_inv MessageBuffer_Capacity).
Local Abbreviation size := (size MessageBuffer_Capacity).
Local Abbreviation contents :=
  (contents MessageBuffer_Capacity NormalizedMessage_default).

Lemma MessageBuffer_Capacity_positive : MessageBuffer_Capacity > 0.
Proof. reflexivity. Qed.

Lemma MessageBuffer_Capacity_power_of_2 :
  Z.land MessageBuffer_Capacity (MessageBuffer_Capacity - 1) = 0.
Proof. reflexivity. Qed.

Lemma on_events_messages msgs : forall seq h,
  fold_left on_event (messages_in_order msgs seq) h
  = fold_left parse_itch_message msgs h.
Proof.
  induction msgs as [|msg msgs IH]; intros seq h; [reflexivity|].
  cbn [messages_in_order fold_left on_event]. apply IH.
Qed.

Lemma session_process_packet_data h sid seq n msgs tail :
  message_callback_ (session_ h) = true ->
  gap_callback_ (session_ h) = false ->
  state_ (session_ h) = Unknown \/ session_id_ (session_ h) = session_field sid ->
  0 <= expected_sequence_ (session_ h) ->
  0 <= seq < 2 ^ 64 - 1 -> 0 <= n < 2 ^ 16 -> seq + n < 2 ^ 64 ->
  0 < seq \/ 0 < n ->
  Forall (fun msg => Z.of_nat (length msg) < 2 ^ 16) msgs ->
  n = Z.of_nat (length msgs) \/
  (Z.of_nat (length msgs) < n /\ truncated_block tail) ->
  let payload := create_moldudp_packet sid seq n msgs ++ tail in
  session_process_packet h payload
  = (true,
     fold_left parse_itch_message msgs
       (with_session h (session_after (process_packet (session_ h) payload)))).
Proof.
  intros Hm Hg Hsid Hexp Hseq Hn Hfit Hdata Hsmall Hshape payload.
  destruct (process_packet_data (session_ h) sid seq n msgs tail Hsid Hexp
              Hseq Hn Hfit Hdata Hsmall Hshape) as (Hr & Hev & _).
  fold payload in Hr, Hev.
  unfold session_process_packet. rewrite Hr, Hev, Hm, Hg, andb_false_r.
  cbn [app]. rewrite on_events_messages. reflexivity.
Qed.

(** X27: the handler parses every message of a packet, in order.  For a
    data packet the session decoder accepts, with all its message blocks
    present or cut at a truncated block, the handler is left as if
    [parse_itch_message] had been called on each complete message in
    packet order, and on nothing else. *)
Theorem handler_delivers_messages (h : PacketHandler) (sid : list byte)
    (seq n : Z) (msgs : list (list byte)) (tail : list byte) :
  message_callback_ (session_ h) = true ->
  gap_callback_ (session_ h) = false ->
  state_ (session_ h) = Unknown \/ session_id_ (session_ h) = session_field sid ->
  0 <= expected_sequence_ (session_ h) ->
  0 <= seq < 2 ^ 64 - 1 -> 0 <= n < 2 ^ 16 -> seq + n < 2 ^ 64 ->
  0 < seq \/ 0 < n ->
  Forall (fun msg => Z.of_nat (length msg) < 2 ^ 16) msgs ->
  n = Z.of_nat (length msgs) \/
  (Z.of_nat (length msgs) < n /\ truncated_block tail) ->
  let payload := create_moldudp_packet sid seq n msgs ++ tail in
  let s' := session_after (process_packet (session_ h) payload) in
  session_process_packet h payload
  = (true, fold_left parse_itch_message msgs (with_session h s')) /\
  parser_ (snd (session_process_packet h payload))
  = fold_left (fun p msg => parser_after (parse_message p msg)) msgs
      (parser_ h).
Proof.
  intros Hm Hg Hsid Hexp Hseq Hn Hfit Hdata Hsmall Hshape payload s'.
  pose proof (session_process_packet_data h sid seq n msgs tail Hm Hg Hsid
                Hexp Hseq Hn Hfit Hdata Hsmall Hshape) as H.
  cbv zeta in H. fold payload in H. fold s' in H. split; [exact H|].
  rewrite H. cbn [snd].
  assert (Hp : parser_ (with_session h s') = parser_ h) by (destruct h; reflexivity).
  rewrite <- Hp. generalize (with_session h s'). clear.
  induction msgs as [|msg msgs IH]; intros h; [reflexivity|].
  cbn [fold_left]. rewrite IH.
  destruct (parse_itch_message_frame h msg) as (_ & -> & _). reflexivity.
Qed.

Lemma handler_delivers_messages_witness :
  let h := PacketHandler_new (RingBuffer_new 8 NormalizedMessage_default) in
  fst (session_process_packet h (packet_1 ++ [])) = true.
Proof.
  destruct (handler_delivers_messages
              (PacketHandler_new (RingBuffer_new 8 NormalizedMessage_default))
              NASDAQ 1 1 [fake_message] []) as [H _].
  - reflexivity.
  - reflexivity.
  - left. reflexivity.
  - cbn. lia.
  - lia.
  - lia.
  - lia.
  - left. lia.
  - repeat constructor.
  - left. reflexivity.
  - cbv zeta in H. unfold packet_1. rewrite H. reflexivity.
Defined.

Lemma push_message_queue h msg :
  ring_inv (output_buffer_ h) ->
  let rb := output_buffer_ h in
  let h' := push_message h msg in
  ring_inv (output_buffer_ h') /\
  (size rb < MessageBuffer_Capacity - 1 ->
   contents (output_buffer_ h') = contents rb ++ [msg] /\
   messages_pushed_ h' = u64 (messages_pushed_ h + 1) /\
   buffer_full_count_ h' = buffer_full_count_ h) /\
  (size rb = MessageBuffer_Capacity - 1 ->
   output_buffer_ h' = rb /\
   messages_pushed_ h' = messages_pushed_ h /\
   buffer_full_count_ h' = u64 (buffer_full_count_ h + 1)).
Proof.
  intros Hinv rb h'. subst rb h'.
  destruct (SpscMore.try_push_queue MessageBuffer_Capacity
              NormalizedMessage_default MessageBuffer_Capacity_positive
              MessageBuffer_Capacity_power_of_2 msg (output_buffer_ h) Hinv)
    as (Hinv' & Hroom & Hfull).
  unfold push_message.
  destruct (try_push MessageBuffer_Capacity msg (output_buffer_ h))
    as [ok rb'] eqn:Hp.
  cbn [fst snd] in *.
  split; [|split].
  - destruct ok; cbn [negb]; destruct h; handler_simpl; assumption.
  - intros Hsz. destruct (Hroom Hsz) as [-> Hc]. cbn [negb].
    destruct h; handler_simpl. repeat split. exact Hc.
  - intros Hsz. destruct (Hfull Hsz) as [-> ->]. cbn [negb].
    destruct h; handler_simpl. repeat split.
Qed.

(** X28: a record that does not fit is dropped and counted.
    [push_message] on a ring with room appends the record to the queue
    and adds one to messages_pushed; on a full ring it leaves the ring as
    it is and adds one to buffer_full_count.  Exactly one of the two
    counters moves. *)
Theorem push_message_accounting (h : PacketHandler) (msg : NormalizedMessage) :
  ring_inv (output_buffer_ h) ->
  let rb := output_buffer_ h in
  let h' := push_message h msg in
  ring_inv (output_buffer_ h') /\
  (full MessageBuffer_Capacity rb = false ->
   contents (output_buffer_ h') = contents rb ++ [msg] /\
   messages_pushed_ h' = u64 (messages_pushed_ h + 1) /\
   buffer_full_count_ h' = buffer_full_count_ h) /\
  (full MessageBuffer_Capacity rb = true ->
   output_buffer_ h' = rb /\
   messages_pushed_ h' = messages_pushed_ h /\
   buffer_full_count_ h' = u64 (buffer_full_count_ h + 1)).
Proof.
  intros Hinv rb h'.
  destruct (push_message_queue h msg Hinv) as (H1 & H2 & H3).
  cbv zeta in *. fold rb in H2, H3. fold h' in H1, H2, H3.
  pose proof (SpscMore.full_size MessageBuffer_Capacity
                MessageBuffer_Capacity_positive
                MessageBuffer_Capacity_power_of_2 rb Hinv) as Hfull.
  pose proof (size_range MessageBuffer_Capacity rb Hinv) as Hsz.
  split; [exact H1|]. split; intros Hf; [apply H2 | apply H3].
  - destruct (Z.eq_dec (size rb) (MessageBuffer_Capacity - 1)) as [E|E];
      [|lia].
    apply Hfull in E. congruence.
  - apply Hfull. exact Hf.
Qed.

Lemma push_message_accounting_witness :
  let h := PacketHandler_new
             (RingBuffer_new MessageBuffer_Capacity NormalizedMessage_default) in
  messages_pushed_ (push_message h NormalizedMessage_default) = 1.
Proof.
  destruct (push_message_accounting
              (PacketHandler_new
                 (RingBuffer_new MessageBuffer_Capacity
                    NormalizedMessage_default))
              NormalizedMessage_default) as (_ & H & _).
  - apply ring_inv_new. reflexivity.
  - destruct (H eq_refl) as (_ & Hp & _). cbv zeta. rewrite Hp. reflexivity.
Defined.

Lemma add_order_parse (p0 : Parser)
    (stock_locate tracking_number ts r q p : Z) (s : Side) :
  add_order_cb_ p0 = true ->
  0 <= r < 2 ^ 64 -> 0 <= p < 2 ^ 32 -> 0 <= q < 2 ^ 32 ->
  let msg :=
    build_add_order stock_locate tracking_number ts r (Side_code s) q MSFT p in
  parse_message p0 msg
  = {| consumed := 36;
       parser_after :=
         with_stats (with_stats p0 incr_add_orders) incr_total_messages;
       callbacks := [AddOrderCallback msg (ts mod 2 ^ 48) (p * 100) q] |} /\
  PacketHandler.records_of [AddOrderCallback msg (ts mod 2 ^ 48) (p * 100) q]
  = [{| type := MT_AddOrder; timestamp := ts mod 2 ^ 48; order_ref := r;
        stock := MSFT; side := s; price := p * 100; quantity := q;
        executed_quantity := 0; new_order_ref := 0 |}].
Proof.
  intros Hcb Hr Hp Hq msg.
  assert (Hprice : convert_price (ntoh32 (AddOrder_price msg)) = p * 100).
  { subst msg. rewrite build_add_order_price, ntoh32_hton32 by exact Hp.
    apply convert_price_wire. exact Hp. }
  assert (Hqty : ntoh32 (AddOrder_shares msg) = q).
  { subst msg. rewrite build_add_order_shares. apply ntoh32_hton32. exact Hq. }
  assert (Href : ntoh64 (AddOrder_order_reference_number msg) = r).
  { subst msg. rewrite build_add_order_order_reference_number.
    apply ntoh64_hton64. exact Hr. }
  assert (Hts : read_be48 (msg_timestamp msg) = ts mod 2 ^ 48)
    by apply build_add_order_timestamp.
  assert (Hlen : length msg = 36%nat)
    by exact (build_add_order_length stock_locate tracking_number ts r q p s).
  assert (Hty : nth 0 msg x00 = "A"%byte) by reflexivity.
  assert (Hview : take (Z.to_nat (sizeof AddOrder)) msg = msg)
    by exact (build_add_order_view stock_locate tracking_number ts r q p s).
  assert (Hbs : AddOrder_buy_sell_indicator msg = Side_code s) by reflexivity.
  assert (Hstock : AddOrder_stock msg = MSFT) by reflexivity.
  split.
  - unfold parse_message. rewrite Hlen, Hty.
    change (get_message_size "A"%byte) with 36.
    change (Z.of_nat 36 <? 1) with false.
    change (36 =? 0) with false.
    change (Z.of_nat 36 <? 36) with false.
    cbn [dispatch]. rewrite Hview.
    unfold parse_add_order. cbn [with_stats add_order_cb_]. rewrite Hcb.
    rewrite Hts, Hprice, Hqty. reflexivity.
  - cbn [PacketHandler.records_of PacketHandler.normalized].
    rewrite Href, Hbs, side_of_code, Hstock. reflexivity.
Qed.

(** X29: an AddOrder travels from the frame to the ring.  A UDP frame
    whose payload is a MoldUDP64 packet with one AddOrder message (order
    reference [r], side [s], wire price [p], quantity [q]), given to a
    handler whose ring has room and whose session accepts the packet, is
    processed: the normalized record with [order_ref = r], [side = s],
    [price = p * 100] and [quantity = q] is appended to the ring's queue,
    messages_pushed and the parser's add_orders grow by one, and the
    session expects the sequence number after the packet's. *)
Theorem add_order_frame_to_ring (h : PacketHandler)
    (eth ip udp sid : list byte)
    (seq stock_locate tracking_number ts r q p : Z) (s : Side) :
  udp_headers eth ip udp ->
  ring_inv (output_buffer_ h) ->
  full MessageBuffer_Capacity (output_buffer_ h) = false ->
  add_order_cb_ (parser_ h) = true ->
  message_callback_ (session_ h) = true ->
  gap_callback_ (session_ h) = false ->
  state_ (session_ h) = Unknown \/ session_id_ (session_ h) = session_field sid ->
  0 <= expected_sequence_ (session_ h) ->
  0 <= seq -> seq + 1 < 2 ^ 64 ->
  0 <= r < 2 ^ 64 -> 0 <= p < 2 ^ 32 -> 0 <= q < 2 ^ 32 ->
  let msg :=
    build_add_order stock_locate tracking_number ts r (Side_code s) q MSFT p in
  let record :=
    {| type := MT_AddOrder; timestamp := ts mod 2 ^ 48; order_ref := r;
       stock := MSFT; side := s; price := p * 100; quantity := q;
       executed_quantity := 0; new_order_ref := 0 |} in
  exists h',
    process_raw_packet h
      (frame eth ip udp (create_moldudp_packet sid seq 1 [msg]))
    = Some (true, h') /\
    contents (output_buffer_ h') = contents (output_buffer_ h) ++ [record] /\
    messages_pushed_ h' = u64 (messages_pushed_ h + 1) /\
    buffer_full_count_ h' = buffer_full_count_ h /\
    add_orders (stats_ (parser_ h'))
    = u64 (add_orders (stats_ (parser_ h)) + 1) /\
    expected_sequence_ (session_ h')
    = Z.max (expected_sequence_ (session_ h)) (seq + 1).
Proof.
  intros Hh Hinv Hroom Hcb Hm Hg Hsid Hexp Hseq Hfit Hr Hp Hq msg record.
  set (payload := create_moldudp_packet sid seq 1 [msg]).
  assert (Hmsg : length msg = 36%nat)
    by exact (build_add_order_length stock_locate tracking_number ts r q p s).
  assert (Hsmall : Forall (fun m => Z.of_nat (length m) < 2 ^ 16) [msg]).
  { constructor; [rewrite Hmsg; cbn; lia | constructor]. }
  assert (Hpl : length payload = 58%nat).
  { subst payload. rewrite length_create_moldudp_packet. cbn [map concat].
    rewrite app_nil_r, length_message_block, Hmsg. reflexivity. }
  rewrite (process_raw_packet_udp h eth ip udp payload Hh) by lia.
  pose proof (session_process_packet_data h sid seq 1 [msg] [] Hm Hg Hsid Hexp
                ltac:(lia) ltac:(lia) ltac:(lia) ltac:(right; lia) Hsmall
                ltac:(left; reflexivity)) as Hd.
  destruct (process_packet_data (session_ h) sid seq 1 [msg] [] Hsid Hexp
              ltac:(lia) ltac:(lia) ltac:(lia) ltac:(right; lia) Hsmall
              ltac:(left; reflexivity)) as (_ & _ & _ & He & _).
  cbv zeta in Hd, He. rewrite app_nil_r in Hd, He. fold payload in Hd, He.
  rewrite Hd. cbn [fold_left].
  set (s' := session_after (process_packet (session_ h) payload)) in *.
  destruct (add_order_parse (parser_ (with_session h s')) stock_locate
              tracking_number ts r q p s) as [Hparse Hrec];
    try assumption.
  fold msg in Hparse, Hrec. fold record in Hrec.
  unfold parse_itch_message. rewrite Hparse.
  cbn [callbacks parser_after]. rewrite Hrec. cbn [fold_left].
  set (h2 := with_parser (with_session h s') _).
  assert (Hb2 : output_buffer_ h2 = output_buffer_ h) by reflexivity.
  destruct (push_message_queue h2 record) as (_ & Hpush & _).
  { rewrite Hb2. exact Hinv. }
  cbv zeta in Hpush. rewrite Hb2 in Hpush.
  destruct Hpush as (Hc & Hmp & Hbf).
  { pose proof (SpscMore.full_size MessageBuffer_Capacity
                  MessageBuffer_Capacity_positive
                  MessageBuffer_Capacity_power_of_2 _ Hinv) as Hfull.
    pose proof (size_range MessageBuffer_Capacity _ Hinv) as Hsz.
    destruct (Z.eq_dec (size (output_buffer_ h)) (MessageBuffer_Capacity - 1))
      as [E|E]; [|lia].
    apply Hfull in E. congruence. }
  destruct (push_message_frame h2 record) as (Hs2 & Hp2 & _).
  cbv zeta in Hs2, Hp2.
  eexists. split; [reflexivity|]. handler_simpl.
  rewrite Hc, Hmp, Hbf, Hp2, Hs2.
  subst h2. destruct h; handler_simpl.
  repeat split. exact He.
Qed.

Lemma add_order_frame_to_ring_witness :
  let h := PacketHandler_new
             (RingBuffer_new MessageBuffer_Capacity NormalizedMessage_default) in
  let msg :=
    build_add_order 1 2 34200000000000 123456789 (Side_code Buy) 100 MSFT
      1500000 in
  exists h',
    process_raw_packet h
      (frame eth_example ip_example udp_example
         (create_moldudp_packet NASDAQ 1 1 [msg]))
    = Some (true, h') /\
    contents (output_buffer_ h')
    = [{| type := MT_AddOrder; timestamp := 34200000000000;
          order_ref := 123456789; stock := MSFT; side := Buy;
          price := 150000000; quantity := 100;
          executed_quantity := 0; new_order_ref := 0 |}].
Proof.
  destruct (add_order_frame_to_ring
              (PacketHandler_new
                 (RingBuffer_new MessageBuffer_Capacity
                    NormalizedMessage_default))
              eth_example ip_example udp_example NASDAQ
              1 1 2 34200000000000 123456789 100 1500000 Buy)
    as (h' & H1 & H2 & _).
  - repeat split; reflexivity.
  - apply ring_inv_new. reflexivity.
  - reflexivity.
  - reflexivity.
  - reflexivity.
  - reflexivity.
  - left. reflexivity.
  - cbn. lia.
  - lia.
  - lia.
  - lia.
  - lia.
  - lia.
  - exists h'. split; [exact H1|]. rewrite H2. reflexivity.
Defined.

End PipelineFacts.

(** ** Raw ITCH files *)

Module FileFacts.
Import Endian EndianFacts Itch5 ParserFacts Moldudp64 Spsc.
Import SessionFacts SessionOps SessionMore SessionOpsFacts Dpdk HandlerFacts.

Lemma consumed_parser_independent p p' data :
  consumed (parse_message p data) = consumed (parse_message p' data).
Proof.
  unfold parse_message.
  destruct (Z.of_nat (length data) <? 1); [reflexivity|].
  destruct (get_message_size (nth 0 data x00) =? 0); [reflexivity|].
  destruct (Z.of_nat (length data) <? get_message_size (nth 0 data x00));
    [reflexivity|].
  destruct (dispatch p _ data), (dispatch p' _ data). reflexivity.
Qed.

Lemma parse_itch_message_nil h : parse_itch_message h [] = h.
Proof. destruct h. reflexivity. Qed.

Lemma itch_file_loop_total fuel : forall h data offset cnt,
  Z.of_nat (length data) - offset <= 2 * Z.of_nat fuel + 2 ->
  exists n h',
    itch_file_loop fuel h data offset cnt = Some (n, h') /\
    cnt <= n <= cnt + Z.of_nat fuel /\
    session_ h' = session_ h /\
    packets_processed_ h' = packets_processed_ h /\
    bytes_processed_ h' = bytes_processed_ h /\
    invalid_packets_ h' = invalid_packets_ h.
Proof.
  induction fuel as [|fuel IH]; intros h data offset cnt Hb.
  - cbn [itch_file_loop].
    destruct (Z.ltb_spec (offset + 2) (Z.of_nat (length data))); [lia|].
    exists cnt, h. repeat split; lia.
  - cbn [itch_file_loop].
    destruct (Z.ltb_spec (offset + 2) (Z.of_nat (length data)));
      [|exists cnt, h; repeat split; lia].
    cbv zeta.
    pose proof (read_be16_range (drop (Z.to_nat offset) data)) as Hlen.
    set (msg_len := read_be16 (drop (Z.to_nat offset) data)) in *.
    destruct (Z.gtb_spec (offset + 2 + msg_len) (Z.of_nat (length data)));
      [exists cnt, h; repeat split; lia|].
    set (msg := take (Z.to_nat msg_len) (drop (Z.to_nat (offset + 2)) data)).
    destruct (parse_itch_message_frame h msg) as (H1 & _ & H3 & H4 & H5).
    cbv zeta in *.
    match goal with
    | |- context [itch_file_loop fuel ?a data ?o ?c] =>
        destruct (IH a data o c ltac:(lia))
          as (n & h' & -> & Hn & G1 & G3 & G4 & G5)
    end.
    exists n, h'. split; [reflexivity|].
    split; [destruct (_ >? 0); lia|].
    repeat split; congruence.
Qed.

Lemma length_blocks msgs : (2 * length msgs <= length (blocks msgs))%nat.
Proof.
  induction msgs as [|msg msgs IH]; [cbn; lia|].
  rewrite length_blocks_cons. cbn [length]. lia.
Qed.

Lemma itch_file_loop_blocks msgs : forall fuel h pre cnt,
  Forall (fun msg => Z.of_nat (length msg) < 2 ^ 16) msgs ->
  (length msgs <= fuel)%nat ->
  itch_file_loop fuel h (pre ++ blocks msgs) (Z.of_nat (length pre)) cnt
  = Some (cnt + Z.of_nat (length (List.filter parses msgs)),
          fold_left parse_itch_message msgs h).
Proof.
  induction msgs as [|msg msgs IH]; intros fuel h pre cnt Hsmall Hfuel.
  - unfold blocks. cbn [map concat List.filter length fold_left].
    rewrite app_nil_r, Z.add_0_r.
    destruct fuel; cbn [itch_file_loop];
      destruct (Z.ltb_spec (Z.of_nat (length pre) + 2) (Z.of_nat (length pre)));
      try lia; reflexivity.
  - inversion Hsmall as [|? ? Hmsg Hrest]; subst.
    assert (Hdata : pre ++ blocks (msg :: msgs)
                    = pre ++ message_block msg ++ blocks msgs).
    { unfold blocks. reflexivity. }
    assert (Hdl : Z.of_nat (length (pre ++ blocks (msg :: msgs)))
                  = Z.of_nat (length pre) + 2 + Z.of_nat (length msg)
                    + Z.of_nat (length (blocks msgs))).
    { rewrite Hdata, !length_app, length_message_block. lia. }
    assert (Hcount : forall p,
              cnt + Z.of_nat (length (List.filter parses (msg :: msgs)))
              = (if consumed (parse_message p msg) >? 0 then cnt + 1 else cnt)
                + Z.of_nat (length (List.filter parses msgs))).
    { intros p. cbn [List.filter]. unfold parses at 1.
      rewrite (consumed_parser_independent Parser_new p).
      destruct (_ >? 0); cbn [length]; lia. }
    destruct (Z.ltb_spec (Z.of_nat (length pre) + 2)
                (Z.of_nat (length (pre ++ blocks (msg :: msgs)))))
      as [Hin|Hend].
    + destruct fuel as [|fuel]; [cbn [length] in Hfuel; lia|].
      cbn [itch_file_loop length] in *.
      destruct (Z.ltb_spec (Z.of_nat (length pre) + 2)
                  (Z.of_nat (length (pre ++ blocks (msg :: msgs)))));
        [|lia].
      cbv zeta. rewrite Nat2Z.id.
      assert (Hdrop : drop (length pre) (pre ++ blocks (msg :: msgs))
                      = message_block msg ++ blocks msgs).
      { rewrite Hdata. apply drop_app_length. }
      rewrite Hdrop.
      change (read_be16 (message_block msg ++ blocks msgs))
        with (read_message_length (message_block msg ++ blocks msgs)).
      rewrite read_message_length_block by exact Hmsg.
      destruct (Z.gtb_spec (Z.of_nat (length pre) + 2 + Z.of_nat (length msg))
                  (Z.of_nat (length (pre ++ blocks (msg :: msgs)))));
        [lia|].
      replace (Z.to_nat (Z.of_nat (length pre) + 2)) with (length pre + 2)%nat
        by lia.
      assert (Htake : take (Z.to_nat (Z.of_nat (length msg)))
                        (drop (length pre + 2) (pre ++ blocks (msg :: msgs)))
                      = msg).
      { rewrite Nat2Z.id, <- drop_drop, Hdrop.
        unfold message_block. cbn [app drop skipn]. apply take_app_length. }
      rewrite Htake.
      replace (Z.of_nat (length pre) + 2 + Z.of_nat (length msg))
        with (Z.of_nat (length (pre ++ message_block msg)))
        by (rewrite length_app, length_message_block; lia).
      rewrite Hdata, app_assoc.
      rewrite IH by (assumption || lia).
      rewrite (Hcount (parser_ h)). reflexivity.
    + assert (Hm0 : length msg = 0%nat) by lia.
      assert (Hb0 : length (blocks msgs) = 0%nat) by lia.
      destruct msg; [|discriminate Hm0].
      destruct msgs as [|m' msgs'];
        [|rewrite length_blocks_cons in Hb0; lia].
      cbn [fold_left]. rewrite parse_itch_message_nil.
      assert (Hf : List.filter parses [[]] = []) by reflexivity.
      rewrite Hf. cbn [length]. rewrite Z.add_0_r.
      destruct fuel; cbn [itch_file_loop];
        destruct (Z.ltb_spec (Z.of_nat (length pre) + 2)
                    (Z.of_nat (length (pre ++ blocks [[]]))));
        try lia; reflexivity.
Qed.

(** X30: [process_itch_file_data] ends and follows the blocks.  On every
    buffer the loop ends within the turns the buffer's length allows and
    leaves the session and the packet counters alone.  On a buffer made
    of length-prefixed messages it calls the parser on each message in
    order, pushes the records built, and returns the number of messages
    the parser took. *)
Theorem process_itch_file_data_blocks (h : PacketHandler) (data : list byte) :
  (exists n h',
     process_itch_file_data h data = Some (n, h') /\
     0 <= n /\ session_ h' = session_ h /\
     packets_processed_ h' = packets_processed_ h /\
     bytes_processed_ h' = bytes_processed_ h /\
     invalid_packets_ h' = invalid_packets_ h) /\
  (forall msgs,
     Forall (fun msg => Z.of_nat (length msg) < 2 ^ 16) msgs ->
     data = blocks msgs ->
     process_itch_file_data h data
     = Some (Z.of_nat (length (List.filter parses msgs)),
             fold_left parse_itch_message msgs h)).
Proof.
  split.
  - destruct (itch_file_loop_total (length data) h data 0 0 ltac:(lia))
      as (n & h' & H & Hn & Hrest).
    exists n, h'. split; [exact H|]. split; [lia | exact Hrest].
  - intros msgs Hsmall ->. unfold process_itch_file_data.
    pose proof (length_blocks msgs) as Hl.
    exact (itch_file_loop_blocks msgs (length (blocks msgs)) h [] 0 Hsmall
             ltac:(lia)).
Qed.

Lemma process_itch_file_data_blocks_witness :
  let h := PacketHandler_new (RingBuffer_new 8 NormalizedMessage_default) in
  let msgs := [ParserOps.build_order_delete 1 4 34200100000000 123456789;
               fake_message] in
  process_itch_file_data h (blocks msgs)
  = Some (1, fold_left parse_itch_message msgs h).
Proof.
  destruct (process_itch_file_data_blocks
              (PacketHandler_new (RingBuffer_new 8 NormalizedMessage_default))
              (blocks [ParserOps.build_order_delete 1 4 34200100000000
                         123456789; fake_message])) as [_ H].
  cbv zeta.
  rewrite (H [ParserOps.build_order_delete 1 4 34200100000000 123456789;
              fake_message]).
  - reflexivity.
  - repeat constructor.
  - reflexivity.
Defined.

End FileFacts.
